(** * conc11 task nodes ([concurrency/concurrency/Task.h])

    A shallow embedding of [conc11::TaskBase] and [conc11::Task<T>] and the
    properties of the node contract: invocation and continuation cascade,
    the status setter and the result-channel reset, [then] chaining,
    dependency registration, the profiling collector accessors and the
    process-wide instance counter; then construction, ownership and
    lifetime through the dependency vectors and the continuation
    reference, and the recursion of [operator()].

    Modelling conventions.
    - Objects managed by [std::shared_ptr] live in an object store indexed by
      address; an entry keeps the strong use count of its control block and
      becomes [None] when the object has been destroyed.  Addresses are never
      reused, so a [std::weak_ptr] is an optional address that is expired
      when it is empty or when its target has been destroyed.
    - A [std::promise]/[std::shared_future] pair is an index into a store of
      shared states.
    - A [std::function<void()>] is the list of the calls it makes on the
      tasks it captured by reference; these are the calls any client of the
      class can make ([Op]), a call of [operator()] among them.
    - [assert] is modelled as in a build without [NDEBUG]: a failed assertion
      aborts the call.
    - Execution is sequential (one thread).  Recursion through [operator()]
      and through destructors is bounded by a fuel argument. *)

From Stdlib Require Import ZArith Lia String.
From stdpp Require Import base decidable option list.

(** ** Outcomes of a call *)

Inductive Assertion :=
  | AssertFunction          (* assert(m_function)              operator() *)
  | AssertStatusNotInvalid  (* assert(m_status != TsInvalid)   operator() *)
  | AssertFalse             (* assert(false)                   operator() *)
  | AssertDestroyStatus.    (* the assert of ~Task                         *)

Inductive Exception :=
  | PromiseAlreadySatisfied (* std::future_error from promise::set_value  *)
  | BrokenPromise.          (* std::future_error stored by ~promise       *)

Inductive Result (A : Type) :=
  | Ok (a : A)              (* the call returns                           *)
  | Abort (a : Assertion)   (* an assertion failed                        *)
  | Throw (e : Exception)   (* the call leaves by an exception            *)
  | Blocks                  (* future::get on a state never fulfilled     *)
  | Undefined               (* use of a destroyed object or null pointer  *)
  | OutOfFuel.              (* recursion budget of the model exhausted    *)

Arguments Ok {A} a.
Arguments Abort {A} a.
Arguments Throw {A} e.
Arguments Blocks {A}.
Arguments Undefined {A}.
Arguments OutOfFuel {A}.

Definition bind {A B} (r : Result A) (k : A -> Result B) : Result B :=
  match r with
  | Ok a => k a
  | Abort a => Abort a
  | Throw e => Throw e
  | Blocks => Blocks
  | Undefined => Undefined
  | OutOfFuel => OutOfFuel
  end.

Notation "'perform' x := r 'in' k" := (bind r (fun x => k))
  (at level 10, x name, r at level 100, k at level 200).

Fixpoint foldM {A B} (f : B -> A -> Result A) (l : list B) (a : A) : Result A :=
  match l with
  | [] => Ok a
  | x :: l' => perform a' := f x a in foldM f l' a'
  end.

(** ** Data model *)

(* enum TaskStatus *)
Inductive TaskStatus :=
  | TsPending
  | TsScheduledOnce
  | TsScheduledPolling
  | TsDone
  | TsInvalid.

#[global] Instance TaskStatus_eq_dec : EqDecision TaskStatus.
Proof. solve_decision. Defined.

Abbreviation task_id := nat (only parsing).
Abbreviation chan_id := nat (only parsing).

(* A float is only stored and copied by this class: it is kept as its
   IEEE-754 binary32 bit pattern. *)
Abbreviation float := Z (only parsing).
Definition float_one : float := 0x3f800000%Z.   (* 1.0f *)

Definition Color : Type := float * float * float.

(* unsigned int arithmetic, on 32 bits *)
Definition wrap32 (z : Z) : Z := (z mod 2 ^ 32)%Z.

(* A type of result values: the results of the tasks of a program, with the
   value of UnitType, which VoidToUnitType substitutes for void. *)
Class UnitType (V : Type) := UnitValue : V.

#[global] Instance Z_UnitType : UnitType Z := 0%Z.

(* The callables of the scenarios of the specification. *)
Definition double (x : Z) : Z := (x * 2)%Z.
Definition add_one (x : Z) : Z := (x + 1)%Z.

Section Model.

Context {V : Type} `{!UnitType V}.

(* The shared state of a promise/future pair. *)
Inductive SharedState :=
  | Unfulfilled
  | Ready (v : V)
  | Broken.

(* The callable handed to [then], by the shape FunctionTraits reports.  It
   is a pure function of its argument; a callable whose argument type does
   not accept the result of the preceding task has no shape here. *)
Inductive Callable :=
  | FnOfArg (f : V -> V)    (* R f(T)    *)
  | FnNoArg (r : V)         (* R f()     *)
  | FnVoidOfArg             (* void f(T) *)
  | FnVoidNoArg.            (* void f()  *)

#[local] Set Warnings "-register-all".

(* The calls client code makes on the tasks it can reach.  A scheduler or
   a user makes them through the handles it holds; the std::function<void()>
   stored in a task makes them on the tasks it captured by reference, so
   the body of a task function is a list of such calls. *)
Inductive Op :=
  | OpMakeShared (name : string) (color : option Color) (isCont : bool)
      (* std::make_shared<Task<T>>(name, color, isCont) *)
  | OpCopyHandle (n : task_id)                   (* a shared_ptr is copied *)
  | OpDropHandle (n : task_id)                   (* a shared_ptr is destroyed *)
  | OpInvoke (n : task_id)                       (* n() *)
  | OpThen (n : task_id) (f : Callable) (name : string) (color : option Color)
  | OpSetStatus (n : task_id) (s : TaskStatus)
  | OpReset (n : task_id)
  | OpSetFunction (n : task_id) (f : option (list Op))
  | OpSetContinuation (n : task_id) (c : option task_id)
  | OpAddDependencies (n : task_id) (deps : list task_id)
  | OpAddDependenciesPack (n : task_id) (deps : list task_id)
  | OpSetTimeIntervalCollector (n : task_id) (c : option nat)
  | OpSetDebugColor (n : task_id) (c : Color)
  | OpSetValue (n : task_id) (v : V)             (* n.getPromise()->set_value(v) *)
  | OpGetFuture (n : task_id)                    (* n.getFuture().get() *)
  | OpTrySetFuncResult (tref : task_id) (f : Callable) (this : task_id).
      (* trySetFuncResult on tref's promise, f and this->m_future *)

(* The data members of Task<T>, in declaration order. *)
Record Task := mkTask {
  m_function : option (list Op);         (* None: empty std::function *)
  m_promise : option chan_id;            (* None: null shared_ptr     *)
  m_future : option chan_id;             (* None: invalid future      *)
  m_continuation : option task_id;       (* std::weak_ptr<TaskBase>   *)
  m_dependencies : list task_id;         (* vector of shared_ptr      *)
  m_collector : option nat;              (* shared_ptr, None: null    *)
  m_name : string;
  m_debugColor : Color;
  m_status : TaskStatus;
  m_isContinuation : bool
}.

(* An object owned through shared_ptr, with the strong count of its
   control block. *)
Record Managed := mkManaged {
  object : Task;
  use_count : nat
}.

(* Instrumentation: the calls of the profiling scope, and two ghost events
   recording that a task function, or the callable wrapped by [then], ran. *)
Inductive Event :=
  | EvIntervalBegin (collector : nat) (name : string) (color : Color)
  | EvIntervalEnd (collector : nat)
  | EvFunction (n : task_id)
  | EvCallable (n : task_id) (arg : option V).

Record Heap := mkHeap {
  tasks : list (option Managed);
  chans : list SharedState;
  s_instanceCount : Z;                   (* TaskBase::s_instanceCount *)
  trace : list Event
}.

(** ** Field updates *)

Definition with_function (f : option (list Op)) (t : Task) : Task :=
  mkTask f (m_promise t) (m_future t) (m_continuation t) (m_dependencies t)
         (m_collector t) (m_name t) (m_debugColor t) (m_status t) (m_isContinuation t).

Definition with_promise (p : option chan_id) (t : Task) : Task :=
  mkTask (m_function t) p (m_future t) (m_continuation t) (m_dependencies t)
         (m_collector t) (m_name t) (m_debugColor t) (m_status t) (m_isContinuation t).

Definition with_future (f : option chan_id) (t : Task) : Task :=
  mkTask (m_function t) (m_promise t) f (m_continuation t) (m_dependencies t)
         (m_collector t) (m_name t) (m_debugColor t) (m_status t) (m_isContinuation t).

Definition with_continuation (c : option task_id) (t : Task) : Task :=
  mkTask (m_function t) (m_promise t) (m_future t) c (m_dependencies t)
         (m_collector t) (m_name t) (m_debugColor t) (m_status t) (m_isContinuation t).

Definition with_dependencies (d : list task_id) (t : Task) : Task :=
  mkTask (m_function t) (m_promise t) (m_future t) (m_continuation t) d
         (m_collector t) (m_name t) (m_debugColor t) (m_status t) (m_isContinuation t).

Definition with_collector (c : option nat) (t : Task) : Task :=
  mkTask (m_function t) (m_promise t) (m_future t) (m_continuation t) (m_dependencies t)
         c (m_name t) (m_debugColor t) (m_status t) (m_isContinuation t).

Definition with_debugColor (c : Color) (t : Task) : Task :=
  mkTask (m_function t) (m_promise t) (m_future t) (m_continuation t) (m_dependencies t)
         (m_collector t) (m_name t) c (m_status t) (m_isContinuation t).

Definition with_status (s : TaskStatus) (t : Task) : Task :=
  mkTask (m_function t) (m_promise t) (m_future t) (m_continuation t) (m_dependencies t)
         (m_collector t) (m_name t) (m_debugColor t) s (m_isContinuation t).

Definition with_tasks (ts : list (option Managed)) (h : Heap) : Heap :=
  mkHeap ts (chans h) (s_instanceCount h) (trace h).

Definition with_chans (cs : list SharedState) (h : Heap) : Heap :=
  mkHeap (tasks h) cs (s_instanceCount h) (trace h).

Definition with_instanceCount (c : Z) (h : Heap) : Heap :=
  mkHeap (tasks h) (chans h) c (trace h).

Definition log (e : Event) (h : Heap) : Heap :=
  mkHeap (tasks h) (chans h) (s_instanceCount h) (trace h ++ [e]).

(** ** The object store *)

(* The object at address [n], when it has not been destroyed. *)
Definition lookup_task (n : task_id) (h : Heap) : option Task :=
  match tasks h !! n with
  | Some (Some e) => Some (object e)
  | _ => None
  end.

Definition alive (n : task_id) (h : Heap) : bool :=
  match lookup_task n h with Some _ => true | None => false end.

Definition deref (n : task_id) (h : Heap) : Result Task :=
  match lookup_task n h with
  | Some t => Ok t
  | None => Undefined
  end.

Definition set_object (t : Task) (e : option Managed) : option Managed :=
  match e with
  | Some m => Some (mkManaged t (use_count m))
  | None => None
  end.

(* Write back the members of the object at [n]. *)
Definition store (n : task_id) (t : Task) (h : Heap) : Heap :=
  with_tasks (alter (set_object t) n (tasks h)) h.

Definition incr_use (e : option Managed) : option Managed :=
  match e with
  | Some m => Some (mkManaged (object m) (S (use_count m)))
  | None => None
  end.

(* Copying a shared_ptr to [n]. *)
Definition acquire (n : task_id) (h : Heap) : Heap :=
  with_tasks (alter incr_use n (tasks h)) h.

Definition strong_count (n : task_id) (h : Heap) : nat :=
  match tasks h !! n with
  | Some (Some e) => use_count e
  | _ => 0
  end.

(* weak_ptr::expired *)
Definition expired (w : option task_id) (h : Heap) : bool :=
  match w with
  | Some c => negb (alive c h)
  | None => true
  end.

(* weak_ptr::lock, as the address it yields; the caller takes the
   reference with [acquire]. *)
Definition lock (w : option task_id) (h : Heap) : option task_id :=
  match w with
  | Some c => if alive c h then Some c else None
  | None => None
  end.

(** ** Promises and futures *)

(* ~promise: a shared state abandoned before it was made ready stores
   broken_promise.  A task is taken to be the only owner of its promise:
   clients reach the promise through the task. *)
Definition abandon (p : option chan_id) (cs : list SharedState) : list SharedState :=
  match p with
  | Some c =>
      match cs !! c with
      | Some Unfulfilled => <[c := Broken]> cs
      | _ => cs
      end
  | None => cs
  end.

(* promise::set_value through a shared_ptr<promise> *)
Definition set_value (p : option chan_id) (v : V) (cs : list SharedState)
  : Result (list SharedState) :=
  match p with
  | Some c =>
      match cs !! c with
      | Some Unfulfilled => Ok (<[c := Ready v]> cs)
      | Some _ => Throw PromiseAlreadySatisfied
      | None => Undefined
      end
  | None => Undefined
  end.

(* shared_future::get *)
Definition future_get (f : option chan_id) (cs : list SharedState) : Result V :=
  match f with
  | Some c =>
      match cs !! c with
      | Some (Ready v) => Ok v
      | Some Unfulfilled => Blocks
      | Some Broken => Throw BrokenPromise
      | None => Undefined
      end
  | None => Undefined
  end.

(* What a consumer holding the future [f] observes. *)
Definition observe (f : option chan_id) (cs : list SharedState) : option SharedState :=
  match f with
  | Some c => cs !! c
  | None => None
  end.

(** ** Task<T>: construction, reset, status *)

(* Task<T>::reset *)
Definition reset (t : Task) (cs : list SharedState) : Task * list SharedState :=
  (* m_promise = std::make_shared<std::promise<ReturnType>>();
     the assignment drops the promise held before *)
  let p := length cs in
  let cs1 := abandon (m_promise t) (cs ++ [Unfulfilled]) in
  (* m_future = m_promise->get_future().share(); *)
  (with_future (Some p) (with_promise (Some p) t), cs1).

(* Task<T>::Task(name, color, isContinuation); [color = None] is nullptr *)
Definition Task_ctor (name : string) (color : option Color) (isContinuation : bool)
    (h : Heap) : Task * Heap :=
  let t0 := mkTask None None None None [] None name
              (float_one, float_one, float_one) TsInvalid isContinuation in
  (* s_instanceCount++ *)
  let h1 := with_instanceCount (wrap32 (s_instanceCount h + 1)) h in
  let t1 := match color with
            | Some c => with_debugColor c t0
            | None => with_debugColor (float_one, float_one, float_one) t0
            end in
  let '(t2, cs) := reset t1 (chans h1) in
  (t2, with_chans cs h1).

(* std::make_shared<Task<T>>(name, color, isContinuation): the new object
   is owned by the one shared_ptr that is returned. *)
Definition make_shared_Task (name : string) (color : option Color)
    (isContinuation : bool) (h : Heap) : task_id * Heap :=
  let '(t, h1) := Task_ctor name color isContinuation h in
  (length (tasks h1), with_tasks (tasks h1 ++ [Some (mkManaged t 1)]) h1).

(* The condition asserted by ~Task. *)
Definition dtor_check (s : TaskStatus) : bool :=
  negb (bool_decide (s = TsPending))
  || negb (bool_decide (s = TsScheduledOnce))
  || negb (bool_decide (s = TsScheduledPolling)).

(* The body of Task<T>::~Task *)
Definition Task_dtor (t : Task) (h : Heap) : Result Heap :=
  if dtor_check (m_status t)
  then Ok (with_instanceCount (wrap32 (s_instanceCount h - 1)) h)
  else Abort AssertDestroyStatus.

(* Dropping one shared_ptr to [n].  The last owner destroys the object:
   the destructor body runs, then the members are destroyed, which drops
   the dependencies and the promise. *)
Fixpoint release (fuel : nat) (n : task_id) (h : Heap) : Result Heap :=
  match fuel with
  | O => OutOfFuel
  | S fuel' =>
      match tasks h !! n with
      | Some (Some e) =>
          match use_count e with
          | S (S k) =>
              Ok (with_tasks (<[n := Some (mkManaged (object e) (S k))]> (tasks h)) h)
          | _ =>
              let t := object e in
              perform h1 := Task_dtor t (with_tasks (<[n := None]> (tasks h)) h) in
              perform h2 := foldM (release fuel') (m_dependencies t) h1 in
              Ok (with_chans (abandon (m_promise t) (chans h2)) h2)
          end
      | _ => Undefined
      end
  end.

(* A member function of the object at [n] that works on its own members
   and on the shared states. *)
Definition method (n : task_id)
    (m : Task -> list SharedState -> Task * list SharedState) (h : Heap) : Result Heap :=
  perform t := deref n h in
  let '(t', cs) := m t (chans h) in
  Ok (with_chans cs (store n t' h)).

Definition getStatus (t : Task) : TaskStatus := m_status t.

(* Task<T>::setStatus *)
Definition setStatus (status : TaskStatus) (t : Task) (cs : list SharedState)
  : Task * list SharedState :=
  if bool_decide (m_status t = TsDone) && negb (bool_decide (status = TsDone))
  then let '(t', cs') := reset t cs in (with_status status t', cs')
  else (with_status status t, cs).



Definition isContinuation (t : Task) : bool := m_isContinuation t.

Definition getDependencies (t : Task) : list task_id := m_dependencies t.

(* Task<T>::getTimeIntervalCollector(collector) *)
Definition getTimeIntervalCollector (collector : option nat) (t : Task) : option nat :=
  m_collector t.

(* Task<T>::setTimeIntervalCollector(collector) *)
Definition setTimeIntervalCollector (collector : option nat) (t : Task) : Task :=
  with_collector collector t.

Definition getDebugColor (t : Task) : Color := m_debugColor t.

Definition setDebugColor (color : Color) (t : Task) : Task :=
  with_debugColor (color.1.1, color.1.2, color.2) t.

Definition getFunction (t : Task) : option (list Op) := m_function t.

Definition setFunction (f : option (list Op)) (t : Task) : Task :=
  with_function f t.

Definition moveFunction (f : option (list Op)) (t : Task) : Task :=
  with_function f t.

Definition getContinuation (t : Task) : option task_id := m_continuation t.

(* Task<T>::setContinuation(c); [c = None] is a null shared_ptr *)
Definition setContinuation (c : option task_id) (t : Task) : Task :=
  with_continuation c t.

Definition getPromise (t : Task) : option chan_id := m_promise t.

Definition getFuture (t : Task) : option chan_id := m_future t.

(** ** Dependencies *)

(* addDependencies(const std::vector<std::shared_ptr<U>>& deps):
   the handles are copied to the end of m_dependencies. *)
Definition addDependencies (n : task_id) (deps : list task_id) (h : Heap) : Result Heap :=
  perform t := deref n h in
  Ok (store n (with_dependencies (m_dependencies t ++ deps) t) (foldr acquire h deps)).

(* addDependencies(d0, dn...) and the overload without arguments that ends
   the recursion over the parameter pack. *)
Fixpoint addDependencies_pack (n : task_id) (args : list task_id) (h : Heap) : Result Heap :=
  match args with
  | [] => perform _t := deref n h in Ok h
  | d0 :: dn =>
      perform t := deref n h in
      (* m_dependencies.push_back(d0) *)
      let h1 := store n (with_dependencies (m_dependencies t ++ [d0]) t) (acquire d0 h) in
      addDependencies_pack n dn h1
  end.

(** ** Task functions *)

(** Modelled from the spec: [trySetFuncResult] of TaskUtils.h, which is not
    part of the sources at hand.  The callable is called with the result of
    the preceding task when it takes an argument and without an argument
    otherwise; what it returns, or the unit value when it returns nothing,
    is written to the promise.  A future that holds no value makes the
    call block or leave by the exception stored in it.  [owner] is the task
    the promise belongs to and is used for the ghost event only. *)
Definition trySetFuncResult (owner : task_id) (p : option chan_id) (f : Callable)
    (fut : option chan_id) (h : Heap) : Result Heap :=
  match f with
  | FnOfArg g =>
      perform x := future_get fut (chans h) in
      perform cs := set_value p (g x) (chans h) in
      Ok (with_chans cs (log (EvCallable owner (Some x)) h))
  | FnNoArg r =>
      perform cs := set_value p r (chans h) in
      Ok (with_chans cs (log (EvCallable owner None) h))
  | FnVoidOfArg =>
      perform x := future_get fut (chans h) in
      perform cs := set_value p UnitValue (chans h) in
      Ok (with_chans cs (log (EvCallable owner (Some x)) h))
  | FnVoidNoArg =>
      perform cs := set_value p UnitValue (chans h) in
      Ok (with_chans cs (log (EvCallable owner None) h))
  end.

(** Modelled from the spec: [ScopedTimeInterval] of TimeIntervalCollector.h,
    which is not part of the sources at hand.  It opens an interval tagged
    with the name and colour of the task at the collector when one is set,
    and closes it when the scope is left. *)
Definition scope_begin (collector : option nat) (name : string) (color : Color)
    (h : Heap) : Heap :=
  match collector with
  | Some c => log (EvIntervalBegin c name color) h
  | None => h
  end.

Definition scope_end (collector : option nat) (h : Heap) : Heap :=
  match collector with
  | Some c => log (EvIntervalEnd c) h
  | None => h
  end.

(** ** Chaining *)

(* The lambda [then] stores in the new task [t]. *)
Definition then_function (this t : task_id) (f : Callable) : list Op :=
  [OpTrySetFuncResult t f this; OpSetStatus t TsDone].

(* Task<T>::then(f, name, color), called on the object at [this].
   shared_from_this() yields a temporary handle that addDependencies copies
   into the vector of [t] before it is dropped: one more owner of [this]. *)
Definition then_ (this : task_id) (f : Callable) (name : string)
    (color : option Color) (h : Heap) : Result (task_id * Heap) :=
  perform _this := deref this h in
  let '(t, h1) := make_shared_Task name color true h in
  perform h2 := method t (fun o cs => (moveFunction (Some (then_function this t f)) o, cs)) h1 in
  perform h3 := addDependencies_pack t [this] h2 in
  (* m_continuation = t *)
  perform h4 := method this (fun o cs => (with_continuation (Some t) o, cs)) h3 in
  Ok (t, h4).

(** ** Client code and invocation *)

(* One call of client code; [inv] and [rel] are operator() and the
   destruction of a handle. *)
Definition run_op (inv rel : task_id -> Heap -> Result Heap) (op : Op) (h : Heap)
  : Result Heap :=
  match op with
  | OpMakeShared name color isCont => Ok (make_shared_Task name color isCont h).2
  | OpCopyHandle n => perform _t := deref n h in Ok (acquire n h)
  | OpDropHandle n => rel n h
  | OpInvoke n => inv n h
  | OpThen n f name color => perform r := then_ n f name color h in Ok r.2
  | OpSetStatus n s => method n (setStatus s) h
  | OpReset n => method n reset h
  | OpSetFunction n f => method n (fun o cs => (setFunction f o, cs)) h
  | OpSetContinuation n c => method n (fun o cs => (setContinuation c o, cs)) h
  | OpAddDependencies n deps => addDependencies n deps h
  | OpAddDependenciesPack n deps => addDependencies_pack n deps h
  | OpSetTimeIntervalCollector n c =>
      method n (fun o cs => (setTimeIntervalCollector c o, cs)) h
  | OpSetDebugColor n c => method n (fun o cs => (setDebugColor c o, cs)) h
  | OpSetValue n v =>
      perform t := deref n h in
      perform cs := set_value (getPromise t) v (chans h) in
      Ok (with_chans cs h)
  | OpGetFuture n =>
      perform t := deref n h in
      perform _v := future_get (getFuture t) (chans h) in
      Ok h
  | OpTrySetFuncResult tref f this =>
      perform tt := deref tref h in
      perform tn := deref this h in
      trySetFuncResult tref (getPromise tt) f (m_future tn) h
  end.

(* Task<T>::operator()().  The fuel bounds the depth of the calls of
   operator() inside one another. *)
Fixpoint invoke (fuel : nat) (n : task_id) (h : Heap) : Result Heap :=
  match fuel with
  | O => OutOfFuel
  | S fuel' =>
      perform t := deref n h in
      match m_function t with
      | None => Abort AssertFunction
      | Some body =>
          let h1 := scope_begin (m_collector t) (m_name t) (m_debugColor t) h in
          perform h2 := foldM (run_op (invoke fuel') (release fuel')) body
                          (log (EvFunction n) h1) in
          let h3 := scope_end (m_collector t) h2 in
          perform t' := deref n h3 in
          if bool_decide (m_status t' = TsInvalid) then Abort AssertStatusNotInvalid
          else if bool_decide (m_status t' = TsDone)
                  && negb (expired (m_continuation t') h3)
          then
            match lock (m_continuation t') h3 with
            | Some c =>
                perform h4 := invoke fuel' c (acquire c h3) in
                release fuel' c h4
            | None => Abort AssertFalse
            end
          else Ok h3
      end
  end.

Definition exec_op (fuel : nat) : Op -> Heap -> Result Heap :=
  run_op (invoke fuel) (release fuel).

(* A client program, and the body of a std::function<void()> when it is
   called. *)
Definition exec (fuel : nat) (prog : list Op) (h : Heap) : Result Heap :=
  foldM (exec_op fuel) prog h.

Definition run_body (fuel : nat) (body : list Op) (h : Heap) : Result Heap :=
  exec fuel body h.

(** ** Notions used to state the properties *)

(* The continuation stage of operator(), entered once the status
   assertion has passed. *)
Definition fire_continuation (fuel : nat) (t' : Task) (h3 : Heap) : Result Heap :=
  if bool_decide (m_status t' = TsDone) && negb (expired (m_continuation t') h3)
  then
    match lock (m_continuation t') h3 with
    | Some c =>
        perform h4 := invoke fuel c (acquire c h3) in
        release fuel c h4
    | None => Abort AssertFalse
    end
  else Ok h3.

(* The heap at the point where operator() has called the function of the
   task [t] at [n] and left the profiling scope. *)
Definition function_stage (fuel : nat) (n : task_id) (t : Task) (body : list Op)
    (h : Heap) : Result Heap :=
  perform h2 := run_body fuel body
                  (log (EvFunction n)
                     (scope_begin (m_collector t) (m_name t) (m_debugColor t) h)) in
  Ok (scope_end (m_collector t) h2).

Definition is_function_event (n : task_id) (e : Event) : bool :=
  match e with
  | EvFunction m => bool_decide (m = n)
  | _ => false
  end.

(* How often the function of the task at [n] has been called. *)
Definition function_calls (n : task_id) (tr : list Event) : nat :=
  length (filter (fun e => is_function_event n e = true) tr).

(* Only operator() itself records a call of a task function. *)
Definition same_function_calls (h h' : Heap) : Prop :=
  forall n, function_calls n (trace h') = function_calls n (trace h).

(* A call that fails no assertion. *)
Definition never_aborts {A} (r : Result A) : Prop := forall a, r <> Abort a.

(* Client code that does not call operator(). *)
Definition invokes_nothing (op : Op) : bool :=
  match op with
  | OpInvoke _ => false
  | _ => true
  end.

(* The events of the profiling scope of a task. *)
Definition begin_events (t : Task) : list Event :=
  match m_collector t with
  | Some c => [EvIntervalBegin c (m_name t) (m_debugColor t)]
  | None => []
  end.

Definition end_events (t : Task) : list Event :=
  match m_collector t with
  | Some c => [EvIntervalEnd c]
  | None => []
  end.

(* The function a task is given when it is created to produce [v]. *)
Definition produce_function (n : task_id) (v : V) : list Op :=
  [OpSetValue n v; OpSetStatus n TsDone].

(* Every live task has a promise and a future on one shared state, which
   has been allocated and is the promise of no other live task. *)
Definition well_formed (h : Heap) : Prop :=
  forall n t, lookup_task n h = Some t ->
    m_future t = m_promise t
    /\ (exists p, m_promise t = Some p /\ p < length (chans h))
    /\ (forall m t', lookup_task m h = Some t' -> m_promise t' = m_promise t -> m = n).

(* The task that can write the shared state [c]. *)
Definition owner (c : chan_id) (h : Heap) : Prop :=
  exists n t, lookup_task n h = Some t /\ m_promise t = Some c.

(* How the promises and the shared states of a well-formed heap change:
   a live task keeps its promise or gets a fresh one, and a shared state
   changes only when a live task has it as its promise. *)
Definition evolves (h h' : Heap) : Prop :=
  well_formed h ->
    well_formed h'
    /\ length (chans h) <= length (chans h')
    /\ (forall n t', lookup_task n h' = Some t' ->
          (exists t, lookup_task n h = Some t /\ m_promise t' = m_promise t)
          \/ (exists p, m_promise t' = Some p /\ length (chans h) <= p))
    /\ (forall c, c < length (chans h) ->
          chans h' !! c = chans h !! c \/ owner c h).

(* What the future of the task at [n] holds. *)
Definition future_state (n : task_id) (h : Heap) : option SharedState :=
  match lookup_task n h with
  | Some t => observe (getFuture t) (chans h)
  | None => None
  end.

(* The number of objects that have been constructed and not destroyed. *)
Definition live (ts : list (option Managed)) : nat :=
  length (filter (fun e : option Managed => is_Some e) ts).

Definition live_count (h : Heap) : nat := live (tasks h).

(* The members of a task when its constructor returns; [p] is the shared
   state its first reset allocated. *)
Definition default_color (color : option Color) : Color :=
  match color with
  | Some c => c
  | None => (float_one, float_one, float_one)
  end.

Definition new_task (name : string) (color : option Color) (isCont : bool)
    (p : chan_id) : Task :=
  mkTask None (Some p) (Some p) None [] None name (default_color color) TsInvalid isCont.

Definition live_at (ts : list (option Managed)) (n : task_id) : bool :=
  match ts !! n with
  | Some (Some _) => true
  | _ => false
  end.

(* The counter and the number of live objects move together, and the
   counter is only changed by unsigned arithmetic. *)
Definition same_balance (h h' : Heap) : Prop :=
  wrap32 (s_instanceCount h' - Z.of_nat (live_count h'))
  = wrap32 (s_instanceCount h - Z.of_nat (live_count h))
  /\ (s_instanceCount h' = s_instanceCount h
      \/ (0 <= s_instanceCount h' < 2 ^ 32)%Z).

(* The value handed on by a callable for the input [x]. *)
Definition callable_result (f : Callable) (x : V) : V :=
  match f with
  | FnOfArg g => g x
  | FnNoArg r => r
  | FnVoidOfArg | FnVoidNoArg => UnitValue
  end.

(* The argument a callable is called with when the input is [x]. *)
Definition callable_arg (f : Callable) (x : V) : option V :=
  match f with
  | FnOfArg _ | FnVoidOfArg => Some x
  | FnNoArg _ | FnVoidNoArg => None
  end.

(* The calls [then(f1); then(f2); ...] on the same task, with the handles
   they return. *)
Fixpoint then_all (this : task_id) (fs : list (Callable * string * option Color))
    (h : Heap) : Result (list task_id * Heap) :=
  match fs with
  | [] => Ok ([], h)
  | (f, name, color) :: fs' =>
      perform r := then_ this f name color h in
      perform rs := then_all this fs' r.2 in
      Ok (r.1 :: rs.1, rs.2)
  end.

(* The continuations chained behind the task at [P] that are ready to be
   fired: each was created by [then] on its predecessor with the callable
   given, is owned by some handle, and has not run; the last one has no
   live continuation. *)
Fixpoint armed (h : Heap) (P : task_id) (ms : list (task_id * Callable)) : Prop :=
  match ms with
  | [] =>
      exists tP, lookup_task P h = Some tP /\ expired (m_continuation tP) h = true
  | (M, f) :: rest =>
      exists tP tM pM,
        lookup_task P h = Some tP
        /\ m_continuation tP = Some M
        /\ lookup_task M h = Some tM
        /\ m_function tM = Some (then_function P M f)
        /\ m_promise tM = Some pM
        /\ chans h !! pM = Some Unfulfilled
        /\ 0 < strong_count M h
        /\ armed h M rest
  end.

(* The events of a chain that is fired with the input [v]. *)
Fixpoint chain_events (h : Heap) (v : V) (ms : list (task_id * Callable))
  : list Event :=
  match ms with
  | [] => []
  | (M, f) :: rest =>
      match lookup_task M h with
      | Some tM =>
          begin_events tM ++ [EvFunction M; EvCallable M (callable_arg f v)]
            ++ end_events tM
      | None => []
      end ++ chain_events h (callable_result f v) rest
  end.

(* Every task of the chain is done in [h'], with the result of its
   callable in its shared state. *)
Fixpoint chain_done (h h' : Heap) (v : V) (ms : list (task_id * Callable)) : Prop :=
  match ms with
  | [] => True
  | (M, f) :: rest =>
      (exists tM,
          lookup_task M h = Some tM
          /\ lookup_task M h' = Some (with_status TsDone tM)
          /\ observe (m_promise tM) (chans h') = Some (Ready (callable_result f v)))
      /\ chain_done h h' (callable_result f v) rest
  end.

(* The heap [h'] is [h] after the chain [ms] has been fired with [v]. *)
Definition completed (h h' : Heap) (v : V) (ms : list (task_id * Callable)) : Prop :=
  (forall k, k ∉ (fst <$> ms) -> lookup_task k h' = lookup_task k h)
  /\ (forall k, strong_count k h' = strong_count k h)
  /\ s_instanceCount h' = s_instanceCount h
  /\ length (chans h') = length (chans h)
  /\ (forall c,
        (forall k t, k ∈ (fst <$> ms) -> lookup_task k h = Some t ->
                     m_promise t <> Some c) ->
        chans h' !! c = chans h !! c)
  /\ trace h' = trace h ++ chain_events h v ms
  /\ chain_done h h' v ms.

(** ** Ownership *)

(* How often the handle [k] occurs in a vector of handles. *)
Definition occurrences (k : task_id) (l : list task_id) : nat :=
  length (filter (fun d => d = k) l).

(* The handles on [k] in the dependency vector of an object. *)
Definition held (k : task_id) (o : option Task) : nat :=
  match o with
  | Some t => occurrences k (m_dependencies t)
  | None => 0
  end.

(* The handles on [k] that the dependency vectors of the live tasks hold. *)
Definition dep_refs (k : task_id) (h : Heap) : nat :=
  sum_list ((fun n => held k (lookup_task n h)) <$> seq 0 (length (tasks h))).

(* Every handle held in a dependency vector is counted by the control
   block of its target; what the count has beyond them are the handles of
   the clients. *)
Definition ref_sound (h : Heap) : Prop :=
  forall k, dep_refs k h <= strong_count k h.

(* The handles on [k] still to be dropped are counted as well. *)
Definition ref_sound_pending (h : Heap) (pending : list task_id) : Prop :=
  forall k, dep_refs k h + occurrences k pending <= strong_count k h.

(* The tasks that are live in [h'] are tasks of [h], unchanged. *)
Definition survivors (h h' : Heap) : Prop :=
  forall k t, lookup_task k h' = Some t -> lookup_task k h = Some t.

(* A set of tasks each of which is a dependency of a live task of the
   set: the tasks on cycles of the dependency graph, and those they own. *)
Definition self_supporting (ks : list task_id) (h : Heap) : Prop :=
  forall s, s ∈ ks ->
    exists s' t', s' ∈ ks /\ lookup_task s' h = Some t' /\ s ∈ m_dependencies t'.

(* A chain of tasks each owned by the one before it alone: [top] holds
   the only handle on the first task of [below], which holds the only
   handle on the second, and so on; the last task has no dependencies. *)
Fixpoint owned_chain (h : Heap) (top : task_id) (below : list task_id) : Prop :=
  exists t,
    lookup_task top h = Some t
    /\ match below with
       | [] => m_dependencies t = []
       | d :: rest =>
           m_dependencies t = [d] /\ strong_count d h = 1 /\ owned_chain h d rest
       end.

(** ** Kinds of client code *)

(* Client code that destroys no handle. *)
Definition drops_nothing (op : Op) : bool :=
  match op with
  | OpDropHandle _ => false
  | _ => true
  end.

(* The handles passed to [addDependencies] refer to live tasks, as every
   shared_ptr that is not null does. *)
Definition handles_alive (op : Op) (h : Heap) : Prop :=
  match op with
  | OpAddDependencies _ deps | OpAddDependenciesPack _ deps =>
      Forall (fun d => alive d h = true) deps
  | _ => True
  end.

(* Client code that calls no task, destroys no handle and leaves the
   function and the continuation of every task as they are. *)
Definition keeps_wiring (op : Op) : bool :=
  match op with
  | OpDropHandle _ | OpInvoke _ | OpThen _ _ _ _
  | OpSetFunction _ _ | OpSetContinuation _ _ => false
  | _ => true
  end.

(* Client code that calls no task, rewires nothing and does not set the
   status of the task at [n]. *)
Definition leaves_status (n : task_id) (op : Op) : bool :=
  keeps_wiring op
  && match op with
     | OpSetStatus m _ => negb (bool_decide (m = n))
     | _ => true
     end.

(* Client code that destroys no handle, neither itself nor in a function
   it gives to a task. *)
Fixpoint drop_free (op : Op) : bool :=
  match op with
  | OpDropHandle _ => false
  | OpSetFunction _ (Some body) => forallb drop_free body
  | _ => true
  end.

(** ** What a run of client code keeps *)

(* The task at [n] is live with the function and the continuation given. *)
Definition wired (n : task_id) (body : option (list Op)) (c : option task_id)
    (h : Heap) : Prop :=
  exists t, lookup_task n h = Some t /\ m_function t = body /\ m_continuation t = c.

(* No function stored in a task destroys a handle, and every live task
   has an owner. *)
Definition keeps_handles (h : Heap) : Prop :=
  (forall n t body, lookup_task n h = Some t -> m_function t = Some body ->
     forallb drop_free body = true)
  /\ (forall n, alive n h = true -> 0 < strong_count n h).

(* From [h] to [h'] no use count has gone down. *)
Definition nothing_released (h h' : Heap) : Prop :=
  keeps_handles h ->
    keeps_handles h' /\ (forall k, strong_count k h <= strong_count k h').

(* No function stored in a task calls a task, destroys a handle or
   changes a function or a continuation. *)
Definition quiet_functions (h : Heap) : Prop :=
  forall n t body, lookup_task n h = Some t -> m_function t = Some body ->
    forallb keeps_wiring body = true.

(* Following the continuation references from the task at [n] ends within
   [k] tasks, at a task without continuation or at a destroyed one. *)
Fixpoint ends_within (k : nat) (h : Heap) (n : task_id) : Prop :=
  match k with
  | O => False
  | S k' =>
      match lookup_task n h with
      | None => True
      | Some t =>
          match m_continuation t with
          | None => True
          | Some c => ends_within k' h c
          end
      end
  end.

(* From [h] to [h'] the live tasks keep their function and their
   continuation, and a task that has appeared has neither. *)
Definition rewires_nothing (h h' : Heap) : Prop :=
  (forall n body c, wired n body c h -> wired n body c h')
  /\ (forall n t', lookup_task n h' = Some t' ->
        alive n h = true \/ (m_function t' = None /\ m_continuation t' = None)).

(* From [h] to [h'] the store has only grown, and a task that was there
   has the name and the continuation flag it had. *)
Definition same_identity (h h' : Heap) : Prop :=
  length (tasks h) <= length (tasks h')
  /\ forall n t', lookup_task n h' = Some t' ->
       (exists t, lookup_task n h = Some t
                  /\ m_name t' = m_name t
                  /\ m_isContinuation t' = m_isContinuation t)
       \/ length (tasks h) <= n.

(* From [h] to [h'] every shared state that holds a value holds it
   still. *)
Definition keeps_values (h h' : Heap) : Prop :=
  forall c v, chans h !! c = Some (Ready v) -> chans h' !! c = Some (Ready v).

(** ** The scenarios of the specification

    The heaps of the scenarios, for any results [v] and callables [f], [g]. *)

Definition empty_heap : Heap := mkHeap [] [] 0 [].

(* The heap a client program leaves when it is run from the empty heap. *)
Definition built_by (prog : list Op) : Heap :=
  match exec 8 prog empty_heap with
  | Ok h => h
  | _ => empty_heap
  end.

(* The heap a call has returned, when it has. *)
Definition returned (r : Result Heap) : Heap :=
  match r with
  | Ok h => h
  | _ => empty_heap
  end.

(* A: a task whose function computes [v]. *)
Definition make_A (v : V) : list Op :=
  [OpMakeShared "A" None false; OpSetFunction 0 (Some (produce_function 0 v))].

Definition heap_A (v : V) : Heap := Eval vm_compute in built_by (make_A v).

Definition task_A (v : V) : Task :=
  with_function (Some (produce_function 0 v)) (new_task "A" None false 0).

(* A, chained into B, and the handle of B dropped. *)
Definition heap_dangling (v : V) (f : Callable) : Heap :=
  Eval vm_compute in built_by (make_A v ++ [OpThen 0 f "B" None; OpDropHandle 1]).

Definition task_A_dangling (v : V) : Task := with_continuation (Some 1) (task_A v).

(* A, chained into B, chained into C. *)
Definition make_chain (v : V) (f g : Callable) : list Op :=
  make_A v ++ [OpThen 0 f "B" None; OpThen 1 g "C" None].

Definition heap_chain (v : V) (f g : Callable) : Heap :=
  Eval vm_compute in built_by (make_chain v f g).

Definition task_A_chain (v : V) : Task := with_continuation (Some 1) (task_A v).

(* The chain when the function of A has returned. *)
Definition heap_chain_stage (v : V) (f g : Callable) : Heap :=
  Eval vm_compute in
  returned (function_stage 2 0 (task_A_chain v) (produce_function 0 v)
              (heap_chain v f g)).

(* C: a task without a function, set pending by its creator. *)
Definition heap_C : Heap :=
  Eval vm_compute in built_by [OpMakeShared "C" None false; OpSetStatus 0 TsPending].

Definition task_C : Task := with_status TsPending (new_task "C" None false 0).

(* D: a task that has completed with [v]. *)
Definition make_D (v : V) : list Op :=
  [OpMakeShared "D" (Some (0, 0, 0)%Z) false;
   OpSetFunction 0 (Some (produce_function 0 v));
   OpInvoke 0].



(* E: a pending task whose function sets it invalid. *)
Definition heap_E : Heap :=
  Eval vm_compute in
  built_by [OpMakeShared "E" None false;
            OpSetFunction 0 (Some [OpSetStatus 0 TsInvalid]);
            OpSetStatus 0 TsPending].

Definition task_E : Task :=
  with_status TsPending
    (with_function (Some [OpSetStatus 0 TsInvalid]) (new_task "E" None false 0)).

(* F: a pending task with a profiling collector and a function that
   produces nothing. *)
Definition heap_F : Heap :=
  Eval vm_compute in
  built_by [OpMakeShared "F" None false;
            OpSetFunction 0 (Some []);
            OpSetTimeIntervalCollector 0 (Some 7);
            OpSetStatus 0 TsPending].

Definition task_F : Task :=
  with_status TsPending
    (with_collector (Some 7) (with_function (Some []) (new_task "F" None false 0))).

(* A, chained into B, both handles held. *)
Definition heap_AB (v : V) (f : Callable) : Heap :=
  Eval vm_compute in built_by (make_A v ++ [OpThen 0 f "B" None]).

(* A, B and C chained, and the handles of A and B dropped: the client
   holds C only. *)
Definition heap_chain_held (v : V) (f g : Callable) : Heap :=
  Eval vm_compute in
  built_by (make_chain v f g ++ [OpDropHandle 0; OpDropHandle 1]).

(* G: a task that was added to its own dependencies. *)
Definition heap_G : Heap :=
  Eval vm_compute in
  built_by [OpMakeShared "G" None false; OpAddDependencies 0 [0]].

(* H: a new task whose function sets a colour and no status. *)
Definition heap_H : Heap :=
  Eval vm_compute in
  built_by [OpMakeShared "H" None false;
            OpSetFunction 0 (Some [OpSetDebugColor 0 (0, 0, 0)%Z])].

Definition task_H : Task :=
  with_function (Some [OpSetDebugColor 0 (0, 0, 0)%Z]) (new_task "H" None false 0).




(** * Properties *)

(** ** The object store *)

Lemma lookup_task_with_chans n cs h : lookup_task n (with_chans cs h) = lookup_task n h.
Proof. reflexivity. Qed.

Lemma lookup_task_log n e h : lookup_task n (log e h) = lookup_task n h.
Proof. reflexivity. Qed.

Lemma lookup_task_with_instanceCount n c h :
  lookup_task n (with_instanceCount c h) = lookup_task n h.
Proof. reflexivity. Qed.

Lemma lookup_task_scope_begin n c name color h :
  lookup_task n (scope_begin c name color h) = lookup_task n h.
Proof. by destruct c. Qed.

Lemma lookup_task_scope_end n c h : lookup_task n (scope_end c h) = lookup_task n h.
Proof. by destruct c. Qed.

Lemma lookup_task_store_eq n t t0 h :
  lookup_task n h = Some t0 -> lookup_task n (store n t h) = Some t.
Proof.
  unfold lookup_task, store. simpl. rewrite list_lookup_alter_eq.
  destruct (tasks h !! n) as [[e|]|]; simpl; congruence.
Qed.

Lemma lookup_task_store_ne n m t h :
  n <> m -> lookup_task m (store n t h) = lookup_task m h.
Proof.
  intros Hne. unfold lookup_task, store. simpl.
  by rewrite list_lookup_alter_ne.
Qed.

Lemma lookup_task_acquire n m h :
  lookup_task m (acquire n h) = lookup_task m h.
Proof.
  unfold lookup_task, acquire. simpl. destruct (decide (n = m)) as [->|Hne].
  - rewrite list_lookup_alter_eq. by destruct (tasks h !! m) as [[e|]|].
  - by rewrite list_lookup_alter_ne.
Qed.

Lemma lookup_task_foldr_acquire ds m h :
  lookup_task m (foldr acquire h ds) = lookup_task m h.
Proof.
  induction ds as [|d ds IH]; simpl; [done|]. by rewrite lookup_task_acquire.
Qed.

Lemma strong_count_store n m t h :
  strong_count m (store n t h) = strong_count m h.
Proof.
  unfold strong_count, store. simpl. destruct (decide (n = m)) as [->|Hne].
  - rewrite list_lookup_alter_eq. by destruct (tasks h !! m) as [[e|]|].
  - by rewrite list_lookup_alter_ne.
Qed.

Lemma strong_count_acquire_eq n t h :
  lookup_task n h = Some t -> strong_count n (acquire n h) = S (strong_count n h).
Proof.
  unfold lookup_task, strong_count, acquire. simpl. rewrite list_lookup_alter_eq.
  by destruct (tasks h !! n) as [[e|]|].
Qed.

Lemma strong_count_acquire_ne n m h :
  n <> m -> strong_count m (acquire n h) = strong_count m h.
Proof.
  intros Hne. unfold strong_count, acquire. simpl. by rewrite list_lookup_alter_ne.
Qed.

Lemma lookup_task_lt n t h : lookup_task n h = Some t -> n < length (tasks h).
Proof.
  unfold lookup_task. destruct (tasks h !! n) as [o|] eqn:E; [|done].
  intros _. by eapply lookup_lt_Some.
Qed.

Lemma deref_Some n t h : lookup_task n h = Some t -> deref n h = Ok t.
Proof. unfold deref. by intros ->. Qed.

Lemma alive_Some n t h : lookup_task n h = Some t -> alive n h = true.
Proof. unfold alive. by intros ->. Qed.

#[local] Arguments lookup_task : simpl never.
#[local] Arguments store : simpl never.
#[local] Arguments acquire : simpl never.
#[local] Arguments strong_count : simpl never.

Create Rewrite HintDb heap.

#[local] Hint Rewrite lookup_task_with_chans lookup_task_log
  lookup_task_with_instanceCount lookup_task_scope_begin lookup_task_scope_end
  lookup_task_acquire lookup_task_foldr_acquire : heap.

Lemma method_Some n m t h :
  lookup_task n h = Some t ->
  method n m h = Ok (with_chans (m t (chans h)).2 (store n (m t (chans h)).1 h)).
Proof.
  intros Hn. unfold method. rewrite (deref_Some _ _ _ Hn). simpl.
  by destruct (m t (chans h)).
Qed.

(** ** The profiling collector (C10) *)

(** C10: [getTimeIntervalCollector] returns the collector stored by the most
    recent [setTimeIntervalCollector], whatever collector it is passed
    itself; on a task that was just constructed it returns the null
    collector. *)
Theorem getTimeIntervalCollector_returns_stored :
  (forall (cs : list (option nat)) (c x : option nat) (t : Task),
      getTimeIntervalCollector x
        (foldl (fun o c' => setTimeIntervalCollector c' o) t (cs ++ [c])) = c)
  /\ (forall (x : option nat) name color isCont (h : Heap),
      getTimeIntervalCollector x (Task_ctor name color isCont h).1 = None)
  /\ (forall (n : task_id) (c x : option nat) (t : Task) (h : Heap),
      lookup_task n h = Some t ->
      exists h',
        exec_op 0 (OpSetTimeIntervalCollector n c) h = Ok h'
        /\ (getTimeIntervalCollector x <$> lookup_task n h') = Some c).
Proof.
  split; [|split].
  - intros cs c x t. by rewrite foldl_app.
  - intros x name color isCont h. by destruct color.
  - intros n c x t h Hn. eexists. split.
    + simpl. by rewrite (method_Some _ _ _ _ Hn).
    + simpl. autorewrite with heap.
      by rewrite (lookup_task_store_eq _ _ _ _ Hn).
Qed.

(** ** Dependency registration (C9) *)

Lemma addDependencies_pack_spec args : forall n t h,
  lookup_task n h = Some t ->
  exists h',
    addDependencies_pack n args h = Ok h'
    /\ lookup_task n h' = Some (with_dependencies (m_dependencies t ++ args) t)
    /\ (forall m, m <> n -> lookup_task m h' = lookup_task m h)
    /\ chans h' = chans h
    /\ trace h' = trace h
    /\ s_instanceCount h' = s_instanceCount h
    /\ length (tasks h') = length (tasks h).
Proof.
  induction args as [|d0 dn IH]; intros n t h Hn; simpl.
  - rewrite (deref_Some _ _ _ Hn). simpl. exists h. rewrite app_nil_r.
    destruct t; simpl; eauto 10.
  - rewrite (deref_Some _ _ _ Hn). simpl.
    set (t1 := with_dependencies (m_dependencies t ++ [d0]) t).
    set (h1 := store n t1 (acquire d0 h)).
    assert (Hn1 : lookup_task n h1 = Some t1).
    { apply lookup_task_store_eq with t. by rewrite lookup_task_acquire. }
    destruct (IH n t1 h1 Hn1) as (h' & Hrun & Hl & Hother & Hc & Htr & Hic & Hlen).
    exists h'. split; [done|]. split.
    { rewrite Hl. unfold t1. simpl. by rewrite <- app_assoc. }
    split.
    { intros m Hm. rewrite (Hother m Hm). unfold h1.
      rewrite lookup_task_store_ne by done. apply lookup_task_acquire. }
    rewrite Hc, Htr, Hic, Hlen. unfold h1, store, acquire. simpl.
    by rewrite !length_alter.
Qed.

(** C9: both forms of [addDependencies] append the given handles, in
    argument order, to the end of the dependency list and keep what was
    there; without arguments the list and the heap stay as they are. *)
Theorem addDependencies_appends (n : task_id) (t : Task) (h : Heap)
    (deps : list task_id) :
  lookup_task n h = Some t ->
  (exists h',
      addDependencies n deps h = Ok h'
      /\ (getDependencies <$> lookup_task n h') = Some (getDependencies t ++ deps))
  /\ (exists h',
      addDependencies_pack n deps h = Ok h'
      /\ (getDependencies <$> lookup_task n h') = Some (getDependencies t ++ deps))
  /\ addDependencies_pack n [] h = Ok h.
Proof.
  intros Hn. split; [|split].
  - eexists. split.
    + unfold addDependencies. by rewrite (deref_Some _ _ _ Hn).
    + erewrite lookup_task_store_eq; [done|].
      rewrite lookup_task_foldr_acquire. exact Hn.
  - destruct (addDependencies_pack_spec deps n t h Hn) as (h' & Hrun & Hl & _).
    exists h'. split; [done|]. by rewrite Hl.
  - simpl. by rewrite (deref_Some _ _ _ Hn).
Qed.

(** ** The destructor (C2) *)

(** C2: the condition asserted by [~Task] is a disjunction of three
    inequalities on the same status, which holds for every status: the
    destructor body never aborts, also for a task that is pending or
    scheduled. *)
Theorem dtor_check_never_fails (t : Task) (h : Heap) :
  dtor_check (m_status t) = true
  /\ Task_dtor t h = Ok (with_instanceCount (wrap32 (s_instanceCount h - 1)) h).
Proof.
  assert (H : dtor_check (m_status t) = true) by (by destruct (m_status t)).
  split; [done|]. unfold Task_dtor. by rewrite H.
Qed.

(** ** Sequencing *)

Lemma bind_Ok_inv {A B} (r : Result A) (k : A -> Result B) (b : B) :
  bind r k = Ok b -> exists a, r = Ok a /\ k a = Ok b.
Proof. destruct r; simpl; try discriminate. eauto. Qed.

Ltac bind_inv H :=
  let a := fresh "a" in
  let Ha := fresh "Ha" in
  apply bind_Ok_inv in H; destruct H as (a & Ha & H); cbv beta in H.

Lemma deref_Ok_inv n t h : deref n h = Ok t -> lookup_task n h = Some t.
Proof. unfold deref. destruct (lookup_task n h); congruence. Qed.

Lemma foldM_preserves {A B} (R : A -> A -> Prop) `{!Reflexive R} `{!Transitive R}
    (f : B -> A -> Result A) (l : list B) :
  (forall x a a', f x a = Ok a' -> R a a') ->
  forall a a', foldM f l a = Ok a' -> R a a'.
Proof.
  intros Hf. induction l as [|x l IH]; simpl; intros a a' H.
  - injection H as <-. reflexivity.
  - bind_inv H. transitivity a0; eauto.
Qed.

(** ** What client code preserves *)

Section Preservation.

Variable R : Heap -> Heap -> Prop.
Context `{!Reflexive R} `{!Transitive R}.
Hypothesis R_acquire : forall n h, R h (acquire n h).
Hypothesis R_log : forall e h, R h (log e h).
Hypothesis R_release : forall fuel n h h', release fuel n h = Ok h' -> R h h'.
Hypothesis R_run_op : forall inv rel,
  (forall n h h', inv n h = Ok h' -> R h h') ->
  (forall n h h', rel n h = Ok h' -> R h h') ->
  forall op h h', run_op inv rel op h = Ok h' -> R h h'.

Lemma scope_begin_preserves c name color h : R h (scope_begin c name color h).
Proof. destruct c; simpl; [apply R_log|reflexivity]. Qed.

Lemma scope_end_preserves c h : R h (scope_end c h).
Proof. destruct c; simpl; [apply R_log|reflexivity]. Qed.

Lemma invoke_preserves fuel : forall n h h', invoke fuel n h = Ok h' -> R h h'.
Proof.
  induction fuel as [|fuel IH]; intros n h h' H; [discriminate|].
  simpl in H. bind_inv H. destruct (m_function a) as [body|]; [|discriminate].
  bind_inv H. bind_inv H.
  assert (Hstage : R h (scope_end (m_collector a) a0)).
  { transitivity (scope_begin (m_collector a) (m_name a) (m_debugColor a) h);
      [apply scope_begin_preserves|].
    etransitivity; [apply (R_log (EvFunction n))|].
    etransitivity; [|apply scope_end_preserves].
    eapply (foldM_preserves R); [|eassumption].
    apply R_run_op; [exact IH|apply R_release]. }
  case_bool_decide; [discriminate|].
  destruct (bool_decide (m_status a1 = TsDone)
            && negb (expired (m_continuation a1) (scope_end (m_collector a) a0))).
  - destruct (lock (m_continuation a1) (scope_end (m_collector a) a0)) as [c|];
      [|discriminate].
    bind_inv H.
    transitivity (scope_end (m_collector a) a0); [done|].
    transitivity (acquire c (scope_end (m_collector a) a0)); [apply R_acquire|].
    transitivity a2; eauto.
  - by injection H as <-.
Qed.

Lemma exec_op_preserves fuel op h h' : exec_op fuel op h = Ok h' -> R h h'.
Proof. apply R_run_op; [apply invoke_preserves|apply R_release]. Qed.

Lemma exec_preserves fuel prog h h' : exec fuel prog h = Ok h' -> R h h'.
Proof. apply (foldM_preserves R). apply exec_op_preserves. Qed.

Lemma function_stage_preserves fuel n t body h h' :
  function_stage fuel n t body h = Ok h' -> R h h'.
Proof.
  unfold function_stage, run_body. intros H. bind_inv H. injection H as <-.
  transitivity (scope_begin (m_collector t) (m_name t) (m_debugColor t) h);
    [apply scope_begin_preserves|].
  etransitivity; [apply (R_log (EvFunction n))|].
  etransitivity; [eapply exec_preserves; eassumption|].
  apply scope_end_preserves.
Qed.

End Preservation.

(** ** The instance counter (C8) *)

Lemma wrap32_range z : (0 <= wrap32 z < 2 ^ 32)%Z.
Proof. unfold wrap32. apply Z.mod_pos_bound. lia. Qed.

Lemma wrap32_succ_sub c l :
  wrap32 (wrap32 (c + 1) - Z.of_nat (S l)) = wrap32 (c - Z.of_nat l).
Proof.
  unfold wrap32. rewrite Zminus_mod_idemp_l. f_equal. lia.
Qed.

Lemma wrap32_pred_sub c l :
  wrap32 (wrap32 (c - 1) - Z.of_nat l) = wrap32 (c - Z.of_nat (S l)).
Proof.
  unfold wrap32. rewrite Zminus_mod_idemp_l. f_equal. lia.
Qed.

Lemma live_app l1 l2 : live (l1 ++ l2) = live l1 + live l2.
Proof. unfold live. by rewrite filter_app, length_app. Qed.

Lemma live_cons e l :
  live (e :: l) = (if e is Some _ then 1 else 0) + live l.
Proof.
  unfold live. rewrite filter_cons. destruct e as [m|]; case_decide as Hd; simpl.
  - done.
  - destruct Hd. eauto.
  - by destruct Hd.
  - done.
Qed.

Lemma live_alter_same f n : forall l,
  (forall x, l !! n = Some x -> (is_Some (f x) <-> is_Some x)) ->
  live (alter f n l) = live l.
Proof.
  induction n as [|n IH]; intros [|e l] Hf; try done.
  - change (alter f 0 (e :: l)) with (f e :: l). rewrite !live_cons.
    specialize (Hf e eq_refl). f_equal.
    destruct (f e) as [x|], e as [y|]; try done.
    + destruct Hf as [Hf _]. by destruct Hf.
    + destruct Hf as [_ Hf]. by destruct Hf.
  - change (alter f (S n) (e :: l)) with (e :: alter f n l). rewrite !live_cons.
    f_equal. apply IH. intros x Hx. by apply Hf.
Qed.

Lemma live_insert_None n : forall l e,
  l !! n = Some (Some e) -> S (live (<[n:=None]> l)) = live l.
Proof.
  induction n as [|n IH]; intros [|e0 l] e Hl; try done.
  - simpl in Hl. injection Hl as ->. simpl. by rewrite !live_cons.
  - simpl in Hl. simpl. rewrite !live_cons. rewrite <- (IH l e Hl). lia.
Qed.

Lemma live_count_eq h : live_count h = live (tasks h).
Proof. reflexivity. Qed.

#[local] Instance same_balance_refl : Reflexive same_balance.
Proof. intros h. split; [done|by left]. Qed.

#[local] Instance same_balance_trans : Transitive same_balance.
Proof.
  unfold same_balance. intros h1 h2 h3 [H12 R12] [H23 R23]. split; [congruence|].
  destruct R23 as [->|R23]; [done|by right].
Qed.

Lemma same_balance_frame h h' :
  s_instanceCount h' = s_instanceCount h ->
  live_count h' = live_count h ->
  same_balance h h'.
Proof. unfold same_balance. intros -> ->. split; [done|by left]. Qed.

Lemma live_count_store n t h : live_count (store n t h) = live_count h.
Proof.
  rewrite !live_count_eq. unfold store. simpl. apply live_alter_same.
  intros [m|] _; simpl; split; intros [? ?]; eauto; discriminate.
Qed.

Lemma live_count_acquire n h : live_count (acquire n h) = live_count h.
Proof.
  rewrite !live_count_eq. unfold acquire. simpl. apply live_alter_same.
  intros [m|] _; simpl; split; intros [? ?]; eauto; discriminate.
Qed.

Lemma same_balance_method n m h h' : method n m h = Ok h' -> same_balance h h'.
Proof.
  unfold method. intros H. bind_inv H. destruct (m a (chans h)) as [t' cs].
  injection H as <-. apply same_balance_frame; [done|].
  change (live_count (with_chans cs (store n t' h))) with (live_count (store n t' h)).
  apply live_count_store.
Qed.

Lemma same_balance_chans cs h : same_balance h (with_chans cs h).
Proof. by apply same_balance_frame. Qed.

Lemma same_balance_log e h : same_balance h (log e h).
Proof. by apply same_balance_frame. Qed.

Lemma same_balance_acquire n h : same_balance h (acquire n h).
Proof. apply same_balance_frame; [done|]. apply live_count_acquire. Qed.

Lemma same_balance_store n t h : same_balance h (store n t h).
Proof. apply same_balance_frame; [done|]. apply live_count_store. Qed.

Lemma same_balance_trySetFuncResult o p f fut h h' :
  trySetFuncResult o p f fut h = Ok h' -> same_balance h h'.
Proof.
  unfold trySetFuncResult. intros H.
  destruct f; repeat bind_inv H; injection H as <-; by apply same_balance_frame.
Qed.

Lemma same_balance_make_shared name color k h :
  same_balance h (make_shared_Task name color k h).2.
Proof.
  unfold make_shared_Task, Task_ctor, same_balance.
  destruct color; simpl; (split; [|right; apply wrap32_range]);
    rewrite !live_count_eq; simpl;
    rewrite live_app, Nat.add_comm; apply wrap32_succ_sub.
Qed.

Lemma Task_dtor_Ok t h :
  Task_dtor t h = Ok (with_instanceCount (wrap32 (s_instanceCount h - 1)) h).
Proof.
  unfold Task_dtor. replace (dtor_check (m_status t)) with true; [done|].
  by destruct (m_status t).
Qed.

Lemma same_balance_release fuel : forall n h h',
  release fuel n h = Ok h' -> same_balance h h'.
Proof.
  induction fuel as [|fuel IH]; intros n h h' H; [discriminate|].
  simpl in H. destruct (tasks h !! n) as [[e|]|] eqn:En; try discriminate.
  assert (Hlast :
    (perform h1 := Task_dtor (object e) (with_tasks (<[n:=None]> (tasks h)) h) in
     perform h2 := foldM (release fuel) (m_dependencies (object e)) h1 in
     Ok (with_chans (abandon (m_promise (object e)) (chans h2)) h2)) = Ok h' ->
    same_balance h h').
  { clear H. intros H. rewrite Task_dtor_Ok in H. simpl in H. bind_inv H.
    injection H as <-.
    transitivity a; [|apply same_balance_chans].
    etransitivity; [|eapply (foldM_preserves same_balance); eauto].
    unfold same_balance. simpl. split; [|right; apply wrap32_range].
    rewrite !live_count_eq. simpl.
    rewrite <- (live_insert_None n (tasks h) e En). apply wrap32_pred_sub. }
  destruct (use_count e) as [|[|k]]; [by apply Hlast..|].
  injection H as <-. apply same_balance_frame; [done|].
  rewrite !live_count_eq. simpl. rewrite list_insert_alter.
  apply live_alter_same. intros x Hx. rewrite En in Hx. injection Hx as <-.
  split; eauto.
Qed.

Lemma same_balance_addDependencies n deps h h' :
  addDependencies n deps h = Ok h' -> same_balance h h'.
Proof.
  unfold addDependencies. intros H. bind_inv H. injection H as <-.
  etransitivity; [|apply same_balance_store].
  clear. induction deps as [|d deps IH]; simpl; [reflexivity|].
  etransitivity; [exact IH|apply same_balance_acquire].
Qed.

Lemma same_balance_addDependencies_pack deps : forall n h h',
  addDependencies_pack n deps h = Ok h' -> same_balance h h'.
Proof.
  induction deps as [|d deps IH]; simpl; intros n h h' H; bind_inv H.
  - by injection H as <-.
  - etransitivity; [|eapply IH; eassumption].
    etransitivity; [apply (same_balance_acquire d)|apply same_balance_store].
Qed.

Lemma same_balance_then n f name color h r :
  then_ n f name color h = Ok r -> same_balance h r.2.
Proof.
  unfold then_. intros H. bind_inv H.
  pose proof (same_balance_make_shared name color true h) as Hmk.
  destruct (make_shared_Task name color true h) as [t h1]. simpl in Hmk.
  repeat bind_inv H. injection H as <-. simpl.
  transitivity h1; [done|].
  transitivity a0; [by eapply same_balance_method|].
  transitivity a1; [by eapply same_balance_addDependencies_pack|].
  by eapply same_balance_method.
Qed.

Lemma same_balance_run_op inv rel :
  (forall n h h', inv n h = Ok h' -> same_balance h h') ->
  (forall n h h', rel n h = Ok h' -> same_balance h h') ->
  forall op h h', run_op inv rel op h = Ok h' -> same_balance h h'.
Proof.
  intros Hinv Hrel op h h' H. destruct op; simpl in H.
  - injection H as <-. apply same_balance_make_shared.
  - bind_inv H. injection H as <-. apply same_balance_acquire.
  - by eapply Hrel.
  - by eapply Hinv.
  - bind_inv H. injection H as <-. by eapply same_balance_then.
  - by eapply same_balance_method.
  - by eapply same_balance_method.
  - by eapply same_balance_method.
  - by eapply same_balance_method.
  - by eapply same_balance_addDependencies.
  - by eapply same_balance_addDependencies_pack.
  - by eapply same_balance_method.
  - by eapply same_balance_method.
  - repeat bind_inv H. injection H as <-. apply same_balance_chans.
  - repeat bind_inv H. by injection H as <-.
  - repeat bind_inv H. by eapply same_balance_trySetFuncResult.
Qed.

Lemma same_balance_exec fuel prog h h' :
  exec fuel prog h = Ok h' -> same_balance h h'.
Proof.
  apply (exec_preserves same_balance).
  - apply same_balance_acquire.
  - apply same_balance_log.
  - apply same_balance_release.
  - apply same_balance_run_op.
Qed.

Lemma alive_live_at n h : alive n h = live_at (tasks h) n.
Proof.
  unfold alive, lookup_task, live_at. by destruct (tasks h !! n) as [[e|]|].
Qed.

Lemma live_zero : forall l, (forall n, live_at l n = false) -> live l = 0.
Proof.
  induction l as [|e l IH]; intros H; [done|].
  rewrite live_cons. rewrite IH.
  - specialize (H 0). unfold live_at in H. simpl in H. by destruct e.
  - intros n. exact (H (S n)).
Qed.

Lemma live_ext : forall l l',
  (forall n, live_at l n = live_at l' n) -> live l = live l'.
Proof.
  induction l as [|e l IH]; intros l' H.
  - symmetry. apply live_zero. intros n. by rewrite <- H.
  - destruct l' as [|e' l'].
    + apply live_zero. intros n. by rewrite H.
    + rewrite !live_cons. f_equal.
      * specialize (H 0). unfold live_at in H. simpl in H.
        by destruct e, e'.
      * apply IH. intros n. exact (H (S n)).
Qed.

Lemma wrap32_cancel c c' l :
  (0 <= c < 2 ^ 32)%Z -> (0 <= c' < 2 ^ 32)%Z ->
  wrap32 (c' - l) = wrap32 (c - l) -> c' = c.
Proof.
  unfold wrap32. intros Hc Hc' H.
  assert (E : forall x, (0 <= x < 2 ^ 32)%Z -> (((x - l) mod 2 ^ 32 + l) mod 2 ^ 32)%Z = x).
  { intros x Hx. rewrite Zplus_mod_idemp_l.
    replace (x - l + l)%Z with x by lia. by apply Z.mod_small. }
  rewrite <- (E c Hc), <- (E c' Hc'). by rewrite H.
Qed.

(** C8: every construction adds one to the instance counter and every
    destructor takes one off, in unsigned arithmetic.  Whatever a client
    program does, the counter moves with the number of live objects; so once
    the objects alive are again those that were alive at a baseline, the
    counter is back at its baseline value. *)
Theorem instance_count_tracks_live_objects :
  (forall name color isCont (h : Heap),
      s_instanceCount (Task_ctor name color isCont h).2
        = wrap32 (s_instanceCount h + 1)
      /\ s_instanceCount (make_shared_Task name color isCont h).2
        = wrap32 (s_instanceCount h + 1))
  /\ (forall (t : Task) (h : Heap),
      exists h', Task_dtor t h = Ok h'
                 /\ s_instanceCount h' = wrap32 (s_instanceCount h - 1))
  /\ (forall fuel prog (h h' : Heap),
      exec fuel prog h = Ok h' ->
      wrap32 (s_instanceCount h' - Z.of_nat (live_count h'))
        = wrap32 (s_instanceCount h - Z.of_nat (live_count h)))
  /\ (forall fuel prog (h h' : Heap),
      (0 <= s_instanceCount h < 2 ^ 32)%Z ->
      exec fuel prog h = Ok h' ->
      (forall n, alive n h' = alive n h) ->
      s_instanceCount h' = s_instanceCount h).
Proof.
  split; [|split; [|split]].
  - intros name color isCont h. unfold make_shared_Task, Task_ctor.
    by destruct color.
  - intros t h. eexists. split; [apply Task_dtor_Ok|done].
  - intros fuel prog h h' H. by destruct (same_balance_exec _ _ _ _ H).
  - intros fuel prog h h' Hrange H Halive.
    destruct (same_balance_exec _ _ _ _ H) as [Hbal [Hsame|Hrange']]; [done|].
    assert (Hlive : live_count h' = live_count h).
    { apply live_ext. intros n. rewrite <- !alive_live_at. apply Halive. }
    rewrite Hlive in Hbal. by eapply wrap32_cancel.
Qed.

(** ** Chaining (C7) *)

Lemma lookup_task_push_new e h :
  lookup_task (length (tasks h)) (with_tasks (tasks h ++ [Some e]) h) = Some (object e).
Proof.
  unfold lookup_task. simpl. rewrite lookup_app_r by lia.
  by rewrite Nat.sub_diag.
Qed.

Lemma lookup_task_push_old k e h :
  k <> length (tasks h) ->
  lookup_task k (with_tasks (tasks h ++ [Some e]) h) = lookup_task k h.
Proof.
  intros Hk. unfold lookup_task. simpl.
  destruct (decide (k < length (tasks h))) as [Hlt|Hge].
  - by rewrite lookup_app_l.
  - rewrite !lookup_ge_None_2; [done|lia|rewrite length_app; simpl; lia].
Qed.

Lemma strong_count_push_new e h :
  strong_count (length (tasks h)) (with_tasks (tasks h ++ [Some e]) h) = use_count e.
Proof.
  unfold strong_count. simpl. rewrite lookup_app_r by lia.
  by rewrite Nat.sub_diag.
Qed.

Lemma strong_count_push_old k e h :
  k <> length (tasks h) ->
  strong_count k (with_tasks (tasks h ++ [Some e]) h) = strong_count k h.
Proof.
  intros Hk. unfold strong_count. simpl.
  destruct (decide (k < length (tasks h))) as [Hlt|Hge].
  - by rewrite lookup_app_l.
  - rewrite !lookup_ge_None_2; [done|lia|rewrite length_app; simpl; lia].
Qed.

Lemma strong_count_with_chans n cs h : strong_count n (with_chans cs h) = strong_count n h.
Proof. reflexivity. Qed.

Lemma make_shared_Task_spec name color k h :
  make_shared_Task name color k h
  = (length (tasks h),
     with_tasks
       (tasks h ++ [Some (mkManaged (new_task name color k (length (chans h))) 1)])
       (with_chans (chans h ++ [Unfulfilled])
          (with_instanceCount (wrap32 (s_instanceCount h + 1)) h))).
Proof. unfold make_shared_Task, Task_ctor. by destruct color. Qed.

Lemma addDependencies_pack_one n d t h :
  lookup_task n h = Some t ->
  addDependencies_pack n [d] h
  = Ok (store n (with_dependencies (m_dependencies t ++ [d]) t) (acquire d h)).
Proof.
  intros Hn. simpl. rewrite (deref_Some _ _ _ Hn). cbn [bind].
  erewrite deref_Some; [done|].
  eapply lookup_task_store_eq. by rewrite lookup_task_acquire.
Qed.

Lemma then_spec this f name color tN h :
  lookup_task this h = Some tN ->
  exists h',
    then_ this f name color h = Ok (length (tasks h), h')
    /\ lookup_task this h' = Some (with_continuation (Some (length (tasks h))) tN)
    /\ lookup_task (length (tasks h)) h'
       = Some (with_dependencies [this]
                 (with_function (Some (then_function this (length (tasks h)) f))
                    (new_task name color true (length (chans h)))))
    /\ (forall k, k <> this -> k <> length (tasks h) ->
          lookup_task k h' = lookup_task k h)
    /\ chans h' = chans h ++ [Unfulfilled]
    /\ trace h' = trace h
    /\ s_instanceCount h' = wrap32 (s_instanceCount h + 1)
    /\ strong_count this h' = S (strong_count this h)
    /\ strong_count (length (tasks h)) h' = 1
    /\ (forall k, k <> this -> k <> length (tasks h) ->
          strong_count k h' = strong_count k h).
Proof.
  intros Hthis.
  pose proof (lookup_task_lt _ _ _ Hthis) as Hlt.
  unfold then_. rewrite (deref_Some _ _ _ Hthis). cbn [bind].
  rewrite make_shared_Task_spec.
  set (M := length (tasks h)).
  set (tM := new_task name color true (length (chans h))).
  set (h0 := with_chans (chans h ++ [Unfulfilled])
               (with_instanceCount (wrap32 (s_instanceCount h + 1)) h)).
  set (h1 := with_tasks (tasks h ++ [Some (mkManaged tM 1)]) h0).
  assert (HM1 : lookup_task M h1 = Some tM)
    by exact (lookup_task_push_new (mkManaged tM 1) h0).
  assert (Hold1 : forall k, k <> M -> lookup_task k h1 = lookup_task k h).
  { intros k Hk. exact (lookup_task_push_old k (mkManaged tM 1) h0 Hk). }
  assert (HcM1 : strong_count M h1 = 1)
    by exact (strong_count_push_new (mkManaged tM 1) h0).
  assert (Hcold1 : forall k, k <> M -> strong_count k h1 = strong_count k h).
  { intros k Hk. exact (strong_count_push_old k (mkManaged tM 1) h0 Hk). }
  rewrite (method_Some _ _ _ _ HM1). cbn [bind fst snd].
  set (tM2 := moveFunction (Some (then_function this M f)) tM).
  set (h2 := with_chans (chans h1) (store M tM2 h1)).
  assert (HM2 : lookup_task M h2 = Some tM2).
  { unfold h2. rewrite lookup_task_with_chans. by eapply lookup_task_store_eq. }
  rewrite (addDependencies_pack_one _ _ _ _ HM2). cbn [bind].
  set (tM3 := with_dependencies (m_dependencies tM2 ++ [this]) tM2).
  set (h3 := store M tM3 (acquire this h2)).
  assert (Hthis3 : lookup_task this h3 = Some tN).
  { unfold h3, h2. rewrite lookup_task_store_ne by lia.
    rewrite lookup_task_acquire, lookup_task_with_chans.
    rewrite lookup_task_store_ne by lia. rewrite Hold1 by lia. done. }
  rewrite (method_Some _ _ _ _ Hthis3). cbn [bind fst snd].
  eexists. split; [reflexivity|].
  split. { rewrite lookup_task_with_chans. by eapply lookup_task_store_eq. }
  split.
  { rewrite lookup_task_with_chans. rewrite lookup_task_store_ne by lia.
    unfold h3. erewrite lookup_task_store_eq; [reflexivity|].
    rewrite lookup_task_acquire. exact HM2. }
  split.
  { intros k Hk1 Hk2. rewrite lookup_task_with_chans.
    rewrite lookup_task_store_ne by done. unfold h3.
    rewrite lookup_task_store_ne by done.
    rewrite lookup_task_acquire. unfold h2. rewrite lookup_task_with_chans.
    rewrite lookup_task_store_ne by done. by apply Hold1. }
  split; [done|]. split; [done|]. split; [done|].
  rewrite !strong_count_with_chans, !strong_count_store.
  split.
  { unfold h3. rewrite strong_count_store.
    erewrite strong_count_acquire_eq.
    - unfold h2. rewrite strong_count_with_chans, strong_count_store.
      rewrite Hcold1 by lia. done.
    - unfold h2. rewrite lookup_task_with_chans.
      rewrite lookup_task_store_ne by lia. rewrite Hold1 by lia. exact Hthis. }
  split.
  { unfold h3. rewrite strong_count_store.
    rewrite strong_count_acquire_ne by lia.
    unfold h2. by rewrite strong_count_with_chans, strong_count_store. }
  intros k Hk1 Hk2. rewrite strong_count_with_chans, strong_count_store.
  unfold h3. rewrite strong_count_store.
  rewrite strong_count_acquire_ne by done.
  unfold h2. rewrite strong_count_with_chans, strong_count_store.
  by apply Hcold1.
Qed.

Lemma then_all_last this fs : forall f name color tN h,
  lookup_task this h = Some tN ->
  exists Ms M h',
    then_all this (fs ++ [(f, name, color)]) h = Ok (Ms ++ [M], h')
    /\ (getContinuation <$> lookup_task this h') = Some (Some M).
Proof.
  induction fs as [|[[f0 name0] color0] fs IH]; intros f name color tN h Hthis.
  - destruct (then_spec this f name color tN h Hthis) as (h' & Hrun & Hl & _).
    exists [], (length (tasks h)), h'. simpl. rewrite Hrun. simpl.
    split; [done|]. by rewrite Hl.
  - destruct (then_spec this f0 name0 color0 tN h Hthis) as (h1 & Hrun & Hl & _).
    destruct (IH f name color _ h1 Hl) as (Ms & M & h' & Hall & Hc).
    exists (length (tasks h) :: Ms), M, h'. simpl. rewrite Hrun. simpl.
    rewrite Hall. simpl. done.
Qed.

(** C7: [then] runs nothing: the trace, the shared states and the status of
    every task stay as they were.  It returns a new task that is marked as
    a continuation, whose dependency list is the one strong reference to
    the task it was called on (whose use count grows by one), and it makes
    that new task the continuation by a reference that does not own it (the
    use count of the new task is the one handle returned).  After several
    calls the continuation is the task the last call returned. *)
Theorem then_wires_continuation (this : task_id) (tN : Task) (h : Heap) :
  lookup_task this h = Some tN ->
  (forall f name color,
      exists M h',
        then_ this f name color h = Ok (M, h')
        /\ lookup_task M h = None
        /\ trace h' = trace h
        /\ (forall c st, chans h !! c = Some st -> chans h' !! c = Some st)
        /\ (forall k t, lookup_task k h = Some t ->
              (getStatus <$> lookup_task k h') = Some (getStatus t))
        /\ (isContinuation <$> lookup_task M h') = Some true
        /\ (getDependencies <$> lookup_task M h') = Some [this]
        /\ (getStatus <$> lookup_task M h') = Some TsInvalid
        /\ (getContinuation <$> lookup_task this h') = Some (Some M)
        /\ strong_count this h' = S (strong_count this h)
        /\ strong_count M h' = 1)
  /\ (forall fs f name color,
      exists Ms M h',
        then_all this (fs ++ [(f, name, color)]) h = Ok (Ms ++ [M], h')
        /\ (getContinuation <$> lookup_task this h') = Some (Some M)).
Proof.
  intros Hthis. split.
  - intros f name color.
    destruct (then_spec this f name color tN h Hthis)
      as (h' & Hrun & Hl & HM & Hother & Hch & Htr & _ & Hs1 & Hs2 & _).
    assert (Hnew : lookup_task (length (tasks h)) h = None).
    { unfold lookup_task. by rewrite lookup_ge_None_2. }
    exists (length (tasks h)), h'. split; [done|]. split; [done|].
    split; [done|]. split.
    { intros c st Hc. rewrite Hch. by apply lookup_app_l_Some. }
    split.
    { intros k t Hk. destruct (decide (k = this)) as [->|Hne].
      - rewrite Hl. rewrite Hthis in Hk. by injection Hk as <-.
      - rewrite Hother; [by rewrite Hk|done|]. intros ->. congruence. }
    rewrite HM, Hl. done.
  - intros fs f name color. by eapply then_all_last.
Qed.

(** ** Invocation (C1, C5, C6) *)

Lemma invoke_unfold fuel n h t body :
  lookup_task n h = Some t ->
  m_function t = Some body ->
  invoke (S fuel) n h
  = perform h3 := function_stage fuel n t body h in
    perform t' := deref n h3 in
    if bool_decide (m_status t' = TsInvalid) then Abort AssertStatusNotInvalid
    else fire_continuation fuel t' h3.
Proof.
  intros Hn Hf. simpl. rewrite (deref_Some _ _ _ Hn). cbn [bind]. rewrite Hf.
  unfold function_stage, run_body, exec, exec_op.
  by destruct (foldM (run_op (invoke fuel) (release fuel)) body _).
Qed.

Lemma invoke_no_function fuel n h t :
  lookup_task n h = Some t ->
  m_function t = None ->
  invoke (S fuel) n h = Abort AssertFunction.
Proof.
  intros Hn Hf. simpl. rewrite (deref_Some _ _ _ Hn). cbn [bind]. by rewrite Hf.
Qed.

Lemma fire_continuation_skip fuel t' h3 :
  m_status t' <> TsDone \/ expired (m_continuation t') h3 = true ->
  fire_continuation fuel t' h3 = Ok h3.
Proof.
  unfold fire_continuation. intros [Hs|He].
  - by rewrite bool_decide_eq_false_2.
  - rewrite He. by rewrite andb_false_r.
Qed.

Lemma function_calls_snoc n tr e :
  function_calls n (tr ++ [e])
  = function_calls n tr + (if is_function_event n e then 1 else 0).
Proof.
  unfold function_calls. rewrite filter_app, length_app. f_equal.
  rewrite filter_cons, filter_nil. by destruct (is_function_event n e); case_decide.
Qed.

#[local] Instance same_function_calls_refl : Reflexive same_function_calls.
Proof. by intros h n. Qed.

#[local] Instance same_function_calls_trans : Transitive same_function_calls.
Proof. intros h1 h2 h3 H12 H23 n. by rewrite H23. Qed.

Lemma same_function_calls_trace h h' :
  trace h' = trace h -> same_function_calls h h'.
Proof. intros E n. by rewrite E. Qed.

Lemma same_function_calls_log e h :
  (forall n, is_function_event n e = false) ->
  same_function_calls h (log e h).
Proof.
  intros He n. simpl. rewrite function_calls_snoc, He. lia.
Qed.

Lemma same_function_calls_method n m h h' :
  method n m h = Ok h' -> same_function_calls h h'.
Proof.
  unfold method. intros H. bind_inv H. destruct (m a (chans h)).
  injection H as <-. by apply same_function_calls_trace.
Qed.

Lemma same_function_calls_release fuel : forall n h h',
  release fuel n h = Ok h' -> same_function_calls h h'.
Proof.
  induction fuel as [|fuel IH]; intros n h h' H; [discriminate|].
  simpl in H. destruct (tasks h !! n) as [[e|]|] eqn:En; try discriminate.
  assert (Hlast :
    (perform h1 := Task_dtor (object e) (with_tasks (<[n:=None]> (tasks h)) h) in
     perform h2 := foldM (release fuel) (m_dependencies (object e)) h1 in
     Ok (with_chans (abandon (m_promise (object e)) (chans h2)) h2)) = Ok h' ->
    same_function_calls h h').
  { clear H. intros H. rewrite Task_dtor_Ok in H. cbn [bind] in H. bind_inv H.
    injection H as <-.
    transitivity a; [|by apply same_function_calls_trace].
    etransitivity; [|eapply (foldM_preserves same_function_calls); eauto].
    by apply same_function_calls_trace. }
  destruct (use_count e) as [|[|k]]; [by apply Hlast..|].
  injection H as <-. by apply same_function_calls_trace.
Qed.

Lemma same_function_calls_addDependencies_pack deps : forall n h h',
  addDependencies_pack n deps h = Ok h' -> same_function_calls h h'.
Proof.
  induction deps as [|d deps IH]; simpl; intros n h h' H; bind_inv H.
  - by injection H as <-.
  - etransitivity; [|eapply IH; eassumption]. by apply same_function_calls_trace.
Qed.

Lemma same_function_calls_then n f name color h r :
  then_ n f name color h = Ok r -> same_function_calls h r.2.
Proof.
  unfold then_. intros H. bind_inv H. rewrite make_shared_Task_spec in H.
  repeat bind_inv H. injection H as <-. cbn [snd].
  etransitivity; [|eapply same_function_calls_method; eassumption].
  etransitivity; [|eapply same_function_calls_addDependencies_pack; eassumption].
  etransitivity; [|eapply same_function_calls_method; eassumption].
  by apply same_function_calls_trace.
Qed.

(* Client code that does not call operator() records no call of a task
   function. *)
Lemma same_function_calls_run_op inv rel op h h' :
  invokes_nothing op = true ->
  (forall n h h', rel n h = Ok h' -> same_function_calls h h') ->
  run_op inv rel op h = Ok h' -> same_function_calls h h'.
Proof.
  intros Hop Hrel H. destruct op; simpl in H; try discriminate Hop.
  - injection H as <-. apply same_function_calls_trace. by destruct color.
  - bind_inv H. injection H as <-. by apply same_function_calls_trace.
  - by eapply Hrel.
  - bind_inv H. injection H as <-. by eapply same_function_calls_then.
  - by eapply same_function_calls_method.
  - by eapply same_function_calls_method.
  - by eapply same_function_calls_method.
  - by eapply same_function_calls_method.
  - unfold addDependencies in H. bind_inv H. injection H as <-.
    apply same_function_calls_trace. simpl. clear. by induction deps.
  - by eapply same_function_calls_addDependencies_pack.
  - by eapply same_function_calls_method.
  - by eapply same_function_calls_method.
  - repeat bind_inv H. injection H as <-. by apply same_function_calls_trace.
  - repeat bind_inv H. by injection H as <-.
  - repeat bind_inv H. unfold trySetFuncResult in H.
    destruct f; repeat bind_inv H; injection H as <-;
      by apply (same_function_calls_log (EvCallable _ _)).
Qed.

Lemma same_function_calls_run_body fuel body : forall h h',
  forallb invokes_nothing body = true ->
  run_body fuel body h = Ok h' -> same_function_calls h h'.
Proof.
  unfold run_body, exec.
  induction body as [|op body IH]; simpl; intros h h' Hbody H.
  - by injection H as <-.
  - apply andb_prop in Hbody as [Hop Hbody]. bind_inv H.
    transitivity a; [|by apply IH].
    eapply same_function_calls_run_op; [exact Hop| |exact Ha].
    apply same_function_calls_release.
Qed.

Lemma same_function_calls_scope_begin c name color h :
  same_function_calls h (scope_begin c name color h).
Proof.
  destruct c; [|reflexivity]. by apply (same_function_calls_log (EvIntervalBegin _ _ _)).
Qed.

Lemma same_function_calls_scope_end c h : same_function_calls h (scope_end c h).
Proof.
  destruct c; [|reflexivity]. by apply (same_function_calls_log (EvIntervalEnd _)).
Qed.

Lemma function_stage_calls fuel n t body h h3 :
  forallb invokes_nothing body = true ->
  function_stage fuel n t body h = Ok h3 ->
  function_calls n (trace h3) = S (function_calls n (trace h)).
Proof.
  unfold function_stage. intros Hbody H. bind_inv H. injection H as <-.
  rewrite (same_function_calls_scope_end _ a n).
  rewrite (same_function_calls_run_body _ _ _ _ Hbody Ha n). simpl.
  rewrite function_calls_snoc. simpl. rewrite bool_decide_eq_true_2 by done.
  rewrite (same_function_calls_scope_begin _ _ _ h n). lia.
Qed.

(** C6: a task without a function fails the first assertion of
    [operator()].  A task with a function has that function called once by
    the call: the call is the function stage, in which the function is
    called, followed by the status check and the continuation stage; the
    function stage records one call of the function, on top of the calls of
    [operator()] the function makes itself; and when no continuation is
    fired the call returns with the heap the function stage left. *)
Theorem invoke_requires_function (fuel : nat) (n : task_id) (t : Task) (h : Heap) :
  lookup_task n h = Some t ->
  (m_function t = None -> invoke (S fuel) n h = Abort AssertFunction)
  /\ (forall body,
      m_function t = Some body ->
      invoke (S fuel) n h
      = (perform h3 := function_stage fuel n t body h in
         perform t' := deref n h3 in
         if bool_decide (m_status t' = TsInvalid) then Abort AssertStatusNotInvalid
         else fire_continuation fuel t' h3)
      /\ (forall h3,
          forallb invokes_nothing body = true ->
          function_stage fuel n t body h = Ok h3 ->
          function_calls n (trace h3) = S (function_calls n (trace h)))
      /\ (forall h3 t',
          function_stage fuel n t body h = Ok h3 ->
          lookup_task n h3 = Some t' ->
          m_status t' <> TsInvalid ->
          m_status t' <> TsDone \/ expired (m_continuation t') h3 = true ->
          invoke (S fuel) n h = Ok h3)).
Proof.
  intros Hn. split; [by apply invoke_no_function|].
  intros body Hf. split; [by apply invoke_unfold|]. split.
  - intros h3. apply function_stage_calls.
  - intros h3 t' Hstage Hn3 Hinv Hskip.
    rewrite (invoke_unfold _ _ _ _ _ Hn Hf), Hstage. cbn [bind].
    rewrite (deref_Some _ _ _ Hn3). cbn [bind].
    rewrite bool_decide_eq_false_2 by done.
    by apply fire_continuation_skip.
Qed.

(** C5: the status assertion of [operator()] is evaluated after the function
    of the task has returned.  The call fails it exactly when the status is
    [TsInvalid] at that point, whatever the status was when the call began;
    otherwise the call goes on with the continuation stage. *)
Theorem invoke_checks_status_after_function (fuel : nat) (n : task_id)
    (t t' : Task) (body : list Op) (h h3 : Heap) :
  lookup_task n h = Some t ->
  m_function t = Some body ->
  function_stage fuel n t body h = Ok h3 ->
  lookup_task n h3 = Some t' ->
  (m_status t' = TsInvalid -> invoke (S fuel) n h = Abort AssertStatusNotInvalid)
  /\ (m_status t' <> TsInvalid -> invoke (S fuel) n h = fire_continuation fuel t' h3).
Proof.
  intros Hn Hf Hstage Hn3.
  rewrite (invoke_unfold _ _ _ _ _ Hn Hf), Hstage. cbn [bind].
  rewrite (deref_Some _ _ _ Hn3). cbn [bind]. split; intros Hs.
  - by rewrite bool_decide_eq_true_2.
  - by rewrite bool_decide_eq_false_2.
Qed.

Lemma never_aborts_bind {A B} (r : Result A) (k : A -> Result B) :
  never_aborts r -> (forall x, r = Ok x -> never_aborts (k x)) ->
  never_aborts (bind r k).
Proof.
  intros Hr Hk a. destruct r; simpl; try discriminate.
  - by apply Hk.
  - by destruct (Hr a0).
Qed.

Lemma never_aborts_Ok {A} (x : A) : never_aborts (Ok x).
Proof. by intros a. Qed.

Lemma never_aborts_deref n h : never_aborts (deref n h).
Proof. intros a. unfold deref. by destruct (lookup_task n h). Qed.

Lemma never_aborts_set_value p v cs : never_aborts (set_value p v cs).
Proof.
  intros a. unfold set_value. destruct p as [c|]; [|done].
  by destruct (cs !! c) as [[]|].
Qed.

Lemma never_aborts_future_get f cs : never_aborts (future_get f cs).
Proof.
  intros a. unfold future_get. destruct f as [c|]; [|done].
  by destruct (cs !! c) as [[]|].
Qed.

Lemma never_aborts_method n m h : never_aborts (method n m h).
Proof.
  unfold method. apply never_aborts_bind; [apply never_aborts_deref|].
  intros t _. destruct (m t (chans h)). apply never_aborts_Ok.
Qed.

Lemma never_aborts_trySetFuncResult o p f fut h :
  never_aborts (trySetFuncResult o p f fut h).
Proof.
  unfold trySetFuncResult.
  destruct f;
    repeat (apply never_aborts_bind;
            [first [apply never_aborts_future_get|apply never_aborts_set_value]
            |intros ? _]);
    apply never_aborts_Ok.
Qed.

Lemma never_aborts_addDependencies n deps h : never_aborts (addDependencies n deps h).
Proof.
  unfold addDependencies. apply never_aborts_bind; [apply never_aborts_deref|].
  intros t _. apply never_aborts_Ok.
Qed.

Lemma never_aborts_addDependencies_pack deps : forall n h,
  never_aborts (addDependencies_pack n deps h).
Proof.
  induction deps as [|d deps IH]; intros n h; simpl;
    (apply never_aborts_bind; [apply never_aborts_deref|intros t _]).
  - apply never_aborts_Ok.
  - apply IH.
Qed.

Lemma never_aborts_then n f name color h : never_aborts (then_ n f name color h).
Proof.
  unfold then_. apply never_aborts_bind; [apply never_aborts_deref|intros t _].
  rewrite make_shared_Task_spec.
  apply never_aborts_bind; [apply never_aborts_method|intros h2 _].
  apply never_aborts_bind; [apply never_aborts_addDependencies_pack|intros h3 _].
  apply never_aborts_bind; [apply never_aborts_method|intros h4 _].
  apply never_aborts_Ok.
Qed.

Lemma never_aborts_release fuel : forall n h, never_aborts (release fuel n h).
Proof.
  induction fuel as [|fuel IH]; intros n h; [by intros a|].
  simpl. destruct (tasks h !! n) as [[e|]|]; [|by intros a..].
  assert (Hlast : never_aborts
    (perform h1 := Task_dtor (object e) (with_tasks (<[n:=None]> (tasks h)) h) in
     perform h2 := foldM (release fuel) (m_dependencies (object e)) h1 in
     Ok (with_chans (abandon (m_promise (object e)) (chans h2)) h2))).
  { rewrite Task_dtor_Ok. cbn [bind].
    apply never_aborts_bind; [|intros h2 _; apply never_aborts_Ok].
    generalize (with_instanceCount
                  (wrap32 (s_instanceCount (with_tasks (<[n:=None]> (tasks h)) h) - 1))
                  (with_tasks (<[n:=None]> (tasks h)) h)).
    induction (m_dependencies (object e)) as [|d ds IHds]; intros h1; simpl.
    - apply never_aborts_Ok.
    - apply never_aborts_bind; [apply IH|]. intros h2 _. apply IHds. }
  destruct (use_count e) as [|[|k]]; [exact Hlast..|apply never_aborts_Ok].
Qed.

Lemma expired_false_lock w h : expired w h = false -> exists c, lock w h = Some c.
Proof.
  unfold expired, lock. destruct w as [c|]; [|done].
  destruct (alive c h); [eauto|done].
Qed.

Lemma bind_not_assert_false {A B} (r : Result A) (k : A -> Result B) :
  r <> Abort AssertFalse -> (forall x, k x <> Abort AssertFalse) ->
  bind r k <> Abort AssertFalse.
Proof.
  intros Hr Hk. destruct r; simpl; try done.
  intros [= ->]. by apply Hr.
Qed.

Lemma foldM_not_assert_false {A B} (f : B -> A -> Result A) (l : list B) :
  (forall x a, f x a <> Abort AssertFalse) ->
  forall a, foldM f l a <> Abort AssertFalse.
Proof.
  intros Hf. induction l as [|x l IH]; intros a; simpl; [done|].
  by apply bind_not_assert_false.
Qed.

Lemma run_op_not_assert_false inv rel :
  (forall n h, inv n h <> Abort AssertFalse) ->
  (forall n h, rel n h <> Abort AssertFalse) ->
  forall op h, run_op inv rel op h <> Abort AssertFalse.
Proof.
  intros Hinv Hrel op h. destruct op; simpl; try done;
    try apply never_aborts_method;
    try apply never_aborts_addDependencies;
    try apply never_aborts_addDependencies_pack.
  - apply never_aborts_bind; [apply never_aborts_deref|intros t _].
    apply never_aborts_Ok.
  - apply never_aborts_bind; [apply never_aborts_then|intros r _].
    apply never_aborts_Ok.
  - apply never_aborts_bind; [apply never_aborts_deref|intros t _].
    apply never_aborts_bind; [apply never_aborts_set_value|intros cs _].
    apply never_aborts_Ok.
  - apply never_aborts_bind; [apply never_aborts_deref|intros t _].
    apply never_aborts_bind; [apply never_aborts_future_get|intros v _].
    apply never_aborts_Ok.
  - apply never_aborts_bind; [apply never_aborts_deref|intros t _].
    apply never_aborts_bind; [apply never_aborts_deref|intros t' _].
    apply never_aborts_trySetFuncResult.
Qed.

Lemma invoke_never_assert_false fuel : forall n h,
  invoke fuel n h <> Abort AssertFalse.
Proof.
  induction fuel as [|fuel IH]; intros n h; [done|].
  simpl. apply bind_not_assert_false; [apply never_aborts_deref|intros t].
  destruct (m_function t) as [body|]; [|done].
  apply bind_not_assert_false.
  { apply foldM_not_assert_false. apply run_op_not_assert_false; [exact IH|].
    intros m h0. apply never_aborts_release. }
  intros h2. apply bind_not_assert_false; [apply never_aborts_deref|intros t'].
  case_bool_decide; [done|].
  destruct (bool_decide (m_status t' = TsDone)); simpl; [|done].
  destruct (expired _ _) eqn:Hexp; simpl; [done|].
  destruct (expired_false_lock _ _ Hexp) as [c ->].
  apply bind_not_assert_false; [apply IH|].
  intros h4. apply never_aborts_release.
Qed.

(** C1: when the task is done after its function returned and its
    continuation reference is expired, [operator()] skips the continuation
    and returns with the heap the function stage left.  A reference to a
    task that has been destroyed is expired, like an empty one.  The
    [assert(false)] of the continuation stage guards a reference that
    passes the expiry test and then cannot be locked, which no sequential
    call meets. *)
Theorem invoke_skips_destroyed_continuation :
  (forall (fuel : nat) (n : task_id) (t t' : Task) (body : list Op) (h h3 : Heap),
      lookup_task n h = Some t ->
      m_function t = Some body ->
      function_stage fuel n t body h = Ok h3 ->
      lookup_task n h3 = Some t' ->
      m_status t' = TsDone ->
      expired (m_continuation t') h3 = true ->
      invoke (S fuel) n h = Ok h3)
  /\ (forall (c : task_id) (h : Heap),
      alive c h = false -> expired (Some c) h = true)
  /\ (forall (fuel : nat) (n : task_id) (h : Heap),
      invoke fuel n h <> Abort AssertFalse).
Proof.
  split; [|split; [|intros; apply invoke_never_assert_false]].
  - intros fuel n t t' body h h3 Hn Hf Hstage Hn3 Hdone Hexp.
    rewrite (invoke_unfold _ _ _ _ _ Hn Hf), Hstage. cbn [bind].
    rewrite (deref_Some _ _ _ Hn3). cbn [bind].
    rewrite bool_decide_eq_false_2 by (rewrite Hdone; done).
    apply fire_continuation_skip. by right.
  - intros c h Hdead. simpl. by rewrite Hdead.
Qed.

(** ** The continuation cascade (C4) *)

Lemma chans_scope_begin c name color h : chans (scope_begin c name color h) = chans h.
Proof. by destruct c. Qed.

Lemma chans_scope_end c h : chans (scope_end c h) = chans h.
Proof. by destruct c. Qed.

Lemma trace_scope_begin t h :
  trace (scope_begin (m_collector t) (m_name t) (m_debugColor t) h)
  = trace h ++ begin_events t.
Proof. unfold begin_events. destruct (m_collector t); simpl; by rewrite ?app_nil_r. Qed.

Lemma trace_scope_end t h :
  trace (scope_end (m_collector t) h) = trace h ++ end_events t.
Proof. unfold end_events. destruct (m_collector t); simpl; by rewrite ?app_nil_r. Qed.

Lemma count_scope_begin c name color h :
  s_instanceCount (scope_begin c name color h) = s_instanceCount h.
Proof. by destruct c. Qed.

Lemma count_scope_end c h : s_instanceCount (scope_end c h) = s_instanceCount h.
Proof. by destruct c. Qed.

Lemma chans_with_chans cs h : chans (with_chans cs h) = cs.
Proof. reflexivity. Qed.

Lemma chans_store n t h : chans (store n t h) = chans h.
Proof. reflexivity. Qed.

Lemma chans_acquire n h : chans (acquire n h) = chans h.
Proof. reflexivity. Qed.

Lemma chans_log e h : chans (log e h) = chans h.
Proof. reflexivity. Qed.

Lemma trace_with_chans cs h : trace (with_chans cs h) = trace h.
Proof. reflexivity. Qed.

Lemma trace_store n t h : trace (store n t h) = trace h.
Proof. reflexivity. Qed.

Lemma trace_acquire n h : trace (acquire n h) = trace h.
Proof. reflexivity. Qed.

Lemma trace_log e h : trace (log e h) = trace h ++ [e].
Proof. reflexivity. Qed.

Lemma count_with_chans cs h : s_instanceCount (with_chans cs h) = s_instanceCount h.
Proof. reflexivity. Qed.

Lemma count_store n t h : s_instanceCount (store n t h) = s_instanceCount h.
Proof. reflexivity. Qed.

Lemma count_acquire n h : s_instanceCount (acquire n h) = s_instanceCount h.
Proof. reflexivity. Qed.

Lemma count_log e h : s_instanceCount (log e h) = s_instanceCount h.
Proof. reflexivity. Qed.

Lemma strong_count_log n e h : strong_count n (log e h) = strong_count n h.
Proof. reflexivity. Qed.

Lemma strong_count_scope_begin n c name color h :
  strong_count n (scope_begin c name color h) = strong_count n h.
Proof. by destruct c. Qed.

Lemma strong_count_scope_end n c h : strong_count n (scope_end c h) = strong_count n h.
Proof. by destruct c. Qed.

#[local] Hint Rewrite chans_with_chans chans_store chans_acquire chans_log
  chans_scope_begin chans_scope_end trace_with_chans trace_store trace_acquire
  trace_log count_with_chans count_store count_acquire count_log
  count_scope_begin count_scope_end strong_count_log strong_count_scope_begin
  strong_count_scope_end strong_count_with_chans strong_count_store : heap.

Lemma setStatus_Done t cs : setStatus TsDone t cs = (with_status TsDone t, cs).
Proof. unfold setStatus. rewrite (bool_decide_eq_true_2 (TsDone = TsDone)) by done.
  by rewrite andb_false_r. Qed.

Lemma exec_op_setStatus_Done fuel n t h :
  lookup_task n h = Some t ->
  exec_op fuel (OpSetStatus n TsDone) h
  = Ok (with_chans (chans h) (store n (with_status TsDone t) h)).
Proof.
  intros Hn. unfold exec_op. simpl. rewrite (method_Some _ _ _ _ Hn).
  by rewrite setStatus_Done.
Qed.

Lemma exec_op_setValue fuel n t p v h :
  lookup_task n h = Some t ->
  m_promise t = Some p ->
  chans h !! p = Some Unfulfilled ->
  exec_op fuel (OpSetValue n v) h = Ok (with_chans (<[p := Ready v]> (chans h)) h).
Proof.
  intros Hn Hp Hc. unfold exec_op. simpl. rewrite (deref_Some _ _ _ Hn). cbn [bind].
  unfold getPromise, set_value. by rewrite Hp, Hc.
Qed.

Lemma exec_op_trySetFuncResult fuel tref this f tt tn pM p v h :
  lookup_task tref h = Some tt ->
  lookup_task this h = Some tn ->
  m_promise tt = Some pM ->
  chans h !! pM = Some Unfulfilled ->
  m_future tn = Some p ->
  chans h !! p = Some (Ready v) ->
  exec_op fuel (OpTrySetFuncResult tref f this) h
  = Ok (with_chans (<[pM := Ready (callable_result f v)]> (chans h))
          (log (EvCallable tref (callable_arg f v)) h)).
Proof.
  intros Ht Hn HpM HcM Hp Hc. unfold exec_op. simpl.
  rewrite (deref_Some _ _ _ Ht), (deref_Some _ _ _ Hn). cbn [bind].
  unfold getPromise, trySetFuncResult, future_get, set_value.
  rewrite HpM, Hp. by destruct f; simpl; rewrite ?Hc, HcM.
Qed.

Lemma release_shared fuel n k h :
  strong_count n h = S (S k) ->
  exists h',
    release (S fuel) n h = Ok h'
    /\ (forall m, lookup_task m h' = lookup_task m h)
    /\ chans h' = chans h
    /\ trace h' = trace h
    /\ s_instanceCount h' = s_instanceCount h
    /\ strong_count n h' = S k
    /\ (forall m, m <> n -> strong_count m h' = strong_count m h).
Proof.
  unfold strong_count. intros Hc. simpl.
  destruct (tasks h !! n) as [[e|]|] eqn:En; try discriminate.
  rewrite Hc. eexists. split; [reflexivity|].
  pose proof (lookup_lt_Some _ _ _ En) as Hlt.
  split.
  { intros m. unfold lookup_task. simpl. destruct (decide (n = m)) as [<-|Hne].
    - rewrite list_lookup_insert_eq by done. by rewrite En.
    - by rewrite list_lookup_insert_ne. }
  split; [done|]. split; [done|]. split; [done|]. simpl. split.
  - by rewrite list_lookup_insert_eq.
  - intros m Hm. by rewrite list_lookup_insert_ne.
Qed.

Lemma function_stage_then fuel M N f tM tN pM p v h :
  lookup_task M h = Some tM ->
  m_promise tM = Some pM ->
  chans h !! pM = Some Unfulfilled ->
  lookup_task N h = Some tN ->
  m_future tN = Some p ->
  chans h !! p = Some (Ready v) ->
  exists h3,
    function_stage fuel M tM (then_function N M f) h = Ok h3
    /\ lookup_task M h3 = Some (with_status TsDone tM)
    /\ (forall k, k <> M -> lookup_task k h3 = lookup_task k h)
    /\ chans h3 = <[pM := Ready (callable_result f v)]> (chans h)
    /\ trace h3 = trace h ++ begin_events tM
                    ++ [EvFunction M; EvCallable M (callable_arg f v)] ++ end_events tM
    /\ (forall k, strong_count k h3 = strong_count k h)
    /\ s_instanceCount h3 = s_instanceCount h.
Proof.
  intros HM HpM HcM HN Hp Hc.
  unfold function_stage, then_function, run_body, exec. cbn [foldM].
  set (hb := log (EvFunction M)
               (scope_begin (m_collector tM) (m_name tM) (m_debugColor tM) h)).
  assert (HMb : lookup_task M hb = Some tM) by (unfold hb; by autorewrite with heap).
  assert (HNb : lookup_task N hb = Some tN) by (unfold hb; by autorewrite with heap).
  assert (Hcb : chans hb = chans h) by apply chans_scope_begin.
  rewrite (exec_op_trySetFuncResult fuel M N f tM tN pM p v hb)
    by (rewrite ?Hcb; done).
  cbn [bind].
  set (hc := with_chans (<[pM:=Ready (callable_result f v)]> (chans hb))
               (log (EvCallable M (callable_arg f v)) hb)).
  assert (HMc : lookup_task M hc = Some tM) by (unfold hc; by autorewrite with heap).
  rewrite (exec_op_setStatus_Done fuel M tM hc HMc). cbn [bind].
  eexists. split; [reflexivity|].
  split. { autorewrite with heap. by eapply lookup_task_store_eq. }
  split.
  { intros k Hk. autorewrite with heap. rewrite lookup_task_store_ne by done.
    unfold hc, hb. by autorewrite with heap. }
  split. { unfold hc, hb. by autorewrite with heap. }
  split.
  { rewrite trace_scope_end. unfold hc, hb. autorewrite with heap.
    rewrite trace_scope_begin. by rewrite <- !app_assoc. }
  split. { intros k. unfold hc, hb. by autorewrite with heap. }
  unfold hc, hb. by autorewrite with heap.
Qed.

Lemma expired_ext w h h' :
  (forall k, is_Some (lookup_task k h') <-> is_Some (lookup_task k h)) ->
  expired w h' = expired w h.
Proof.
  intros H. unfold expired, alive. destruct w as [c|]; [|done].
  specialize (H c).
  destruct (lookup_task c h') as [x|], (lookup_task c h) as [y|]; try done.
  - destruct H as [H _]. by destruct H.
  - destruct H as [_ H]. by destruct H.
Qed.

(* Running a task created by [then] whose predecessor has produced [v]. *)
Lemma invoke_then_task fuel M N f tM tN pM p v h :
  lookup_task M h = Some tM ->
  m_function tM = Some (then_function N M f) ->
  m_promise tM = Some pM ->
  chans h !! pM = Some Unfulfilled ->
  expired (m_continuation tM) h = true ->
  lookup_task N h = Some tN ->
  m_future tN = Some p ->
  chans h !! p = Some (Ready v) ->
  exists h3,
    invoke (S fuel) M h = Ok h3
    /\ lookup_task M h3 = Some (with_status TsDone tM)
    /\ (forall k, k <> M -> lookup_task k h3 = lookup_task k h)
    /\ chans h3 = <[pM := Ready (callable_result f v)]> (chans h)
    /\ trace h3 = trace h ++ begin_events tM
                    ++ [EvFunction M; EvCallable M (callable_arg f v)] ++ end_events tM
    /\ (forall k, strong_count k h3 = strong_count k h)
    /\ s_instanceCount h3 = s_instanceCount h.
Proof.
  intros HM Hf HpM HcM Hexp HN Hp Hc.
  destruct (function_stage_then fuel M N f tM tN pM p v h HM HpM HcM HN Hp Hc)
    as (h3 & Hstage & HM3 & Hother & Hrest).
  exists h3. split; [|by repeat split; try apply Hrest].
  rewrite (invoke_unfold _ _ _ _ _ HM Hf), Hstage. cbn [bind].
  rewrite (deref_Some _ _ _ HM3). cbn [bind].
  rewrite bool_decide_eq_false_2 by done.
  apply fire_continuation_skip. right.
  change (m_continuation (with_status TsDone tM)) with (m_continuation tM).
  rewrite <- Hexp. apply expired_ext. intros k.
  destruct (decide (k = M)) as [->|Hk].
  - rewrite HM3, HM. split; eauto.
  - by rewrite Hother.
Qed.

Lemma function_stage_produce fuel N tN p v h :
  lookup_task N h = Some tN ->
  m_promise tN = Some p ->
  chans h !! p = Some Unfulfilled ->
  exists h3,
    function_stage fuel N tN (produce_function N v) h = Ok h3
    /\ lookup_task N h3 = Some (with_status TsDone tN)
    /\ (forall k, k <> N -> lookup_task k h3 = lookup_task k h)
    /\ chans h3 = <[p := Ready v]> (chans h)
    /\ trace h3 = trace h ++ begin_events tN ++ [EvFunction N] ++ end_events tN
    /\ (forall k, strong_count k h3 = strong_count k h)
    /\ s_instanceCount h3 = s_instanceCount h.
Proof.
  intros HN Hp Hc.
  unfold function_stage, produce_function, run_body, exec. cbn [foldM].
  set (hb := log (EvFunction N)
               (scope_begin (m_collector tN) (m_name tN) (m_debugColor tN) h)).
  assert (HNb : lookup_task N hb = Some tN) by (unfold hb; by autorewrite with heap).
  assert (Hcb : chans hb = chans h) by apply chans_scope_begin.
  rewrite (exec_op_setValue fuel N tN p v hb) by (rewrite ?Hcb; done).
  cbn [bind].
  set (hc := with_chans (<[p:=Ready v]> (chans hb)) hb).
  assert (HNc : lookup_task N hc = Some tN) by (unfold hc; by autorewrite with heap).
  rewrite (exec_op_setStatus_Done fuel N tN hc HNc). cbn [bind].
  eexists. split; [reflexivity|].
  split. { autorewrite with heap. by eapply lookup_task_store_eq. }
  split.
  { intros k Hk. autorewrite with heap. rewrite lookup_task_store_ne by done.
    unfold hc, hb. by autorewrite with heap. }
  split. { unfold hc, hb. by autorewrite with heap. }
  split.
  { rewrite trace_scope_end. unfold hc, hb. autorewrite with heap.
    rewrite trace_scope_begin. by rewrite <- !app_assoc. }
  split. { intros k. unfold hc, hb. by autorewrite with heap. }
  unfold hc, hb. by autorewrite with heap.
Qed.

(* Running a producer whose continuation was created by [then]. *)
Lemma invoke_produce_then fuel N M f tN tM p pM v k h :
  lookup_task N h = Some tN ->
  m_function tN = Some (produce_function N v) ->
  m_promise tN = Some p ->
  m_future tN = Some p ->
  chans h !! p = Some Unfulfilled ->
  m_continuation tN = Some M ->
  M <> N ->
  lookup_task M h = Some tM ->
  m_function tM = Some (then_function N M f) ->
  m_promise tM = Some pM ->
  pM <> p ->
  chans h !! pM = Some Unfulfilled ->
  expired (m_continuation tM) h = true ->
  strong_count M h = S k ->
  exists h2,
    invoke (S (S fuel)) N h = Ok h2
    /\ lookup_task N h2 = Some (with_status TsDone tN)
    /\ lookup_task M h2 = Some (with_status TsDone tM)
    /\ (forall j, j <> N -> j <> M -> lookup_task j h2 = lookup_task j h)
    /\ chans h2 = <[pM := Ready (callable_result f v)]> (<[p := Ready v]> (chans h))
    /\ trace h2 = trace h ++ begin_events tN ++ [EvFunction N] ++ end_events tN
                    ++ begin_events tM
                    ++ [EvFunction M; EvCallable M (callable_arg f v)] ++ end_events tM
    /\ (forall j, strong_count j h2 = strong_count j h)
    /\ s_instanceCount h2 = s_instanceCount h.
Proof.
  intros HN HfN Hp Hfut Hc HcontN Hne HM HfM HpM Hpne HcM Hexp Hcount.
  destruct (function_stage_produce (S fuel) N tN p v h HN Hp Hc)
    as (h3 & Hstage & HN3 & Hother3 & Hch3 & Htr3 & Hsc3 & Hic3).
  pose proof (lookup_lt_Some _ _ _ Hc) as Hplt.
  pose proof (lookup_lt_Some _ _ _ HcM) as HpMlt.
  (* the continuation, run on the heap in which it has been locked *)
  set (ha := acquire M h3).
  assert (HMa : lookup_task M ha = Some tM).
  { unfold ha. rewrite lookup_task_acquire. rewrite Hother3 by done. exact HM. }
  assert (HNa : lookup_task N ha = Some (with_status TsDone tN)).
  { unfold ha. by rewrite lookup_task_acquire. }
  assert (Hcha : chans ha = <[p:=Ready v]> (chans h)) by exact Hch3.
  assert (Hlive : forall j, is_Some (lookup_task j ha) <-> is_Some (lookup_task j h)).
  { intros j. unfold ha. rewrite lookup_task_acquire.
    destruct (decide (j = N)) as [->|Hj].
    - rewrite HN3, HN. split; eauto.
    - by rewrite Hother3. }
  destruct (invoke_then_task fuel M N f tM (with_status TsDone tN) pM p v ha)
    as (h4 & Hinv & HM4 & Hother4 & Hch4 & Htr4 & Hsc4 & Hic4); try done.
  { rewrite Hcha. by rewrite list_lookup_insert_ne. }
  { rewrite <- Hexp. by apply expired_ext. }
  { rewrite Hcha. by rewrite list_lookup_insert_eq. }
  (* the handle taken by lock() is dropped *)
  assert (Hcount4 : strong_count M h4 = S (S k)).
  { rewrite Hsc4. unfold ha. rewrite (strong_count_acquire_eq M tM).
    - by rewrite Hsc3, Hcount.
    - rewrite Hother3 by done. exact HM. }
  destruct (release_shared fuel M k h4 Hcount4)
    as (h5 & Hrel & Hl5 & Hch5 & Htr5 & Hic5 & Hsc5 & Hsco5).
  exists h5. split.
  { rewrite (invoke_unfold _ _ _ _ _ HN HfN), Hstage. cbn [bind].
    rewrite (deref_Some _ _ _ HN3). cbn [bind].
    rewrite bool_decide_eq_false_2 by done.
    unfold fire_continuation.
    change (m_status (with_status TsDone tN)) with TsDone.
    change (m_continuation (with_status TsDone tN)) with (m_continuation tN).
    rewrite HcontN. rewrite bool_decide_eq_true_2 by done.
    assert (Halive : alive M h3 = true).
    { eapply alive_Some. rewrite Hother3 by done. exact HM. }
    unfold expired, lock. rewrite Halive. cbn [negb andb].
    fold ha. rewrite Hinv. cbn [bind]. exact Hrel. }
  split. { rewrite Hl5, Hother4 by done. exact HNa. }
  split. { by rewrite Hl5. }
  split.
  { intros j Hj1 Hj2. rewrite Hl5, Hother4 by done. unfold ha.
    rewrite lookup_task_acquire. by apply Hother3. }
  split. { by rewrite Hch5, Hch4, Hcha. }
  split.
  { rewrite Htr5, Htr4. unfold ha. rewrite trace_acquire, Htr3.
    by rewrite <- !app_assoc. }
  split.
  { intros j. destruct (decide (j = M)) as [->|Hj].
    - by rewrite Hsc5, Hcount.
    - rewrite Hsco5 by done. rewrite Hsc4. unfold ha.
      rewrite strong_count_acquire_ne by done. apply Hsc3. }
  rewrite Hic5, Hic4. unfold ha. by rewrite count_acquire.
Qed.

(** ** Promises and shared states over a client program (C3) *)

#[local] Instance evolves_refl : Reflexive evolves.
Proof.
  intros h Hwf. split; [done|]. split; [done|]. split.
  - intros n t' Hn. left. eauto.
  - intros c _. by left.
Qed.

#[local] Instance evolves_trans : Transitive evolves.
Proof.
  intros h1 h2 h3 H12 H23 Hwf1.
  destruct (H12 Hwf1) as (Hwf2 & Hlen12 & Ht12 & Hc12).
  destruct (H23 Hwf2) as (Hwf3 & Hlen23 & Ht23 & Hc23).
  split; [done|]. split; [lia|]. split.
  - intros n t3 Hn3. destruct (Ht23 n t3 Hn3) as [(t2 & Hn2 & Hp)|(p & Hp & Hge)].
    + destruct (Ht12 n t2 Hn2) as [(t1 & Hn1 & Hp')|(p & Hp' & Hge)].
      * left. exists t1. split; [done|congruence].
      * right. exists p. split; [congruence|done].
    + right. exists p. split; [done|lia].
  - intros c Hc. destruct (Hc12 c Hc) as [Hsame|Hown]; [|by right].
    destruct (Hc23 c ltac:(lia)) as [Hsame'|(n & t2 & Hn2 & Hp2)].
    + left. congruence.
    + destruct (Ht12 n t2 Hn2) as [(t1 & Hn1 & Hp')|(p & Hp' & Hge)].
      * right. exists n, t1. split; [done|congruence].
      * rewrite Hp2 in Hp'. injection Hp' as ->. lia.
Qed.

(* A step that allocates nothing and gives no task another promise. *)
Lemma evolves_local h h' :
  (forall n t', lookup_task n h' = Some t' ->
     exists t, lookup_task n h = Some t
               /\ m_promise t' = m_promise t /\ m_future t' = m_future t) ->
  length (chans h') = length (chans h) ->
  (forall c, chans h' !! c = chans h !! c \/ owner c h) ->
  evolves h h'.
Proof.
  intros Ht Hlen Hc Hwf. split; [|split; [lia|split]].
  - intros n t' Hn. destruct (Ht n t' Hn) as (t & Hn0 & Hp & Hf).
    destruct (Hwf n t Hn0) as (Hfp & (p & Hpp & Hplt) & Huniq).
    split; [congruence|]. split.
    + exists p. split; [congruence|lia].
    + intros m t'' Hm Hpm. destruct (Ht m t'' Hm) as (t0 & Hm0 & Hp0 & _).
      apply (Huniq m t0 Hm0). congruence.
  - intros n t' Hn. destruct (Ht n t' Hn) as (t & Hn0 & Hp & _). left. eauto.
  - intros c _. apply Hc.
Qed.

Lemma evolves_same h h' :
  (forall n, lookup_task n h' = lookup_task n h) -> chans h' = chans h ->
  evolves h h'.
Proof.
  intros Ht Hc. apply evolves_local.
  - intros n t' Hn. exists t'. by rewrite <- Ht.
  - by rewrite Hc.
  - intros c. left. by rewrite Hc.
Qed.

Lemma evolves_acquire n h : evolves h (acquire n h).
Proof. apply evolves_same; [|done]. intros m. apply lookup_task_acquire. Qed.

Lemma evolves_log e h : evolves h (log e h).
Proof. by apply evolves_same. Qed.

(* Members other than the promise and the future are written. *)
Lemma evolves_store n t t' h :
  lookup_task n h = Some t ->
  m_promise t' = m_promise t -> m_future t' = m_future t ->
  evolves h (store n t' h).
Proof.
  intros Hn Hp Hf. apply evolves_local; [|done|by left].
  intros m tm Hm. destruct (decide (n = m)) as [<-|Hne].
  - rewrite (lookup_task_store_eq _ _ _ _ Hn) in Hm. injection Hm as <-. eauto.
  - rewrite lookup_task_store_ne in Hm by done. eauto.
Qed.

Lemma length_abandon p (cs : list SharedState) : length (abandon p cs) = length cs.
Proof.
  unfold abandon. destruct p as [c|]; [|done].
  destruct (cs !! c) as [[]|]; by rewrite ?length_insert.
Qed.

Lemma lookup_abandon_ne p c (cs : list SharedState) :
  p <> Some c -> abandon p cs !! c = cs !! c.
Proof.
  intros Hne. unfold abandon. destruct p as [c'|]; [|done].
  destruct (cs !! c') as [[]|]; try done.
  apply list_lookup_insert_ne. congruence.
Qed.

Lemma set_value_Ok_inv p v (cs cs' : list SharedState) :
  set_value p v cs = Ok cs' ->
  exists c, p = Some c /\ cs' = <[c := Ready v]> cs.
Proof.
  unfold set_value. destruct p as [c|]; [|done].
  destruct (cs !! c) as [[]|]; try done. intros [= <-]. eauto.
Qed.

(* A live task writes its promise. *)
Lemma evolves_set_value n t v h cs :
  lookup_task n h = Some t ->
  set_value (m_promise t) v (chans h) = Ok cs ->
  evolves h (with_chans cs h).
Proof.
  intros Hn Hset. destruct (set_value_Ok_inv _ _ _ _ Hset) as (c & Hp & ->).
  apply evolves_local.
  - intros m tm Hm. eauto.
  - simpl. apply length_insert.
  - intros c'. simpl. destruct (decide (c = c')) as [<-|Hne].
    + right. by exists n, t.
    + left. by apply list_lookup_insert_ne.
Qed.

(* The task at [n] drops its promise for one on a fresh shared state. *)
Lemma evolves_fresh_promise n t t' h :
  lookup_task n h = Some t ->
  m_promise t' = Some (length (chans h)) ->
  m_future t' = Some (length (chans h)) ->
  evolves h (with_chans (abandon (m_promise t) (chans h ++ [Unfulfilled]))
               (store n t' h)).
Proof.
  intros Hn Hp' Hf' Hwf.
  set (h' := with_chans _ _).
  assert (Hlen : length (chans h') = S (length (chans h))).
  { unfold h'. simpl. rewrite length_abandon, length_app. simpl. lia. }
  assert (Hn' : lookup_task n h' = Some t').
  { unfold h'. rewrite lookup_task_with_chans. by eapply lookup_task_store_eq. }
  assert (Hother : forall m, m <> n -> lookup_task m h' = lookup_task m h).
  { intros m Hm. unfold h'. rewrite lookup_task_with_chans.
    by apply lookup_task_store_ne. }
  assert (Hold : forall m tm, m <> n -> lookup_task m h = Some tm ->
                   m_promise tm <> Some (length (chans h))).
  { intros m tm _ Hm. destruct (Hwf m tm Hm) as (_ & (p & -> & Hplt) & _).
    intros [= ->]. lia. }
  split; [|split; [lia|split]].
  - intros m tm Hm. destruct (decide (m = n)) as [->|Hne].
    + rewrite Hn' in Hm. injection Hm as <-. split; [congruence|]. split.
      * exists (length (chans h)). split; [done|lia].
      * intros m' t'' Hm' Hpm. destruct (decide (m' = n)) as [|Hne']; [done|].
        rewrite Hother in Hm' by done. destruct (Hold m' t'' Hne' Hm'). congruence.
    + rewrite Hother in Hm by done.
      destruct (Hwf m tm Hm) as (Hfp & (p & Hpp & Hplt) & Huniq).
      split; [done|]. split.
      * exists p. split; [done|lia].
      * intros m' t'' Hm' Hpm. destruct (decide (m' = n)) as [->|Hne'].
        -- rewrite Hn' in Hm'. injection Hm' as <-.
           destruct (Hold m tm Hne Hm). congruence.
        -- rewrite Hother in Hm' by done. by apply (Huniq m' t'').
  - intros m tm Hm. destruct (decide (m = n)) as [->|Hne].
    + rewrite Hn' in Hm. injection Hm as <-. right. eauto.
    + rewrite Hother in Hm by done. left. eauto.
  - intros c Hc. destruct (decide (m_promise t = Some c)) as [Hpc|Hpc].
    + right. by exists n, t.
    + left. unfold h'. simpl. rewrite lookup_abandon_ne by done.
      by apply lookup_app_l.
Qed.

Lemma evolves_method_reset n h h' : method n reset h = Ok h' -> evolves h h'.
Proof.
  unfold method. intros H. bind_inv H. apply deref_Ok_inv in Ha.
  unfold reset in H. injection H as <-. by apply evolves_fresh_promise.
Qed.

Lemma evolves_method_pure n (g : Task -> Task) h h' :
  (forall o, m_promise (g o) = m_promise o /\ m_future (g o) = m_future o) ->
  method n (fun o cs => (g o, cs)) h = Ok h' -> evolves h h'.
Proof.
  intros Hg. unfold method. intros H. bind_inv H. apply deref_Ok_inv in Ha.
  injection H as <-. destruct (Hg a) as [Hp Hf].
  transitivity (store n (g a) h); [by eapply evolves_store|by apply evolves_same].
Qed.

Lemma evolves_method_setStatus n s h h' :
  method n (setStatus s) h = Ok h' -> evolves h h'.
Proof.
  unfold method. intros H. bind_inv H. apply deref_Ok_inv in Ha.
  unfold setStatus in H.
  destruct (bool_decide (m_status a = TsDone) && negb (bool_decide (s = TsDone))).
  - unfold reset in H. injection H as <-. by apply evolves_fresh_promise.
  - injection H as <-.
    transitivity (store n (with_status s a) h);
      [by eapply evolves_store|by apply evolves_same].
Qed.

Lemma evolves_trySetFuncResult n t f fut h h' :
  lookup_task n h = Some t ->
  trySetFuncResult n (m_promise t) f fut h = Ok h' -> evolves h h'.
Proof.
  intros Hn. unfold trySetFuncResult. intros H.
  destruct f; repeat bind_inv H; injection H as <-;
    (etransitivity; [eapply (evolves_set_value n t); eassumption|by apply evolves_same]).
Qed.

Lemma evolves_make_shared name color k h :
  evolves h (make_shared_Task name color k h).2.
Proof.
  rewrite make_shared_Task_spec. cbn [snd]. intros Hwf.
  set (tM := new_task name color k (length (chans h))).
  set (h0 := with_chans (chans h ++ [Unfulfilled])
               (with_instanceCount (wrap32 (s_instanceCount h + 1)) h)).
  set (h' := with_tasks _ _).
  assert (Hlen : length (chans h') = S (length (chans h))).
  { unfold h'. simpl. rewrite length_app. simpl. lia. }
  assert (Hnew : lookup_task (length (tasks h)) h' = Some tM)
    by exact (lookup_task_push_new (mkManaged tM 1) h0).
  assert (Hother : forall m, m <> length (tasks h) -> lookup_task m h' = lookup_task m h).
  { intros m Hm. exact (lookup_task_push_old m (mkManaged tM 1) h0 Hm). }
  assert (Hold : forall m tm, lookup_task m h = Some tm ->
                   m <> length (tasks h) /\ m_promise tm <> Some (length (chans h))).
  { intros m tm Hm. split.
    - apply lookup_task_lt in Hm. lia.
    - destruct (Hwf m tm Hm) as (_ & (p & -> & Hplt) & _). intros [= ->]. lia. }
  split; [|split; [lia|split]].
  - intros m tm Hm. destruct (decide (m = length (tasks h))) as [->|Hne].
    + rewrite Hnew in Hm. injection Hm as <-. split; [done|]. split.
      * exists (length (chans h)). split; [done|lia].
      * intros m' t'' Hm' Hpm.
        destruct (decide (m' = length (tasks h))) as [|Hne']; [done|].
        rewrite Hother in Hm' by done. by destruct (Hold m' t'' Hm') as [_ []].
    + rewrite Hother in Hm by done.
      destruct (Hwf m tm Hm) as (Hfp & (p & Hpp & Hplt) & Huniq).
      split; [done|]. split.
      * exists p. split; [done|lia].
      * intros m' t'' Hm' Hpm. destruct (decide (m' = length (tasks h))) as [->|Hne'].
        -- rewrite Hnew in Hm'. injection Hm' as <-.
           destruct (Hold m tm Hm) as [_ []]. by rewrite <- Hpm.
        -- rewrite Hother in Hm' by done. by apply (Huniq m' t'').
  - intros m tm Hm. destruct (decide (m = length (tasks h))) as [->|Hne].
    + rewrite Hnew in Hm. injection Hm as <-. right. eauto.
    + rewrite Hother in Hm by done. left. eauto.
  - intros c Hc. left. unfold h'. simpl. by apply lookup_app_l.
Qed.

Lemma lookup_task_destroyed n m h :
  lookup_task m (with_tasks (<[n:=None]> (tasks h)) h)
  = if decide (n = m) then None else lookup_task m h.
Proof.
  unfold lookup_task. simpl. case_decide as Hnm.
  - subst m. destruct (decide (n < length (tasks h))) as [Hlt|Hge].
    + by rewrite list_lookup_insert_eq.
    + by rewrite lookup_ge_None_2 by (rewrite length_insert; lia).
  - by rewrite list_lookup_insert_ne.
Qed.

Lemma lookup_task_recount n m e k h :
  tasks h !! n = Some (Some e) ->
  lookup_task m (with_tasks (<[n:=Some (mkManaged (object e) k)]> (tasks h)) h)
  = lookup_task m h.
Proof.
  intros En. unfold lookup_task. simpl. destruct (decide (n = m)) as [<-|Hne].
  - rewrite list_lookup_insert_eq by (by eapply lookup_lt_Some). by rewrite En.
  - by rewrite list_lookup_insert_ne.
Qed.

Lemma evolves_abandon_after n t h h2 :
  lookup_task n h = Some t ->
  evolves h h2 ->
  evolves h (with_chans (abandon (m_promise t) (chans h2)) h2).
Proof.
  intros Hn H Hwf. destruct (H Hwf) as (Hwf2 & Hlen & Ht & Hc).
  split; [|split; [|split]].
  - intros m tm Hm. destruct (Hwf2 m tm Hm) as (Hfp & (p & Hpp & Hplt) & Huniq).
    split; [done|]. split; [|done].
    exists p. split; [done|]. simpl. by rewrite length_abandon.
  - simpl. by rewrite length_abandon.
  - exact Ht.
  - intros c Hclt. destruct (decide (m_promise t = Some c)) as [Hpc|Hpc].
    + right. by exists n, t.
    + simpl. rewrite lookup_abandon_ne by done. by apply Hc.
Qed.

Lemma evolves_release fuel : forall n h h', release fuel n h = Ok h' -> evolves h h'.
Proof.
  induction fuel as [|fuel IH]; intros n h h' H; [discriminate|].
  simpl in H. destruct (tasks h !! n) as [[e|]|] eqn:En; try discriminate.
  assert (Hn : lookup_task n h = Some (object e)).
  { unfold lookup_task. by rewrite En. }
  assert (Hlast :
    (perform h1 := Task_dtor (object e) (with_tasks (<[n:=None]> (tasks h)) h) in
     perform h2 := foldM (release fuel) (m_dependencies (object e)) h1 in
     Ok (with_chans (abandon (m_promise (object e)) (chans h2)) h2)) = Ok h' ->
    evolves h h').
  { clear H. intros H. rewrite Task_dtor_Ok in H. cbn [bind] in H. bind_inv H.
    injection H as <-. apply (evolves_abandon_after n); [done|].
    etransitivity; [|eapply (foldM_preserves evolves); eauto].
    apply evolves_local; [|done|by left].
    intros m tm Hm. rewrite lookup_task_with_instanceCount in Hm.
    rewrite lookup_task_destroyed in Hm. case_decide; [done|]. eauto. }
  destruct (use_count e) as [|[|k]]; [by apply Hlast..|].
  injection H as <-. apply evolves_same; [|done].
  intros m. by apply lookup_task_recount.
Qed.

Lemma evolves_addDependencies n deps h h' :
  addDependencies n deps h = Ok h' -> evolves h h'.
Proof.
  unfold addDependencies. intros H. bind_inv H. apply deref_Ok_inv in Ha.
  injection H as <-.
  transitivity (foldr acquire h deps).
  - apply evolves_same; [|clear; by induction deps].
    intros m. apply lookup_task_foldr_acquire.
  - apply (evolves_store n a); [|done..]. by rewrite lookup_task_foldr_acquire.
Qed.

Lemma evolves_addDependencies_pack deps : forall n h h',
  addDependencies_pack n deps h = Ok h' -> evolves h h'.
Proof.
  induction deps as [|d deps IH]; simpl; intros n h h' H; bind_inv H.
  - by injection H as <-.
  - apply deref_Ok_inv in Ha. etransitivity; [|eapply IH; eassumption].
    transitivity (acquire d h); [apply evolves_acquire|].
    apply (evolves_store n a); [|done..]. by rewrite lookup_task_acquire.
Qed.

Lemma evolves_then n f name color h r :
  then_ n f name color h = Ok r -> evolves h r.2.
Proof.
  unfold then_. intros H. bind_inv H.
  pose proof (evolves_make_shared name color true h) as Hmk.
  destruct (make_shared_Task name color true h) as [t h1]. simpl in Hmk.
  repeat bind_inv H. injection H as <-. cbn [snd].
  transitivity h1; [done|].
  transitivity a0.
  { eapply (evolves_method_pure t (moveFunction _)); [|eassumption]. by intros o. }
  transitivity a1; [by eapply evolves_addDependencies_pack|].
  eapply (evolves_method_pure n (with_continuation _)); [|eassumption]. by intros o.
Qed.

Lemma evolves_run_op inv rel :
  (forall n h h', inv n h = Ok h' -> evolves h h') ->
  (forall n h h', rel n h = Ok h' -> evolves h h') ->
  forall op h h', run_op inv rel op h = Ok h' -> evolves h h'.
Proof.
  intros Hinv Hrel op h h' H. destruct op; simpl in H.
  - injection H as <-. apply evolves_make_shared.
  - bind_inv H. injection H as <-. apply evolves_acquire.
  - by eapply Hrel.
  - by eapply Hinv.
  - bind_inv H. injection H as <-. by eapply evolves_then.
  - by eapply evolves_method_setStatus.
  - by eapply evolves_method_reset.
  - eapply (evolves_method_pure n (setFunction f)); [|eassumption]. by intros o.
  - eapply (evolves_method_pure n (setContinuation c)); [|eassumption]. by intros o.
  - by eapply evolves_addDependencies.
  - by eapply evolves_addDependencies_pack.
  - eapply (evolves_method_pure n (setTimeIntervalCollector c)); [|eassumption].
    by intros o.
  - eapply (evolves_method_pure n (setDebugColor c)); [|eassumption]. by intros o.
  - repeat bind_inv H. injection H as <-. apply deref_Ok_inv in Ha.
    by eapply evolves_set_value.
  - repeat bind_inv H. by injection H as <-.
  - repeat bind_inv H. apply deref_Ok_inv in Ha.
    by eapply evolves_trySetFuncResult.
Qed.

Lemma evolves_exec fuel prog h h' : exec fuel prog h = Ok h' -> evolves h h'.
Proof.
  apply (exec_preserves evolves).
  - apply evolves_acquire.
  - apply evolves_log.
  - apply evolves_release.
  - apply evolves_run_op.
Qed.

Lemma setStatus_leaving_Done s t cs :
  m_status t = TsDone -> s <> TsDone ->
  setStatus s t cs = (with_status s (reset t cs).1, (reset t cs).2).
Proof.
  intros Hd Hs. unfold setStatus.
  rewrite bool_decide_eq_true_2 by done. rewrite bool_decide_eq_false_2 by done.
  reflexivity.
Qed.


(* A shared state that holds a value is written by no call, whoever holds
   the promise. *)
#[local] Instance keeps_values_refl : Reflexive keeps_values.
Proof. by intros h c v. Qed.

#[local] Instance keeps_values_trans : Transitive keeps_values.
Proof. intros h1 h2 h3 H12 H23 c v Hc. by apply H23, H12. Qed.
















(* Every heap a client program builds from a heap without tasks is
   well formed. *)
Lemma well_formed_no_tasks h : tasks h = [] -> well_formed h.
Proof.
  intros E n t Hn. unfold lookup_task in Hn. rewrite E in Hn. by destruct n.
Qed.

Lemma well_formed_exec fuel prog h0 h :
  tasks h0 = [] -> exec fuel prog h0 = Ok h -> well_formed h.
Proof.
  intros E H. by destruct (evolves_exec _ _ _ _ H (well_formed_no_tasks _ E)).
Qed.

(** ** Chains of continuations (C4) *)

Lemma well_formed_promise_inj h k k' t t' p :
  well_formed h ->
  lookup_task k h = Some t -> lookup_task k' h = Some t' ->
  m_promise t = Some p -> m_promise t' = Some p -> k = k'.
Proof.
  intros Hwf Hk Hk' Hp Hp'. destruct (Hwf k' t' Hk') as (_ & _ & Huniq).
  apply (Huniq k t Hk). congruence.
Qed.

Lemma evolves_function_stage fuel n t body h h' :
  function_stage fuel n t body h = Ok h' -> evolves h h'.
Proof.
  apply (function_stage_preserves evolves).
  - apply evolves_acquire.
  - apply evolves_log.
  - apply evolves_release.
  - apply evolves_run_op.
Qed.

Lemma armed_frame h h' :
  (forall k, is_Some (lookup_task k h') <-> is_Some (lookup_task k h)) ->
  forall ms P,
    (forall k t, k ∈ P :: (fst <$> ms) -> lookup_task k h = Some t ->
       exists t', lookup_task k h' = Some t'
                  /\ m_continuation t' = m_continuation t
                  /\ m_function t' = m_function t
                  /\ m_promise t' = m_promise t) ->
    (forall k t pk, k ∈ (fst <$> ms) -> lookup_task k h = Some t ->
       m_promise t = Some pk -> chans h' !! pk = chans h !! pk) ->
    (forall k, k ∈ (fst <$> ms) -> strong_count k h <= strong_count k h') ->
    armed h P ms -> armed h' P ms.
Proof.
  intros Hlive ms. induction ms as [|[M f] rest IH]; intros P Hobj Hch Hsc Harm.
  - destruct Harm as (tP & HP & Hexp).
    destruct (Hobj P tP ltac:(apply list_elem_of_here) HP) as (tP' & HP' & Hc & _).
    exists tP'. split; [done|]. rewrite Hc, <- Hexp. by apply expired_ext.
  - destruct Harm as (tP & tM & pM & HP & Hcont & HM & Hf & Hp & Hc & Hs & Hrest).
    rewrite fmap_cons in Hobj, Hch, Hsc. cbn [fst] in Hobj, Hch, Hsc.
    assert (HMin : M ∈ M :: (fst <$> rest)) by apply list_elem_of_here.
    destruct (Hobj P tP ltac:(apply list_elem_of_here) HP) as (tP' & HP' & HcP & _).
    destruct (Hobj M tM ltac:(by apply list_elem_of_further) HM)
      as (tM' & HM' & _ & HfM & HpM).
    exists tP', tM', pM. split; [done|]. split; [congruence|]. split; [done|].
    split; [congruence|]. split; [congruence|]. split.
    { by rewrite (Hch M tM pM). }
    split. { specialize (Hsc M HMin). lia. }
    apply IH; [| | |done].
    + intros k t Hk. apply Hobj. by apply list_elem_of_further.
    + intros k t pk Hk. apply Hch. by apply list_elem_of_further.
    + intros k Hk. apply Hsc. by apply list_elem_of_further.
Qed.

Lemma chain_events_ext h1 h2 ms : forall v,
  (forall k, k ∈ (fst <$> ms) -> lookup_task k h1 = lookup_task k h2) ->
  chain_events h1 v ms = chain_events h2 v ms.
Proof.
  induction ms as [|[M f] rest IH]; intros v H; [done|].
  rewrite fmap_cons in H. cbn [fst] in H. simpl.
  rewrite (H M) by apply list_elem_of_here. f_equal.
  apply IH. intros k Hk. apply H. by apply list_elem_of_further.
Qed.

Lemma chain_done_ext h1 h1' h2 h2' ms : forall v,
  (forall k, k ∈ (fst <$> ms) -> lookup_task k h1 = lookup_task k h2) ->
  (forall k, lookup_task k h1' = lookup_task k h2') ->
  chans h1' = chans h2' ->
  chain_done h1 h1' v ms -> chain_done h2 h2' v ms.
Proof.
  induction ms as [|[M f] rest IH]; intros v H H' Hc Hdone; [done|].
  rewrite fmap_cons in H. cbn [fst] in H.
  destruct Hdone as [(tM & HM & HM' & Hobs) Hrest]. split.
  - exists tM. rewrite <- (H M) by apply list_elem_of_here.
    rewrite <- H', <- Hc. done.
  - apply IH; [|done..]. intros k Hk. apply H. by apply list_elem_of_further.
Qed.

(* Firing the continuation of a task that is done and holds [v]. *)
Lemma fire_armed_chain ms : forall fuel h P tP pP v,
  well_formed h ->
  NoDup (P :: (fst <$> ms)) ->
  lookup_task P h = Some tP ->
  m_status tP = TsDone ->
  m_future tP = Some pP ->
  chans h !! pP = Some (Ready v) ->
  armed h P ms ->
  exists h',
    fire_continuation (length ms + fuel) tP h = Ok h' /\ completed h h' v ms.
Proof.
  induction ms as [|[M f] rest IH];
    intros fuel h P tP pP v Hwf Hnd HP Hdone Hfut Hready Harm.
  - destruct Harm as (tP' & HP' & Hexp).
    assert (tP' = tP) as -> by congruence.
    exists h. split; [apply fire_continuation_skip; by right|].
    repeat split; try done. simpl. by rewrite app_nil_r.
  - destruct Harm as (tP' & tM & pM & HP' & Hcont & HM & Hf & Hp & Hc & Hs & Hrest).
    assert (tP' = tP) as -> by congruence.
    rewrite fmap_cons in Hnd. cbn [fst] in Hnd.
    apply NoDup_cons in Hnd as [HPnotin Hnd].
    pose proof Hnd as Hnd'. apply NoDup_cons in Hnd' as [HMnotin Hndrest].
    assert (HMP : M <> P).
    { intros ->. apply HPnotin, list_elem_of_here. }
    destruct (Hwf M tM HM) as (HfpM & _ & _).
    assert (HfutM : m_future tM = Some pM) by congruence.
    pose proof (lookup_lt_Some _ _ _ Hc) as HpMlt.
    destruct (strong_count M h) as [|cnt] eqn:Hcnt; [lia|].
    (* the function stage of M, on the heap in which lock() holds it *)
    set (ha := acquire M h).
    assert (HMa : lookup_task M ha = Some tM) by (unfold ha; by rewrite lookup_task_acquire).
    assert (HPa : lookup_task P ha = Some tP) by (unfold ha; by rewrite lookup_task_acquire).
    destruct (function_stage_then (length rest + fuel) M P f tM tP pM pP v ha)
      as (h3 & Hstage & HM3 & Hother3 & Hch3 & Htr3 & Hsc3 & Hic3); try done.
    assert (Hwf3 : well_formed h3).
    { apply (evolves_function_stage _ _ _ _ _ _ Hstage).
      by apply (evolves_acquire M h). }
    assert (Hlook3 : forall k, k <> M -> lookup_task k h3 = lookup_task k h).
    { intros k Hk. rewrite Hother3 by done. unfold ha. apply lookup_task_acquire. }
    (* the rest of the chain is still armed *)
    assert (Harm3 : armed h3 M rest).
    { apply (armed_frame h h3); [| | | |exact Hrest].
      - intros k. destruct (decide (k = M)) as [->|Hk].
        + rewrite HM3, HM. split; eauto.
        + by rewrite Hlook3.
      - intros k t Hk Hkt. destruct (decide (k = M)) as [->|Hkne].
        + rewrite HM in Hkt. injection Hkt as <-. eauto.
        + rewrite Hlook3 by done. eauto.
      - intros k t pk Hk Hkt Hpk. rewrite Hch3.
        change (chans ha) with (chans h). apply list_lookup_insert_ne.
        intros <-. apply HMnotin.
        by rewrite (well_formed_promise_inj h M k tM t pM Hwf HM Hkt Hp Hpk).
      - intros k Hk. rewrite Hsc3. unfold ha.
        rewrite strong_count_acquire_ne; [done|]. intros <-. by apply HMnotin. }
    destruct (IH fuel h3 M (with_status TsDone tM) pM (callable_result f v)
                Hwf3 Hnd HM3 eq_refl HfutM)
      as (h4 & Hfire & Hl4 & Hsc4 & Hic4 & Hlen4 & Hch4 & Htr4 & Hdone4);
      [|exact Harm3|].
    { rewrite Hch3. change (chans ha) with (chans h).
      by apply list_lookup_insert_eq. }
    (* operator() on M returns, and the handle lock() took is dropped *)
    assert (Hinv : invoke (S (length rest + fuel)) M ha = Ok h4).
    { rewrite (invoke_unfold _ _ _ _ _ HMa Hf), Hstage. cbn [bind].
      rewrite (deref_Some _ _ _ HM3). cbn [bind].
      by rewrite bool_decide_eq_false_2. }
    assert (Hcnt4 : strong_count M h4 = S (S cnt)).
    { rewrite Hsc4, Hsc3. unfold ha. by rewrite (strong_count_acquire_eq M tM), Hcnt. }
    destruct (release_shared (length rest + fuel) M cnt h4 Hcnt4)
      as (h5 & Hrel & Hl5 & Hch5 & Htr5 & Hic5 & Hsc5 & Hsco5).
    exists h5. split.
    { unfold fire_continuation. rewrite Hdone, Hcont.
      rewrite bool_decide_eq_true_2 by done.
      unfold expired, lock. rewrite (alive_Some _ _ _ HM). cbn [negb andb].
      fold ha. cbn [length Nat.add]. rewrite Hinv. cbn [bind]. exact Hrel. }
    assert (Hrest_look : forall k, k ∈ (fst <$> rest) -> lookup_task k h3 = lookup_task k h).
    { intros k Hk. apply Hlook3. intros ->. by apply HMnotin. }
    unfold completed. rewrite !fmap_cons. cbn [fst].
    split.
    { intros k Hk. apply not_elem_of_cons in Hk as [HkM Hkrest].
      rewrite Hl5, Hl4 by done. by apply Hlook3. }
    split.
    { intros k. destruct (decide (k = M)) as [->|Hk].
      - by rewrite Hsc5.
      - rewrite Hsco5 by done. rewrite Hsc4, Hsc3. unfold ha.
        by rewrite strong_count_acquire_ne. }
    split. { rewrite Hic5, Hic4, Hic3. done. }
    split. { rewrite Hch5, Hlen4, Hch3. by rewrite length_insert. }
    split.
    { intros c Hc'. rewrite Hch5, Hch4.
      - rewrite Hch3. change (chans ha) with (chans h).
        apply list_lookup_insert_ne. intros <-.
        by apply (Hc' M tM ltac:(apply list_elem_of_here) HM).
      - intros k t Hk Hkt. rewrite Hrest_look in Hkt by done.
        apply (Hc' k t); [by apply list_elem_of_further|done]. }
    split.
    { rewrite Htr5, Htr4, Htr3. change (trace ha) with (trace h). simpl.
      rewrite HM. rewrite (chain_events_ext h3 h rest _ Hrest_look).
      by rewrite <- !app_assoc. }
    split.
    + exists tM. split; [done|]. split.
      * rewrite Hl5, Hl4 by done. exact HM3.
      * rewrite Hp. simpl. rewrite Hch5, Hch4.
        -- rewrite Hch3. change (chans ha) with (chans h).
           by apply list_lookup_insert_eq.
        -- intros k t Hk Hkt Hpk. apply HMnotin.
           by rewrite (well_formed_promise_inj h3 M k _ t pM Hwf3 HM3 Hkt Hp Hpk).
    + apply (chain_done_ext h3 h4 h h5); [exact Hrest_look| |by rewrite Hch5|done].
      intros k. by rewrite Hl5.
Qed.

(* The pair of the specification: a producer and the task [then] returns. *)
Lemma then_produce_pair fuel N tN p v f name color h :
  lookup_task N h = Some tN ->
  m_function tN = Some (produce_function N v) ->
  m_promise tN = Some p ->
  m_future tN = Some p ->
  chans h !! p = Some Unfulfilled ->
  exists M h1 h2,
    then_ N f name color h = Ok (M, h1)
    /\ invoke (S (S fuel)) N h1 = Ok h2
    /\ (getStatus <$> lookup_task N h2) = Some TsDone
    /\ future_state N h2 = Some (Ready v)
    /\ (getStatus <$> lookup_task M h2) = Some TsDone
    /\ future_state M h2 = Some (Ready (callable_result f v))
    /\ trace h2 = trace h ++ begin_events tN ++ [EvFunction N] ++ end_events tN
                    ++ [EvFunction M; EvCallable M (callable_arg f v)].
Proof.
  intros HN HfN Hp Hfut Hc.
  destruct (then_spec N f name color tN h HN)
    as (h1 & Hthen & HN1 & HM1 & _ & Hch1 & Htr1 & _ & _ & HscM & _).
  pose proof (lookup_task_lt _ _ _ HN) as HNlt.
  pose proof (lookup_lt_Some _ _ _ Hc) as Hplt.
  set (M := length (tasks h)) in *.
  set (pM := length (chans h)) in *.
  set (tM := with_dependencies [N]
               (with_function (Some (then_function N M f))
                  (new_task name color true pM))) in *.
  assert (HcM : chans h1 !! pM = Some Unfulfilled).
  { rewrite Hch1. rewrite lookup_app_r by (unfold pM; lia).
    unfold pM. by rewrite Nat.sub_diag. }
  assert (Hc1 : chans h1 !! p = Some Unfulfilled).
  { rewrite Hch1. by apply lookup_app_l_Some. }
  destruct (invoke_produce_then fuel N M f (with_continuation (Some M) tN) tM
              p pM v 0 h1 HN1)
    as (h2 & Hinv & HN2 & HM2 & _ & Hch2 & Htr2 & _); try done; try lia.
  - exists M, h1, h2. split; [done|]. split; [done|].
    split. { by rewrite HN2. }
    split.
    { unfold future_state. rewrite HN2. unfold getFuture. simpl. rewrite Hfut.
      simpl. rewrite Hch2, Hch1.
      rewrite list_lookup_insert_ne by (unfold pM; lia).
      apply list_lookup_insert_eq. rewrite length_app. lia. }
    split. { by rewrite HM2. }
    split.
    { unfold future_state. rewrite HM2. simpl. rewrite Hch2.
      apply list_lookup_insert_eq. rewrite length_insert, Hch1, length_app.
      unfold pM. simpl. lia. }
    rewrite Htr2, Htr1. unfold begin_events, end_events. simpl.
    by rewrite ?app_nil_r.
Qed.

(** C4: let [M] be chained behind [N] by [then f], possibly with further
    continuations behind it, none of them run yet, and let the function of
    [N] leave [N] done with the result [v] in its shared state.  A call of
    [operator()] on [N] then returns, and when it does [M] and the tasks
    behind it are done, the callable of [M] has been called (with [v] when
    it takes an argument) and the future of [M] holds what it returned.  In
    particular this holds for a producer of [v] and the task [then] has
    just returned for it. *)
Theorem then_continuation_runs_with_result :
  (forall (fuel : nat) (N M : task_id) (tN tN3 : Task) (body : list Op)
          (pN : chan_id) (v : V) (f : Callable) (rest : list (task_id * Callable))
          (h h3 : Heap),
      lookup_task N h = Some tN ->
      m_function tN = Some body ->
      function_stage (S (length rest) + fuel) N tN body h = Ok h3 ->
      well_formed h3 ->
      NoDup (N :: M :: (fst <$> rest)) ->
      lookup_task N h3 = Some tN3 ->
      m_status tN3 = TsDone ->
      m_future tN3 = Some pN ->
      chans h3 !! pN = Some (Ready v) ->
      armed h3 N ((M, f) :: rest) ->
      exists h2,
        invoke (S (S (length rest) + fuel)) N h = Ok h2
        /\ (getStatus <$> lookup_task N h2) = Some TsDone
        /\ future_state N h2 = Some (Ready v)
        /\ (getStatus <$> lookup_task M h2) = Some TsDone
        /\ future_state M h2 = Some (Ready (callable_result f v))
        /\ trace h2 = trace h3 ++ chain_events h3 v ((M, f) :: rest)
        /\ chain_done h3 h2 v ((M, f) :: rest))
  /\ (forall (fuel : nat) (N : task_id) (tN : Task) (p : chan_id) (v : V)
            (f : Callable) (name : string) (color : option Color) (h : Heap),
      lookup_task N h = Some tN ->
      m_function tN = Some (produce_function N v) ->
      m_promise tN = Some p ->
      m_future tN = Some p ->
      chans h !! p = Some Unfulfilled ->
      exists M h1 h2,
        then_ N f name color h = Ok (M, h1)
        /\ invoke (S (S fuel)) N h1 = Ok h2
        /\ (getStatus <$> lookup_task N h2) = Some TsDone
        /\ future_state N h2 = Some (Ready v)
        /\ (getStatus <$> lookup_task M h2) = Some TsDone
        /\ future_state M h2 = Some (Ready (callable_result f v))
        /\ trace h2 = trace h ++ begin_events tN ++ [EvFunction N] ++ end_events tN
                        ++ [EvFunction M; EvCallable M (callable_arg f v)]).
Proof.
  split; [|intros; by eapply then_produce_pair].
  intros fuel N M tN tN3 body pN v f rest h h3
    HN Hf Hstage Hwf3 Hnd HN3 Hdone Hfut Hready Harm.
  destruct (fire_armed_chain ((M, f) :: rest) fuel h3 N tN3 pN v
              Hwf3 Hnd HN3 Hdone Hfut Hready Harm)
    as (h2 & Hfire & Hl & _ & _ & _ & Hch & Htr & Hchain).
  apply NoDup_cons in Hnd as [HNnotin _].
  exists h2. split.
  { rewrite (invoke_unfold _ _ _ _ _ HN Hf), Hstage. cbn [bind].
    rewrite (deref_Some _ _ _ HN3). cbn [bind].
    rewrite bool_decide_eq_false_2 by (rewrite Hdone; done). exact Hfire. }
  assert (HN2 : lookup_task N h2 = Some tN3) by (rewrite Hl; done).
  split. { by rewrite HN2, <- Hdone. }
  split.
  { unfold future_state. rewrite HN2. unfold getFuture. rewrite Hfut. simpl.
    rewrite Hch; [done|]. intros k t Hk Hkt Hpk. apply HNnotin.
    destruct (Hwf3 N tN3 HN3) as (Hfp & _ & _).
    rewrite (well_formed_promise_inj h3 N k tN3 t pN Hwf3 HN3 Hkt); [done|congruence|done]. }
  pose proof Hchain as [(tM & HM3 & HM2 & Hobs) _].
  destruct (Hwf3 M tM HM3) as (HfpM & _ & _).
  split. { by rewrite HM2. }
  split. { unfold future_state. rewrite HM2. unfold getFuture. simpl. by rewrite HfpM. }
  done.
Qed.

(** * Further properties of the class *)

(** ** Construction *)

Lemma invoke_new_task fuel name color isCont h :
  invoke (S fuel) (make_shared_Task name color isCont h).1
    (make_shared_Task name color isCont h).2 = Abort AssertFunction.
Proof.
  rewrite make_shared_Task_spec. cbn [fst snd].
  apply (invoke_no_function fuel _ _ (new_task name color isCont (length (chans h))));
    [|reflexivity].
  exact (lookup_task_push_new (mkManaged (new_task name color isCont (length (chans h))) 1)
           (with_chans (chans h ++ [Unfulfilled])
              (with_instanceCount (wrap32 (s_instanceCount h + 1)) h))).
Qed.

(** X1: [std::make_shared<Task<T>>(name, color, isContinuation)] puts the
    new task at an address that was never used, owned by the one handle it
    returns, and leaves every other task, every shared state and the trace
    as they were.  The new task is invalid, has no function, no
    continuation, no dependencies and no collector; its colour is the one
    given, or white for a null pointer; its promise and its future are on
    one shared state that did not exist before and is unfulfilled.  Until
    it is given a function, [operator()] on it fails the first assertion. *)
Theorem make_shared_Task_initial_state :
  forall (name : string) (color : option Color) (isCont : bool) (h : Heap),
    let n := (make_shared_Task name color isCont h).1 in
    let h' := (make_shared_Task name color isCont h).2 in
    tasks h !! n = None
    /\ strong_count n h' = 1
    /\ (forall k, k <> n ->
          lookup_task k h' = lookup_task k h /\ strong_count k h' = strong_count k h)
    /\ (forall c st, chans h !! c = Some st -> chans h' !! c = Some st)
    /\ trace h' = trace h
    /\ (exists t p,
          lookup_task n h' = Some t
          /\ getStatus t = TsInvalid
          /\ getFunction t = None
          /\ getContinuation t = None
          /\ getDependencies t = []
          /\ getTimeIntervalCollector None t = None
          /\ m_name t = name
          /\ isContinuation t = isCont
          /\ getDebugColor t
             = (if color is Some c then c else (float_one, float_one, float_one))
          /\ getPromise t = Some p
          /\ getFuture t = Some p
          /\ chans h !! p = None
          /\ chans h' !! p = Some Unfulfilled)
    /\ (forall fuel, invoke (S fuel) n h' = Abort AssertFunction).
Proof.
  intros name color isCont h n h'.
  assert (Hinv : forall fuel, invoke (S fuel) n h' = Abort AssertFunction).
  { intros fuel. apply invoke_new_task. }
  revert Hinv. unfold n, h'. rewrite make_shared_Task_spec. cbn [fst snd].
  intros Hinv.
  set (h1 := with_chans _ _).
  split. { by apply lookup_ge_None_2. }
  split. { exact (strong_count_push_new _ h1). }
  split.
  { intros k Hk. split.
    - exact (lookup_task_push_old k _ h1 Hk).
    - exact (strong_count_push_old k _ h1 Hk). }
  split. { intros c st Hc. simpl. by apply lookup_app_l_Some. }
  split; [done|]. split; [|done].
  eexists _, (length (chans h)). split.
  { exact (lookup_task_push_new _ h1). }
  simpl. repeat split.
  - by apply lookup_ge_None_2.
  - rewrite lookup_app_r by lia. by rewrite Nat.sub_diag.
Qed.

(** ** The status setter *)

(** X2: [setStatus] records the status it is given and changes no member
    besides the status, the promise and the future; a value a shared state
    already holds stays in it.  Setting the same status twice is setting
    it once: the second call never resets the result channel again. *)
Theorem setStatus_idempotent :
  forall (s : TaskStatus) (t : Task) (cs : list SharedState),
    let t' := (setStatus s t cs).1 in
    let cs' := (setStatus s t cs).2 in
    getStatus t' = s
    /\ setStatus s t' cs' = (t', cs')
    /\ getFunction t' = getFunction t
    /\ getContinuation t' = getContinuation t
    /\ getDependencies t' = getDependencies t
    /\ getTimeIntervalCollector None t' = getTimeIntervalCollector None t
    /\ getDebugColor t' = getDebugColor t
    /\ isContinuation t' = isContinuation t
    /\ m_name t' = m_name t
    /\ (forall c v, cs !! c = Some (Ready v) -> cs' !! c = Some (Ready v)).
Proof.
  intros s t cs t' cs'. unfold t', cs', setStatus.
  destruct (decide (m_status t = TsDone)) as [Hd|Hd];
    destruct (decide (s = TsDone)) as [Hs|Hs];
    rewrite ?(bool_decide_eq_true_2 _ Hd), ?(bool_decide_eq_false_2 _ Hd),
            ?(bool_decide_eq_true_2 _ Hs), ?(bool_decide_eq_false_2 _ Hs);
    cbn [andb negb reset fst snd with_status with_future with_promise getStatus
         m_status];
    rewrite ?(bool_decide_eq_true_2 _ Hs), ?(bool_decide_eq_false_2 _ Hs),
            ?andb_false_r;
    repeat split; try done.
  intros c v Hc. unfold abandon.
  assert (Hc' : (cs ++ [Unfulfilled]) !! c = Some (Ready v)) by (by apply lookup_app_l_Some).
  destruct (m_promise t) as [p|]; [|done].
  destruct ((cs ++ [Unfulfilled]) !! p) as [[]|] eqn:Ep; try done.
  rewrite list_lookup_insert_ne; [done|]. intros ->. congruence.
Qed.

(** ** The recursion budget *)

Lemma bind_fuel_inv {A B} (r : Result A) (k : A -> Result B) :
  bind r k <> OutOfFuel ->
  r <> OutOfFuel /\ (forall a, r = Ok a -> k a <> OutOfFuel).
Proof.
  destruct r; simpl; intros H; split; try done. by intros a' [= ->].
Qed.

Lemma bind_stable {A B} (r r' : Result A) (k k' : A -> Result B) :
  (r <> OutOfFuel -> r' = r) ->
  (forall a, r = Ok a -> k a <> OutOfFuel -> k' a = k a) ->
  bind r k <> OutOfFuel -> bind r' k' = bind r k.
Proof.
  intros Hr Hk H. apply bind_fuel_inv in H as [H1 H2]. rewrite (Hr H1).
  destruct r; try done. simpl. apply Hk; [done|]. by apply H2.
Qed.

Lemma foldM_stable {A B} (f g : B -> A -> Result A) (l : list B) :
  (forall x a, f x a <> OutOfFuel -> g x a = f x a) ->
  forall a, foldM f l a <> OutOfFuel -> foldM g l a = foldM f l a.
Proof.
  intros Hfg. induction l as [|x l IH]; intros a H; [done|].
  simpl in *. apply bind_stable; [apply Hfg| |done].
  intros a' _. apply IH.
Qed.

Lemma release_stable fuel : forall n h,
  release fuel n h <> OutOfFuel -> release (S fuel) n h = release fuel n h.
Proof.
  induction fuel as [|fuel IH]; intros n h H; [done|].
  change (release (S (S fuel)) n h) with
    (match tasks h !! n with
     | Some (Some e) =>
         match use_count e with
         | S (S k) =>
             Ok (with_tasks (<[n := Some (mkManaged (object e) (S k))]> (tasks h)) h)
         | _ =>
             perform h1 := Task_dtor (object e) (with_tasks (<[n := None]> (tasks h)) h) in
             perform h2 := foldM (release (S fuel)) (m_dependencies (object e)) h1 in
             Ok (with_chans (abandon (m_promise (object e)) (chans h2)) h2)
         end
     | _ => Undefined
     end).
  change (release (S fuel) n h) with
    (match tasks h !! n with
     | Some (Some e) =>
         match use_count e with
         | S (S k) =>
             Ok (with_tasks (<[n := Some (mkManaged (object e) (S k))]> (tasks h)) h)
         | _ =>
             perform h1 := Task_dtor (object e) (with_tasks (<[n := None]> (tasks h)) h) in
             perform h2 := foldM (release fuel) (m_dependencies (object e)) h1 in
             Ok (with_chans (abandon (m_promise (object e)) (chans h2)) h2)
         end
     | _ => Undefined
     end) in H |- *.
  destruct (tasks h !! n) as [[e|]|]; try done.
  assert (Hlast : forall h0,
    (perform h1 := Task_dtor (object e) h0 in
     perform h2 := foldM (release fuel) (m_dependencies (object e)) h1 in
     Ok (with_chans (abandon (m_promise (object e)) (chans h2)) h2)) <> OutOfFuel ->
    (perform h1 := Task_dtor (object e) h0 in
     perform h2 := foldM (release (S fuel)) (m_dependencies (object e)) h1 in
     Ok (with_chans (abandon (m_promise (object e)) (chans h2)) h2))
    = (perform h1 := Task_dtor (object e) h0 in
       perform h2 := foldM (release fuel) (m_dependencies (object e)) h1 in
       Ok (with_chans (abandon (m_promise (object e)) (chans h2)) h2))).
  { intros h0. apply bind_stable; [done|]. intros h1 _.
    apply bind_stable; [|done]. by apply foldM_stable. }
  destruct (use_count e) as [|[|k]]; [by apply Hlast..|done].
Qed.

Lemma run_op_stable (inv inv' rel rel' : task_id -> Heap -> Result Heap) op h :
  (forall n h, inv n h <> OutOfFuel -> inv' n h = inv n h) ->
  (forall n h, rel n h <> OutOfFuel -> rel' n h = rel n h) ->
  run_op inv rel op h <> OutOfFuel -> run_op inv' rel' op h = run_op inv rel op h.
Proof.
  intros Hinv Hrel. destruct op; simpl; try done.
  - apply Hrel.
  - apply Hinv.
Qed.

Lemma invoke_stable fuel : forall n h,
  invoke fuel n h <> OutOfFuel -> invoke (S fuel) n h = invoke fuel n h.
Proof.
  induction fuel as [|fuel IH]; intros n h H; [done|].
  change (invoke (S (S fuel)) n h) with
    (perform t := deref n h in
     match m_function t with
     | None => Abort AssertFunction
     | Some body =>
         let h1 := scope_begin (m_collector t) (m_name t) (m_debugColor t) h in
         perform h2 := foldM (run_op (invoke (S fuel)) (release (S fuel))) body
                         (log (EvFunction n) h1) in
         let h3 := scope_end (m_collector t) h2 in
         perform t' := deref n h3 in
         if bool_decide (m_status t' = TsInvalid) then Abort AssertStatusNotInvalid
         else if bool_decide (m_status t' = TsDone)
                 && negb (expired (m_continuation t') h3)
         then
           match lock (m_continuation t') h3 with
           | Some c =>
               perform h4 := invoke (S fuel) c (acquire c h3) in
               release (S fuel) c h4
           | None => Abort AssertFalse
           end
         else Ok h3
     end).
  change (invoke (S fuel) n h) with
    (perform t := deref n h in
     match m_function t with
     | None => Abort AssertFunction
     | Some body =>
         let h1 := scope_begin (m_collector t) (m_name t) (m_debugColor t) h in
         perform h2 := foldM (run_op (invoke fuel) (release fuel)) body
                         (log (EvFunction n) h1) in
         let h3 := scope_end (m_collector t) h2 in
         perform t' := deref n h3 in
         if bool_decide (m_status t' = TsInvalid) then Abort AssertStatusNotInvalid
         else if bool_decide (m_status t' = TsDone)
                 && negb (expired (m_continuation t') h3)
         then
           match lock (m_continuation t') h3 with
           | Some c =>
               perform h4 := invoke fuel c (acquire c h3) in
               release fuel c h4
           | None => Abort AssertFalse
           end
         else Ok h3
     end) in H |- *.
  revert H. apply bind_stable; [done|]. intros t _.
  destruct (m_function t) as [body|]; [|done]. cbv zeta.
  apply bind_stable.
  { apply foldM_stable. intros op a. apply run_op_stable; [apply IH|apply release_stable]. }
  intros h2 _. apply bind_stable; [done|]. intros t' _.
  destruct (bool_decide (m_status t' = TsInvalid)); [done|].
  destruct (bool_decide (m_status t' = TsDone) && negb (expired (m_continuation t') _));
    [|done].
  destruct (lock (m_continuation t') _) as [c|]; [|done].
  apply bind_stable; [apply IH|]. intros h4 _. apply release_stable.
Qed.

(** ** Ownership and lifetime *)

Lemma occurrences_cons k d l :
  occurrences k (d :: l) = (if decide (d = k) then 1 else 0) + occurrences k l.
Proof. unfold occurrences. rewrite filter_cons. by case_decide. Qed.

Lemma occurrences_app k l1 l2 :
  occurrences k (l1 ++ l2) = occurrences k l1 + occurrences k l2.
Proof. unfold occurrences. by rewrite filter_app, length_app. Qed.

Lemma occurrences_elem_of k l : k ∈ l -> 0 < occurrences k l.
Proof.
  induction l as [|d l IH]; intros Hk; [by apply elem_of_nil in Hk|].
  rewrite occurrences_cons. apply elem_of_cons in Hk as [->|Hk].
  - rewrite decide_True by done. lia.
  - specialize (IH Hk). lia.
Qed.

Lemma sum_seq_S (F : nat -> nat) a n :
  sum_list (F <$> seq a (S n)) = F a + sum_list (F <$> seq (S a) n).
Proof. reflexivity. Qed.

Lemma sum_seq_zero (F : nat -> nat) n : forall a,
  (forall i, a <= i -> F i = 0) -> sum_list (F <$> seq a n) = 0.
Proof.
  induction n as [|n IH]; intros a H; [done|]. rewrite sum_seq_S.
  rewrite H by lia. rewrite IH; [done|]. intros i Hi. apply H. lia.
Qed.

Lemma sum_seq_ext (F F' : nat -> nat) n : forall a,
  (forall i, a <= i -> F' i = F i) ->
  sum_list (F' <$> seq a n) = sum_list (F <$> seq a n).
Proof.
  induction n as [|n IH]; intros a H; [done|]. rewrite !sum_seq_S.
  rewrite H by lia. rewrite (IH (S a)); [done|]. intros i Hi. apply H. lia.
Qed.

Lemma sum_seq_change (F F' : nat -> nat) m n : forall a,
  (forall i, i <> m -> F' i = F i) ->
  a <= m < a + n ->
  sum_list (F' <$> seq a n) + F m = sum_list (F <$> seq a n) + F' m.
Proof.
  induction n as [|n IH]; intros a H Hm; [lia|]. rewrite !sum_seq_S.
  destruct (decide (a = m)) as [->|Hne].
  - rewrite (sum_seq_ext F F' n (S m)); [lia|]. intros i Hi. apply H. lia.
  - rewrite (H a Hne). specialize (IH (S a) H). lia.
Qed.

Lemma dep_refs_bound k h N :
  length (tasks h) <= N ->
  dep_refs k h = sum_list ((fun n => held k (lookup_task n h)) <$> seq 0 N).
Proof.
  intros Hle. unfold dep_refs.
  replace N with (length (tasks h) + (N - length (tasks h))) by lia.
  rewrite seq_app, fmap_app, sum_list_with_app. rewrite (sum_seq_zero _ (N - _)); [lia|].
  intros i Hi. unfold lookup_task. rewrite lookup_ge_None_2; [done|lia].
Qed.

(* The handles held change with the dependency vector of one task. *)
Lemma dep_refs_change k m h h' :
  (forall n, n <> m -> held k (lookup_task n h') = held k (lookup_task n h)) ->
  dep_refs k h' + held k (lookup_task m h) = dep_refs k h + held k (lookup_task m h').
Proof.
  intros H. set (N := S (m `max` (length (tasks h) `max` length (tasks h')))).
  rewrite (dep_refs_bound k h N), (dep_refs_bound k h' N) by lia.
  apply (sum_seq_change (fun n => held k (lookup_task n h))
           (fun n => held k (lookup_task n h')) m N 0); [done|lia].
Qed.

Lemma dep_refs_same k h h' :
  (forall n, held k (lookup_task n h') = held k (lookup_task n h)) ->
  dep_refs k h' = dep_refs k h.
Proof.
  intros H. pose proof (dep_refs_change k 0 h h' (fun n _ => H n)) as Hc.
  rewrite H in Hc. lia.
Qed.

Lemma held_le_dep_refs k m h : held k (lookup_task m h) <= dep_refs k h.
Proof.
  set (F := fun n => held k (lookup_task n h)).
  set (N := S (m `max` length (tasks h))).
  rewrite (dep_refs_bound k h N) by lia.
  assert (Hc : sum_list ((fun n => if decide (n = m) then 0 else F n) <$> seq 0 N) + F m
               = sum_list (F <$> seq 0 N) + 0).
  { rewrite (sum_seq_change F (fun n => if decide (n = m) then 0 else F n) m N 0).
    - cbv beta. by rewrite decide_True.
    - intros i Hi. cbv beta. by rewrite decide_False.
    - lia. }
  change (F m <= sum_list (F <$> seq 0 N)). lia.
Qed.

Lemma strong_count_alive k h : 0 < strong_count k h -> alive k h = true.
Proof.
  unfold strong_count, alive, lookup_task.
  destruct (tasks h !! k) as [[e|]|]; [done|lia..].
Qed.

(* With sound counts, the dependencies of a live task are alive. *)
Lemma ref_sound_dependency k t d h :
  ref_sound h -> lookup_task k h = Some t -> d ∈ m_dependencies t ->
  0 < strong_count d h.
Proof.
  intros Hs Hk Hd. pose proof (held_le_dep_refs d k h) as Hle. rewrite Hk in Hle.
  simpl in Hle. pose proof (occurrences_elem_of _ _ Hd). specialize (Hs d). lia.
Qed.

Lemma live_count_recount n e k h :
  tasks h !! n = Some (Some e) ->
  live_count (with_tasks (<[n:=Some (mkManaged (object e) k)]> (tasks h)) h)
  = live_count h.
Proof.
  intros En. rewrite !live_count_eq. simpl. rewrite list_insert_alter.
  apply live_alter_same. intros x Hx. rewrite En in Hx. injection Hx as <-.
  split; eauto.
Qed.

Lemma strong_count_insert n m x h :
  n < length (tasks h) ->
  strong_count m (with_tasks (<[n:=x]> (tasks h)) h)
  = if decide (n = m) then match x with Some e => use_count e | None => 0 end
    else strong_count m h.
Proof.
  intros Hlt. unfold strong_count. simpl. case_decide as Hnm.
  - subst m. by rewrite list_lookup_insert_eq.
  - by rewrite list_lookup_insert_ne.
Qed.

#[local] Instance survivors_refl : Reflexive survivors.
Proof. by intros h k t. Qed.

#[local] Instance survivors_trans : Transitive survivors.
Proof. intros h1 h2 h3 H12 H23 k t Hk. by apply H12, H23. Qed.

Lemma self_supporting_ext ks h h' :
  (forall s, s ∈ ks -> lookup_task s h' = lookup_task s h) ->
  self_supporting ks h -> self_supporting ks h'.
Proof.
  intros Hl Hs s Hin. destruct (Hs s Hin) as (s' & t' & Hin' & Hs' & Hd).
  exists s', t'. split; [done|]. split; [|done]. by rewrite Hl.
Qed.

(* Dropping a handle that is counted, with the handles still to be
   dropped after it.  The tasks of a self-supporting set [ks] are out of
   reach of the destructors. *)
Lemma release_pending ks fuel : forall d rest h,
  ref_sound_pending h (d :: rest) ->
  self_supporting ks h ->
  live_count h < fuel ->
  exists h',
    release fuel d h = Ok h'
    /\ ref_sound_pending h' rest
    /\ live_count h' <= live_count h
    /\ survivors h h'
    /\ (forall s, s ∈ ks -> lookup_task s h' = lookup_task s h).
Proof.
  induction fuel as [|fuel IH]; intros d rest h Hinv HS Hfuel; [lia|].
  assert (IHs : forall pend rest0 h0,
    ref_sound_pending h0 (pend ++ rest0) ->
    self_supporting ks h0 ->
    live_count h0 < fuel ->
    exists h', foldM (release fuel) pend h0 = Ok h'
               /\ ref_sound_pending h' rest0
               /\ live_count h' <= live_count h0
               /\ survivors h0 h'
               /\ (forall s, s ∈ ks -> lookup_task s h' = lookup_task s h0)).
  { induction pend as [|x pend IHp]; intros rest0 h0 Hi HS0 Hf.
    - exists h0. simpl. split; [done|]. split; [done|]. split; [lia|].
      split; [reflexivity|done].
    - destruct (IH x (pend ++ rest0) h0 Hi HS0 Hf) as (h1 & Hr & Hi1 & Hl1 & Hs1 & HS1).
      destruct (IHp rest0 h1 Hi1 (self_supporting_ext _ _ _ HS1 HS0) ltac:(lia))
        as (h2 & Hr2 & Hi2 & Hl2 & Hs2 & HS2).
      exists h2. simpl. rewrite Hr. cbn [bind]. split; [done|]. split; [done|].
      split; [lia|]. split; [by transitivity h1|].
      intros s Hin. by rewrite HS2, HS1. }
  pose proof (Hinv d) as Hd. rewrite occurrences_cons in Hd.
  rewrite decide_True in Hd by done.
  simpl. unfold strong_count in Hd.
  destruct (tasks h !! d) as [[e|]|] eqn:Ed; [|lia..].
  pose proof (lookup_lt_Some _ _ _ Ed) as Hlt.
  assert (Hd_look : lookup_task d h = Some (object e)).
  { unfold lookup_task. by rewrite Ed. }
  destruct (use_count e) as [|[|c]] eqn:Ec; [lia| |].
  - rewrite Task_dtor_Ok. cbn [bind].
    set (h1 := with_instanceCount _ _).
    assert (Hlook1 : forall m,
      lookup_task m h1 = if decide (d = m) then None else lookup_task m h).
    { intros m. unfold h1. rewrite lookup_task_with_instanceCount.
      apply lookup_task_destroyed. }
    assert (Hrefs : forall k,
      dep_refs k h1 + occurrences k (m_dependencies (object e)) = dep_refs k h).
    { intros k. pose proof (dep_refs_change k d h h1) as Hc.
      rewrite Hd_look, (Hlook1 d), decide_True in Hc by done. simpl in Hc.
      rewrite Nat.add_0_r in Hc. apply Hc. intros n Hn. rewrite Hlook1.
      by rewrite decide_False. }
    assert (Hcount1 : forall k,
      strong_count k h1 = if decide (d = k) then 0 else strong_count k h).
    { intros k. unfold h1.
      change (strong_count k (with_instanceCount ?c ?x)) with (strong_count k x).
      by rewrite strong_count_insert. }
    assert (Hi1 : ref_sound_pending h1 (m_dependencies (object e) ++ rest)).
    { intros k. rewrite occurrences_app. pose proof (Hinv k) as Hk.
      rewrite occurrences_cons in Hk. specialize (Hrefs k). rewrite Hcount1.
      case_decide as Hdk.
      - subst k. lia.
      - lia. }
    assert (Hlive1 : S (live_count h1) = live_count h).
    { unfold h1. rewrite !live_count_eq. simpl. by eapply live_insert_None. }
    assert (HdS : d ∉ ks).
    { intros Hin. destruct (HS d Hin) as (s' & t' & _ & Hs' & Hdep).
      pose proof (held_le_dep_refs d s' h) as Hle. rewrite Hs' in Hle. simpl in Hle.
      pose proof (occurrences_elem_of _ _ Hdep). lia. }
    assert (HS1 : forall s, s ∈ ks -> lookup_task s h1 = lookup_task s h).
    { intros s Hin. rewrite Hlook1. rewrite decide_False; [done|]. by intros ->. }
    destruct (IHs _ rest h1 Hi1 (self_supporting_ext _ _ _ HS1 HS) ltac:(lia))
      as (h2 & Hr2 & Hi2 & Hl2 & Hs2 & HS2).
    rewrite Hr2. cbn [bind]. eexists. split; [done|]. split; [exact Hi2|].
    split. { change (live_count (with_chans ?c ?x)) with (live_count x). lia. }
    split.
    { intros k t Hk. rewrite lookup_task_with_chans in Hk. apply Hs2 in Hk.
      rewrite Hlook1 in Hk. by case_decide. }
    intros s Hin. rewrite lookup_task_with_chans. by rewrite HS2, HS1.
  - eexists. split; [done|]. split.
    + intros k. pose proof (Hinv k) as Hk. rewrite occurrences_cons in Hk.
      rewrite strong_count_insert by done. simpl.
      rewrite (dep_refs_same k h).
      * destruct (decide (d = k)) as [<-|Hdk]; simpl in Hk.
        -- unfold strong_count in Hk. rewrite Ed, Ec in Hk. lia.
        -- lia.
      * intros n. by rewrite (lookup_task_recount d n e _ h Ed).
    + split. { rewrite (live_count_recount d e _ h Ed). lia. }
      split.
      * intros k t Hk. by rewrite (lookup_task_recount d k e _ h Ed) in Hk.
      * intros s Hin. by rewrite (lookup_task_recount d s e _ h Ed).
Qed.

(** X4: reference counts are sound when every handle held in a dependency
    vector of a live task is counted by the control block of its target.
    On such a heap, dropping a handle that a client holds (one the count
    has beyond those of the dependency vectors) always returns, however
    long the chain of destructors it sets off: every task it destroys
    gives back the handles of its dependencies in turn.  The counts are
    sound again afterwards, no task is created, the tasks that survive are
    unchanged, and every dependency of a surviving task is still alive. *)
Theorem release_keeps_ref_sound (fuel : nat) (n : task_id) (h : Heap) :
  ref_sound h ->
  dep_refs n h < strong_count n h ->
  live_count h < fuel ->
  exists h',
    release fuel n h = Ok h'
    /\ ref_sound h'
    /\ live_count h' <= live_count h
    /\ survivors h h'
    /\ (forall k t d, lookup_task k h' = Some t -> d ∈ m_dependencies t ->
          alive d h' = true).
Proof.
  intros Hs Hn Hfuel.
  destruct (release_pending [] fuel n [] h) as (h' & Hr & Hi & Hl & Hsv & _);
    [|by intros s Hin; apply elem_of_nil in Hin|done|].
  { intros k. rewrite occurrences_cons. specialize (Hs k).
    destruct (decide (n = k)) as [<-|Hne]; unfold occurrences; simpl; lia. }
  assert (Hs' : ref_sound h').
  { intros k. specialize (Hi k). unfold occurrences in Hi. simpl in Hi. lia. }
  exists h'. split; [done|]. split; [done|]. split; [done|]. split; [done|].
  intros k t d Hk Hd. apply strong_count_alive. by eapply ref_sound_dependency.
Qed.

(** X5: tasks on a cycle of the dependency graph are never reclaimed.
    Let every task of a set be a dependency of a live task of the set, as
    a task that was added to its own dependencies is, or two tasks that
    were added to each other's.  Whatever handle a client drops, and
    whatever the destructors then destroy, the tasks of the set stay alive
    and unchanged, and so does the property of the set. *)
Theorem dependency_cycles_are_never_destroyed (fuel : nat) (n : task_id)
    (ks : list task_id) (h : Heap) :
  ref_sound h ->
  self_supporting ks h ->
  dep_refs n h < strong_count n h ->
  live_count h < fuel ->
  exists h',
    release fuel n h = Ok h'
    /\ ref_sound h'
    /\ self_supporting ks h'
    /\ (forall s, s ∈ ks -> alive s h' = true /\ lookup_task s h' = lookup_task s h).
Proof.
  intros Hs Hks Hn Hfuel.
  destruct (release_pending ks fuel n [] h) as (h' & Hr & Hi & _ & _ & Hsame);
    [|done..|].
  { intros k. rewrite occurrences_cons. specialize (Hs k).
    destruct (decide (n = k)) as [<-|Hne]; unfold occurrences; simpl; lia. }
  assert (Hs' : ref_sound h').
  { intros k. specialize (Hi k). unfold occurrences in Hi. simpl in Hi. lia. }
  pose proof (self_supporting_ext _ _ _ Hsame Hks) as Hks'.
  exists h'. split; [done|]. split; [done|]. split; [done|].
  intros s Hin. split; [|by apply Hsame].
  destruct (Hks' s Hin) as (s' & t' & _ & Hs't & Hdep).
  apply strong_count_alive. by eapply ref_sound_dependency.
Qed.

Lemma heap_eta h : with_tasks (tasks h) h = h.
Proof. by destruct h. Qed.

Lemma store_same n t h : lookup_task n h = Some t -> store n t h = h.
Proof.
  unfold lookup_task, store. intros Hn.
  assert (E : alter (set_object t) n (tasks h) = tasks h).
  { rewrite <- (list_alter_id id (tasks h) n) at 2 by done.
    apply list_alter_ext; [|done]. intros x Hx. rewrite Hx in Hn.
    destruct x as [[o c]|]; [|done]. simpl in *. by injection Hn as ->. }
  rewrite E. apply heap_eta.
Qed.

Lemma store_store n t t' h : store n t' (store n t h) = store n t' h.
Proof.
  unfold store. simpl. unfold with_tasks. simpl. f_equal.
  rewrite list_alter_alter_eq. apply list_alter_ext; [|done].
  by intros [x|] _.
Qed.

Lemma acquire_store d n t h : acquire d (store n t h) = store n t (acquire d h).
Proof.
  unfold acquire, store. simpl. unfold with_tasks. simpl. f_equal.
  destruct (decide (d = n)) as [->|Hne].
  - rewrite !list_alter_alter_eq. apply list_alter_ext; [|done]. by intros [x|] _.
  - by apply list_alter_alter_ne.
Qed.

Lemma acquire_acquire d d' h : acquire d (acquire d' h) = acquire d' (acquire d h).
Proof.
  unfold acquire. simpl. unfold with_tasks. simpl. f_equal.
  destruct (decide (d = d')) as [->|Hne]; [done|]. by apply list_alter_alter_ne.
Qed.

Lemma foldr_acquire_store ds n t h :
  foldr acquire (store n t h) ds = store n t (foldr acquire h ds).
Proof.
  induction ds as [|d ds IH]; simpl; [done|]. by rewrite IH, acquire_store.
Qed.

Lemma foldr_acquire_acquire ds d h :
  foldr acquire (acquire d h) ds = acquire d (foldr acquire h ds).
Proof.
  induction ds as [|d' ds IH]; simpl; [done|]. by rewrite IH, acquire_acquire.
Qed.

Lemma with_dependencies_same t : with_dependencies (m_dependencies t) t = t.
Proof. by destruct t. Qed.

(* The overload taking the handles one by one does what the overload
   taking them in a vector does. *)
Lemma addDependencies_pack_eq deps : forall n t h,
  lookup_task n h = Some t ->
  addDependencies_pack n deps h = addDependencies n deps h.
Proof.
  induction deps as [|d0 dn IH]; intros n t h Hn.
  - unfold addDependencies. simpl. rewrite (deref_Some _ _ _ Hn). cbn [bind].
    rewrite app_nil_r, with_dependencies_same. by rewrite (store_same _ _ _ Hn).
  - simpl. unfold addDependencies. rewrite (deref_Some _ _ _ Hn). cbn [bind].
    set (t1 := with_dependencies (m_dependencies t ++ [d0]) t).
    set (h1 := store n t1 (acquire d0 h)).
    assert (Hn1 : lookup_task n h1 = Some t1).
    { eapply lookup_task_store_eq. by rewrite lookup_task_acquire. }
    rewrite (IH n t1 h1 Hn1). unfold addDependencies.
    rewrite (deref_Some _ _ _ Hn1). cbn [bind]. f_equal.
    unfold h1. rewrite foldr_acquire_store, store_store, foldr_acquire_acquire.
    unfold t1. simpl. by rewrite <- app_assoc.
Qed.

Lemma strong_count_acquire d k h :
  strong_count k (acquire d h)
  = strong_count k h + (if decide (d = k) then (if alive k h then 1 else 0) else 0).
Proof.
  destruct (decide (d = k)) as [->|Hne].
  - unfold alive, lookup_task, strong_count, acquire. simpl.
    rewrite list_lookup_alter_eq.
    destruct (tasks h !! k) as [[e|]|]; simpl; lia.
  - rewrite strong_count_acquire_ne by done. lia.
Qed.

Lemma alive_foldr_acquire k ds h : alive k (foldr acquire h ds) = alive k h.
Proof. unfold alive. by rewrite lookup_task_foldr_acquire. Qed.

Lemma strong_count_foldr_acquire k ds : forall h,
  strong_count k (foldr acquire h ds)
  = strong_count k h + (if alive k h then occurrences k ds else 0).
Proof.
  induction ds as [|d ds IH]; intros h; simpl.
  - unfold occurrences. simpl. destruct (alive k h); lia.
  - rewrite strong_count_acquire, alive_foldr_acquire, IH, occurrences_cons.
    destruct (decide (d = k)), (alive k h); lia.
Qed.

(** X6: the two forms of [addDependencies] agree: passing handles one by
    one leaves the heap that passing them in a vector leaves.  Each handle
    that is appended is a copy: the use count of a live task grows by the
    number of times it occurs among the handles; the members of the other
    tasks, the shared states, the trace and the instance counter stay as
    they were. *)
Theorem addDependencies_overloads_agree (n : task_id) (t : Task)
    (deps : list task_id) (h : Heap) :
  lookup_task n h = Some t ->
  addDependencies_pack n deps h = addDependencies n deps h
  /\ exists h',
       addDependencies n deps h = Ok h'
       /\ (forall k, strong_count k h'
             = strong_count k h + (if alive k h then occurrences k deps else 0))
       /\ (forall k, k <> n -> lookup_task k h' = lookup_task k h)
       /\ chans h' = chans h
       /\ trace h' = trace h
       /\ s_instanceCount h' = s_instanceCount h.
Proof.
  intros Hn. split; [by eapply addDependencies_pack_eq|].
  unfold addDependencies. rewrite (deref_Some _ _ _ Hn). cbn [bind].
  eexists. split; [done|]. split.
  { intros k. rewrite strong_count_store. apply strong_count_foldr_acquire. }
  split.
  { intros k Hk. rewrite lookup_task_store_ne by done.
    apply lookup_task_foldr_acquire. }
  clear. induction deps as [|d ds IH]; simpl; [done|]. apply IH.
Qed.

Lemma occurrences_not_elem_of k l : k ∉ l -> occurrences k l = 0.
Proof.
  induction l as [|d l IH]; intros Hk; [done|].
  apply not_elem_of_cons in Hk as [Hne Hk]. rewrite occurrences_cons.
  rewrite decide_False by done. by rewrite IH.
Qed.

Lemma ref_sound_same h h' :
  ref_sound h ->
  (forall k n, held k (lookup_task n h') = held k (lookup_task n h)) ->
  (forall k, strong_count k h <= strong_count k h') ->
  ref_sound h'.
Proof.
  intros Hs Hheld Hcount k. rewrite (dep_refs_same k h h') by done.
  specialize (Hs k). specialize (Hcount k). lia.
Qed.

Lemma ref_sound_method n m h h' :
  ref_sound h ->
  (forall t cs, m_dependencies (m t cs).1 = m_dependencies t) ->
  method n m h = Ok h' ->
  ref_sound h'.
Proof.
  intros Hs Hm H. unfold method in H. bind_inv H. apply deref_Ok_inv in Ha.
  specialize (Hm a (chans h)). destruct (m a (chans h)) as [t' cs].
  injection H as <-. simpl in Hm. apply (ref_sound_same h); [done| |].
  - intros k j. rewrite lookup_task_with_chans.
    destruct (decide (n = j)) as [<-|Hne].
    + rewrite (lookup_task_store_eq _ _ _ _ Ha), Ha. simpl. by rewrite Hm.
    + by rewrite lookup_task_store_ne.
  - intros k. by rewrite strong_count_with_chans, strong_count_store.
Qed.

Lemma ref_sound_make_shared name color isCont h :
  ref_sound h -> ref_sound (make_shared_Task name color isCont h).2.
Proof.
  intros Hs. rewrite make_shared_Task_spec. cbn [snd].
  set (h1 := with_chans _ _). set (e := mkManaged _ 1).
  assert (Hnew : lookup_task (length (tasks h)) (with_tasks (tasks h ++ [Some e]) h1)
                 = Some (object e)) by exact (lookup_task_push_new e h1).
  assert (Hold : forall j, j <> length (tasks h) ->
            lookup_task j (with_tasks (tasks h ++ [Some e]) h1) = lookup_task j h).
  { intros j Hj. exact (lookup_task_push_old j e h1 Hj). }
  assert (Hcold : forall j, j <> length (tasks h) ->
            strong_count j (with_tasks (tasks h ++ [Some e]) h1) = strong_count j h).
  { intros j Hj. exact (strong_count_push_old j e h1 Hj). }
  apply (ref_sound_same h); [done| |].
  - intros k j. destruct (decide (j = length (tasks h))) as [->|Hne].
    + rewrite Hnew. unfold lookup_task. by rewrite lookup_ge_None_2.
    + by rewrite Hold.
  - intros k. destruct (decide (k = length (tasks h))) as [->|Hne].
    + unfold strong_count at 1. rewrite lookup_ge_None_2 by done. lia.
    + by rewrite Hcold.
Qed.

Lemma ref_sound_then this f name color h r :
  ref_sound h -> then_ this f name color h = Ok r -> ref_sound r.2.
Proof.
  intros Hs H. assert (exists tN, lookup_task this h = Some tN) as [tN Hthis].
  { unfold then_ in H. bind_inv H. apply deref_Ok_inv in Ha. eauto. }
  destruct (then_spec this f name color tN h Hthis)
    as (h' & Hrun & Hl & HM & Hother & _ & _ & _ & Hc1 & Hc2 & Hc3).
  rewrite Hrun in H. injection H as <-. cbn [snd].
  pose proof (lookup_task_lt _ _ _ Hthis) as Hlt.
  set (M := length (tasks h)) in *.
  assert (HMold : lookup_task M h = None).
  { unfold lookup_task. by rewrite lookup_ge_None_2. }
  intros k. pose proof (dep_refs_change k M h h') as Hc.
  rewrite HMold, HM in Hc. simpl in Hc. rewrite occurrences_cons in Hc.
  change (occurrences k []) with 0 in Hc.
  assert (Hheld : forall j, j <> M ->
            held k (lookup_task j h') = held k (lookup_task j h)).
  { intros j Hj. destruct (decide (j = this)) as [->|Hne].
    - by rewrite Hl, Hthis.
    - by rewrite Hother. }
  specialize (Hc Hheld). specialize (Hs k).
  destruct (decide (this = k)) as [<-|Hne]; [lia|].
  destruct (decide (k = M)) as [->|HneM]; [|rewrite Hc3 by done; lia].
  unfold strong_count in Hs. rewrite lookup_ge_None_2 in Hs by done. lia.
Qed.

Lemma ref_sound_addDependencies n deps h h' :
  ref_sound h ->
  Forall (fun d => alive d h = true) deps ->
  addDependencies n deps h = Ok h' ->
  ref_sound h'.
Proof.
  intros Hs Hdeps H. unfold addDependencies in H. bind_inv H.
  apply deref_Ok_inv in Ha. injection H as <-. intros k.
  rewrite strong_count_store, strong_count_foldr_acquire.
  set (h1 := foldr acquire h deps).
  pose proof (dep_refs_change k n h
                (store n (with_dependencies (m_dependencies a ++ deps) a) h1)) as Hc.
  rewrite Ha in Hc. erewrite lookup_task_store_eq in Hc
    by (unfold h1; rewrite lookup_task_foldr_acquire; exact Ha).
  simpl in Hc. rewrite occurrences_app in Hc.
  assert (Hrefs : dep_refs k (store n (with_dependencies (m_dependencies a ++ deps) a) h1)
                  = dep_refs k h + occurrences k deps).
  { cut (dep_refs k (store n (with_dependencies (m_dependencies a ++ deps) a) h1)
         + occurrences k (m_dependencies a)
         = dep_refs k h + (occurrences k (m_dependencies a) + occurrences k deps));
      [lia|].
    apply Hc. intros j Hj. rewrite lookup_task_store_ne by done.
    unfold h1. by rewrite lookup_task_foldr_acquire. }
  rewrite Hrefs. specialize (Hs k).
  destruct (decide (k ∈ deps)) as [Hin|Hnotin].
  - rewrite Forall_forall in Hdeps. rewrite (Hdeps k Hin). lia.
  - rewrite (occurrences_not_elem_of _ _ Hnotin). lia.
Qed.

(** X7: reference counts stay sound under every call that neither runs a
    task nor destroys a handle: construction, [then], both forms of
    [addDependencies] on handles of live tasks, the copy of a handle, the
    setters, [reset] and the calls on the promise and the future.  In the
    heap such a call leaves, every dependency of a live task is alive. *)
Theorem building_keeps_ref_sound (fuel : nat) (op : Op) (h h' : Heap) :
  ref_sound h ->
  invokes_nothing op = true ->
  drops_nothing op = true ->
  handles_alive op h ->
  exec_op fuel op h = Ok h' ->
  ref_sound h'
  /\ (forall k t d, lookup_task k h' = Some t -> d ∈ m_dependencies t ->
        alive d h' = true).
Proof.
  intros Hs Hinv Hdrop Hdeps H.
  assert (Hs' : ref_sound h').
  { unfold exec_op in H. destruct op; simpl in H, Hdeps; try done.
    - injection H as <-. by apply ref_sound_make_shared.
    - bind_inv H. injection H as <-. apply (ref_sound_same h); [done| |].
      + intros k j. by rewrite lookup_task_acquire.
      + intros k. rewrite strong_count_acquire. lia.
    - bind_inv H. injection H as <-. by eapply ref_sound_then.
    - refine (ref_sound_method _ _ _ _ Hs _ H). intros t cs. unfold setStatus.
      by destruct (_ && _).
    - by refine (ref_sound_method _ _ _ _ Hs _ H).
    - by refine (ref_sound_method _ _ _ _ Hs _ H).
    - by refine (ref_sound_method _ _ _ _ Hs _ H).
    - by eapply ref_sound_addDependencies.
    - assert (exists t, lookup_task n h = Some t) as [t Hn].
      { destruct deps; simpl in H; bind_inv H; apply deref_Ok_inv in Ha; eauto. }
      rewrite (addDependencies_pack_eq deps n t h Hn) in H.
      by eapply ref_sound_addDependencies.
    - by refine (ref_sound_method _ _ _ _ Hs _ H).
    - by refine (ref_sound_method _ _ _ _ Hs _ H).
    - repeat bind_inv H. injection H as <-. by apply (ref_sound_same h).
    - repeat bind_inv H. by injection H as <-.
    - repeat bind_inv H. unfold trySetFuncResult in H.
      destruct f; repeat bind_inv H; injection H as <-; by apply (ref_sound_same h). }
  split; [done|]. intros k t d Hk Hd. apply strong_count_alive.
  by eapply ref_sound_dependency.
Qed.

Lemma lookup_entry n t h :
  lookup_task n h = Some t ->
  exists e, tasks h !! n = Some (Some e) /\ object e = t
            /\ use_count e = strong_count n h.
Proof.
  unfold lookup_task, strong_count.
  destruct (tasks h !! n) as [[e|]|]; try done. intros [= <-]. eauto.
Qed.

(* The last owner goes: the object is destroyed, then its members. *)
Lemma release_last fuel n t h :
  lookup_task n h = Some t ->
  strong_count n h <= 1 ->
  release (S fuel) n h
  = perform h2 := foldM (release fuel) (m_dependencies t)
                    (with_instanceCount (wrap32 (s_instanceCount h - 1))
                       (with_tasks (<[n:=None]> (tasks h)) h)) in
    Ok (with_chans (abandon (m_promise t) (chans h2)) h2).
Proof.
  intros Hn Hc. destruct (lookup_entry _ _ _ Hn) as (e & En & <- & Hu).
  simpl. rewrite En. rewrite <- Hu in Hc.
  destruct (use_count e) as [|[|c]]; [| |lia]; by rewrite Task_dtor_Ok.
Qed.

Lemma exec_drop fuel n prog h :
  exec fuel (OpDropHandle n :: prog) h
  = perform a := release fuel n h in exec fuel prog a.
Proof. reflexivity. Qed.

(* A client drops all the handles on a task but one. *)
Lemma drop_handles fuel n c : forall h,
  strong_count n h = S c ->
  exists h',
    exec (S fuel) (replicate c (OpDropHandle n)) h = Ok h'
    /\ (forall m, lookup_task m h' = lookup_task m h)
    /\ strong_count n h' = 1
    /\ (forall m, m <> n -> strong_count m h' = strong_count m h)
    /\ chans h' = chans h
    /\ trace h' = trace h
    /\ s_instanceCount h' = s_instanceCount h.
Proof.
  induction c as [|c IH]; intros h Hc.
  - exists h. by repeat split.
  - destruct (release_shared fuel n c h Hc)
      as (h1 & Hr & Hl1 & Hch1 & Htr1 & Hic1 & Hn1 & Ho1).
    destruct (IH h1 Hn1) as (h2 & Hr2 & Hl2 & Hn2 & Ho2 & Hch2 & Htr2 & Hic2).
    exists h2. change (replicate (S c) (OpDropHandle n))
      with (OpDropHandle n :: replicate c (OpDropHandle n)).
    rewrite exec_drop, Hr. cbn [bind]. split; [done|].
    split. { intros m. by rewrite Hl2. }
    split; [done|]. split. { intros m Hm. by rewrite Ho2, Ho1. }
    split; [congruence|]. split; congruence.
Qed.

Lemma wrap32_succ_pred c : wrap32 (wrap32 (c + 1) - 1) = wrap32 c.
Proof. unfold wrap32. rewrite Zminus_mod_idemp_l. f_equal. lia. Qed.

(** X8: the task [then] returns owns the task it was called on.  When the
    clients drop every handle they held on that task, it stays alive,
    owned by the one handle in the dependency vector of its continuation,
    with the members [then] left it; nothing is destroyed. *)
Theorem then_keeps_predecessor_alive (this : task_id) (tN : Task) (f : Callable)
    (name : string) (color : option Color) (fuel : nat) (h : Heap) :
  lookup_task this h = Some tN ->
  exists M h1 h2,
    then_ this f name color h = Ok (M, h1)
    /\ exec (S fuel) (replicate (strong_count this h) (OpDropHandle this)) h1 = Ok h2
    /\ lookup_task this h2 = Some (with_continuation (Some M) tN)
    /\ strong_count this h2 = 1
    /\ (getDependencies <$> lookup_task M h2) = Some [this]
    /\ strong_count M h2 = 1
    /\ (forall k, alive k h2 = alive k h1)
    /\ s_instanceCount h2 = s_instanceCount h1.
Proof.
  intros Hthis.
  destruct (then_spec this f name color tN h Hthis)
    as (h1 & Hrun & Hl & HM & _ & _ & _ & _ & Hc1 & Hc2 & _).
  pose proof (lookup_task_lt _ _ _ Hthis) as Hlt.
  destruct (drop_handles fuel this (strong_count this h) h1 Hc1)
    as (h2 & Hr2 & Hl2 & Hn2 & Ho2 & _ & _ & Hic2).
  exists (length (tasks h)), h1, h2. split; [done|]. split; [done|].
  split. { by rewrite Hl2. }
  split; [done|]. split. { by rewrite Hl2, HM. }
  split. { rewrite Ho2 by lia. done. }
  split; [|done]. intros k. unfold alive. by rewrite Hl2.
Qed.

(** X9: [then] does not keep the task it returns alive.  When the caller
    drops the handle [then] returned, the new task is destroyed and gives
    back its handle on the task [then] was called on: the use counts are
    what they were before the call and the instance counter is back at its
    value.  The task [then] was called on keeps a continuation reference,
    which is expired, and the shared state of the destroyed task holds a
    broken promise. *)
Theorem then_result_dropped (this : task_id) (tN : Task) (f : Callable)
    (name : string) (color : option Color) (fuel : nat) (h : Heap) :
  lookup_task this h = Some tN ->
  0 < strong_count this h ->
  exists M h1 h2,
    then_ this f name color h = Ok (M, h1)
    /\ release (S (S fuel)) M h1 = Ok h2
    /\ alive M h2 = false
    /\ lookup_task this h2 = Some (with_continuation (Some M) tN)
    /\ expired (Some M) h2 = true
    /\ (forall k, k <> this -> lookup_task k h2 = lookup_task k h)
    /\ (forall k, strong_count k h2 = strong_count k h)
    /\ s_instanceCount h2 = wrap32 (s_instanceCount h)
    /\ chans h2 = chans h ++ [Broken]
    /\ trace h2 = trace h.
Proof.
  intros Hthis Hpos.
  destruct (then_spec this f name color tN h Hthis)
    as (h1 & Hrun & Hl & HM & Hother & Hch & Htr & Hic & Hc1 & Hc2 & Hc3).
  pose proof (lookup_task_lt _ _ _ Hthis) as Hlt.
  pose proof (lookup_task_lt _ _ _ HM) as HMlt.
  set (M := length (tasks h)) in *.
  assert (HMold : tasks h !! M = None) by (by apply lookup_ge_None_2).
  set (h0 := with_instanceCount (wrap32 (s_instanceCount h1 - 1))
               (with_tasks (<[M:=None]> (tasks h1)) h1)).
  assert (Hlook0 : forall k,
    lookup_task k h0 = if decide (M = k) then None else lookup_task k h1).
  { intros k. unfold h0. rewrite lookup_task_with_instanceCount.
    apply lookup_task_destroyed. }
  assert (Hcount0 : forall k,
    strong_count k h0 = if decide (M = k) then 0 else strong_count k h1).
  { intros k. unfold h0.
    change (strong_count k (with_instanceCount ?c ?x)) with (strong_count k x).
    by rewrite strong_count_insert. }
  destruct (strong_count this h) as [|c] eqn:Ec; [lia|].
  destruct (release_shared fuel this c h0)
    as (h' & Hr & Hl' & Hch' & Htr' & Hic' & Hn' & Ho').
  { rewrite Hcount0, decide_False by lia. done. }
  exists M, h1, (with_chans (abandon (Some (length (chans h))) (chans h')) h').
  split; [done|]. split.
  { rewrite (release_last _ _ _ _ HM) by lia. fold h0. cbn [m_dependencies
      with_dependencies foldM]. rewrite Hr. reflexivity. }
  assert (HM2 : lookup_task M (with_chans (abandon (Some (length (chans h))) (chans h')) h')
                = None).
  { rewrite lookup_task_with_chans, Hl', Hlook0. by rewrite decide_True. }
  split. { unfold alive. by rewrite HM2. }
  split. { rewrite lookup_task_with_chans, Hl', Hlook0. by rewrite decide_False by lia. }
  split. { unfold expired, alive. by rewrite HM2. }
  split.
  { intros k Hk. rewrite lookup_task_with_chans, Hl', Hlook0. case_decide as HkM.
    - subst k. unfold lookup_task. by rewrite HMold.
    - by apply Hother. }
  split.
  { intros k. rewrite strong_count_with_chans.
    destruct (decide (k = this)) as [->|Hk]; [by rewrite Hn'|].
    rewrite Ho', Hcount0 by done. case_decide as HkM.
    - subst k. unfold strong_count. by rewrite HMold.
    - by apply Hc3. }
  split. { simpl. rewrite Hic'. unfold h0. simpl. rewrite Hic. apply wrap32_succ_pred. }
  split; [|simpl; by rewrite Htr'].
  simpl. rewrite Hch'. unfold h0. simpl. rewrite Hch.
  rewrite lookup_app_r by lia. rewrite Nat.sub_diag. simpl.
  rewrite insert_app_r_alt by lia. by rewrite Nat.sub_diag.
Qed.

(** ** Re-entrant calls *)

Lemma foldM_app {A B} (f : B -> A -> Result A) (l1 l2 : list B) : forall a,
  foldM f (l1 ++ l2) a = perform a' := foldM f l1 a in foldM f l2 a'.
Proof.
  induction l1 as [|x l1 IH]; intros a; simpl; [done|].
  destruct (f x a); simpl; [apply IH|done..].
Qed.

Lemma wired_method n body c n0 m h h' :
  (forall t cs, m_function (m t cs).1 = m_function t
                /\ m_continuation (m t cs).1 = m_continuation t) ->
  method n0 m h = Ok h' ->
  wired n body c h -> wired n body c h'.
Proof.
  intros Hm H (t & Hn & Hf & Hc). unfold method in H. bind_inv H.
  apply deref_Ok_inv in Ha. specialize (Hm a (chans h)).
  destruct (m a (chans h)) as [t' cs]. injection H as <-. simpl in Hm.
  destruct (decide (n0 = n)) as [->|Hne].
  - exists t'. rewrite lookup_task_with_chans.
    rewrite (lookup_task_store_eq _ _ _ _ Ha). rewrite Ha in Hn.
    injection Hn as ->. destruct Hm as [-> ->]. done.
  - exists t. rewrite lookup_task_with_chans. by rewrite lookup_task_store_ne.
Qed.

Lemma wired_addDependencies n body c n0 deps h h' :
  addDependencies n0 deps h = Ok h' ->
  wired n body c h -> wired n body c h'.
Proof.
  intros H (t & Hn & Hf & Hc). unfold addDependencies in H. bind_inv H.
  apply deref_Ok_inv in Ha. injection H as <-.
  destruct (decide (n0 = n)) as [->|Hne].
  - eexists. split.
    + eapply lookup_task_store_eq. rewrite lookup_task_foldr_acquire. exact Ha.
    + rewrite Ha in Hn. injection Hn as ->. done.
  - exists t. rewrite lookup_task_store_ne by done.
    by rewrite lookup_task_foldr_acquire.
Qed.

Lemma wired_run_op inv rel n body c op h h' :
  keeps_wiring op = true ->
  run_op inv rel op h = Ok h' ->
  wired n body c h -> wired n body c h'.
Proof.
  intros Hop H Hw. destruct op; cbn [run_op] in H; try done.
  - rewrite make_shared_Task_spec in H. cbn [snd] in H. injection H as <-.
    destruct Hw as (t & Hn & Hf & Hc). exists t. split; [|done].
    pose proof (lookup_task_lt _ _ _ Hn) as Hlt.
    set (h1 := with_chans _ _). set (e := mkManaged _ 1).
    rewrite <- Hn. apply (lookup_task_push_old n e h1). simpl. lia.
  - bind_inv H. injection H as <-. destruct Hw as (t & Hn & Hf & Hc). exists t.
    by rewrite lookup_task_acquire.
  - refine (wired_method _ _ _ _ _ _ _ _ H Hw). intros t cs. unfold setStatus.
    by destruct (_ && _).
  - by refine (wired_method _ _ _ _ _ _ _ _ H Hw).
  - by eapply wired_addDependencies.
  - assert (exists t, lookup_task n0 h = Some t) as [t Hn].
    { destruct deps; simpl in H; bind_inv H; apply deref_Ok_inv in Ha; eauto. }
    rewrite (addDependencies_pack_eq deps n0 t h Hn) in H.
    by eapply wired_addDependencies.
  - by refine (wired_method _ _ _ _ _ _ _ _ H Hw).
  - by refine (wired_method _ _ _ _ _ _ _ _ H Hw).
  - repeat bind_inv H. by injection H as <-.
  - repeat bind_inv H. by injection H as <-.
  - repeat bind_inv H. unfold trySetFuncResult in H.
    destruct f; repeat bind_inv H; by injection H as <-.
Qed.

Lemma wired_foldM inv rel n body c pre : forall h h',
  forallb keeps_wiring pre = true ->
  foldM (run_op inv rel) pre h = Ok h' ->
  wired n body c h -> wired n body c h'.
Proof.
  induction pre as [|op pre IH]; intros h h' Hpre H Hw; simpl in *.
  - by injection H as <-.
  - apply andb_true_iff in Hpre as [Hop Hpre]. bind_inv H.
    eapply IH; [done..|]. by eapply wired_run_op.
Qed.

Lemma wired_function_scope n body c e col name color h :
  wired n body c h ->
  wired n body c (log e (scope_begin col name color h)).
Proof. intros (t & Hn & Hw). exists t. by autorewrite with heap. Qed.

(* A function that calls the task it belongs to. *)
Lemma invoke_self_call fuel : forall n pre rest c h h',
  wired n (Some (pre ++ OpInvoke n :: rest)) c h ->
  forallb keeps_wiring pre = true ->
  invoke fuel n h <> Ok h'.
Proof.
  induction fuel as [|fuel IH]; intros n pre rest c h h' Hw Hpre H; [done|].
  pose proof Hw as (t & Hn & Hf & Hc).
  rewrite (invoke_unfold _ _ _ _ _ Hn Hf) in H.
  apply bind_Ok_inv in H as (h3 & Hstage & _).
  unfold function_stage, run_body, exec in Hstage.
  apply bind_Ok_inv in Hstage as (h2 & Hbody & _).
  rewrite foldM_app in Hbody. apply bind_Ok_inv in Hbody as (h1 & Hpre1 & Hbody).
  change (foldM (exec_op fuel) (OpInvoke n :: rest) h1)
    with (perform x := invoke fuel n h1 in foldM (exec_op fuel) rest x) in Hbody.
  apply bind_Ok_inv in Hbody as (hx & Hcall & _).
  eapply (IH n pre rest c h1); [|done|exact Hcall].
  eapply (wired_foldM _ _ _ _ _ pre); [done|exact Hpre1|].
  by apply wired_function_scope.
Qed.

(* A task that is its own continuation and whose function leaves it done. *)
Lemma invoke_self_continuation fuel : forall n pre h h',
  wired n (Some (pre ++ [OpSetStatus n TsDone])) (Some n) h ->
  forallb keeps_wiring pre = true ->
  invoke fuel n h <> Ok h'.
Proof.
  induction fuel as [|fuel IH]; intros n pre h h' Hw Hpre H; [done|].
  pose proof Hw as (t & Hn & Hf & Hc).
  rewrite (invoke_unfold _ _ _ _ _ Hn Hf) in H.
  apply bind_Ok_inv in H as (h3' & Hstage & H). cbv beta in H.
  unfold function_stage, run_body, exec in Hstage.
  apply bind_Ok_inv in Hstage as (h2 & Hbody & Hstage). cbv beta in Hstage.
  injection Hstage as <-.
  rewrite foldM_app in Hbody. apply bind_Ok_inv in Hbody as (h1 & Hpre1 & Hbody).
  assert (Hw1 : wired n (Some (pre ++ [OpSetStatus n TsDone])) (Some n) h1).
  { eapply (wired_foldM _ _ _ _ _ pre); [done|exact Hpre1|].
    by apply wired_function_scope. }
  destruct Hw1 as (t1 & Hn1 & Hf1 & Hc1).
  cbn [foldM] in Hbody. rewrite (exec_op_setStatus_Done _ _ _ _ Hn1) in Hbody.
  cbn [bind] in Hbody. injection Hbody as <-.
  set (h3 := scope_end _ _) in H.
  assert (Hn3 : lookup_task n h3 = Some (with_status TsDone t1)).
  { unfold h3. autorewrite with heap. by eapply lookup_task_store_eq. }
  rewrite (deref_Some _ _ _ Hn3) in H. cbn [bind] in H.
  rewrite bool_decide_eq_false_2 in H by done.
  unfold fire_continuation in H. cbn [m_status m_continuation with_status] in H.
  rewrite Hc1 in H. cbn [expired lock] in H. rewrite (alive_Some _ _ _ Hn3) in H.
  rewrite bool_decide_eq_true_2 in H by done. cbn [negb andb] in H.
  apply bind_Ok_inv in H as (h4 & Hcall & _).
  eapply (IH n pre (acquire n h3)); [|done|exact Hcall].
  exists (with_status TsDone t1). by rewrite lookup_task_acquire.
Qed.

(** X10: [operator()] has no guard against re-entrancy.  A task whose
    function calls the task itself, and a task that is its own continuation
    and whose function leaves it done, never return normally from
    [operator()], whatever the calls that come before in the function, as
    long as these leave functions and continuations alone: the call ends
    in a failure of one of them or goes on for ever.  When the function begins with the
    call of the task itself the recursion is unbounded. *)
Theorem invoke_reentrant_never_returns :
  (forall (fuel : nat) (n : task_id) (t : Task) (pre rest : list Op) (h h' : Heap),
      lookup_task n h = Some t ->
      m_function t = Some (pre ++ OpInvoke n :: rest) ->
      forallb keeps_wiring pre = true ->
      invoke fuel n h <> Ok h')
  /\ (forall (fuel : nat) (n : task_id) (t : Task) (pre : list Op) (h h' : Heap),
      lookup_task n h = Some t ->
      m_function t = Some (pre ++ [OpSetStatus n TsDone]) ->
      m_continuation t = Some n ->
      forallb keeps_wiring pre = true ->
      invoke fuel n h <> Ok h')
  /\ (forall (fuel : nat) (n : task_id) (t : Task) (rest : list Op) (h : Heap),
      lookup_task n h = Some t ->
      m_function t = Some (OpInvoke n :: rest) ->
      invoke fuel n h = OutOfFuel).
Proof.
  split; [|split].
  - intros fuel n t pre rest h h' Hn Hf Hpre.
    apply (invoke_self_call fuel n pre rest (m_continuation t)); [|done].
    by exists t.
  - intros fuel n t pre h h' Hn Hf Hc Hpre.
    apply (invoke_self_continuation fuel n pre); [|done]. by exists t.
  - intros fuel. induction fuel as [|fuel IH]; intros n t rest h Hn Hf; [done|].
    rewrite (invoke_unfold _ _ _ _ _ Hn Hf).
    unfold function_stage, run_body, exec.
    change (foldM (exec_op fuel) (OpInvoke n :: rest) ?x)
      with (perform y := invoke fuel n x in foldM (exec_op fuel) rest y).
    rewrite (IH n t rest); [done| |done]. by autorewrite with heap.
Qed.

(** ** Running a task again *)

(* A producer without a live continuation runs to the end of its function. *)
Lemma invoke_produce fuel N tN p v h :
  lookup_task N h = Some tN ->
  m_function tN = Some (produce_function N v) ->
  m_promise tN = Some p ->
  chans h !! p = Some Unfulfilled ->
  expired (m_continuation tN) h = true ->
  exists h1,
    invoke (S fuel) N h = Ok h1
    /\ lookup_task N h1 = Some (with_status TsDone tN)
    /\ (forall k, k <> N -> lookup_task k h1 = lookup_task k h)
    /\ chans h1 = <[p := Ready v]> (chans h).
Proof.
  intros HN Hf Hp Hc Hexp.
  destruct (function_stage_produce fuel N tN p v h HN Hp Hc)
    as (h1 & Hstage & HN1 & Hother & Hch & _).
  exists h1. split; [|done].
  rewrite (invoke_unfold _ _ _ _ _ HN Hf), Hstage. cbn [bind].
  rewrite (deref_Some _ _ _ HN1). cbn [bind].
  rewrite bool_decide_eq_false_2 by done.
  apply fire_continuation_skip. right.
  change (m_continuation (with_status TsDone tN)) with (m_continuation tN).
  rewrite <- Hexp. apply expired_ext. intros k.
  destruct (decide (k = N)) as [->|Hk].
  - rewrite HN1, HN. split; eauto.
  - by rewrite Hother.
Qed.

(** X11: take a task that has no live continuation (its continuation
    reference is expired), whose promise and future are on one shared
    state that is unfulfilled, and whose function fulfils the promise and
    sets the task done.  Such a task runs once for each result channel.  A
    second call of [operator()] on the done task leaves by the exception
    of the promise, which is already satisfied.  After [setStatus] has
    taken the task out of [TsDone], and with that given it a fresh result
    channel, the call succeeds again: the new future holds the result, and
    the future held before still holds the result of the first run. *)
Theorem producer_runs_once_per_channel (fuel : nat) (N : task_id) (tN : Task)
    (p : chan_id) (v : V) (s : TaskStatus) (h : Heap) :
  lookup_task N h = Some tN ->
  m_function tN = Some (produce_function N v) ->
  m_promise tN = Some p ->
  m_future tN = Some p ->
  chans h !! p = Some Unfulfilled ->
  expired (m_continuation tN) h = true ->
  s <> TsDone ->
  exists h1 h2 h3,
    invoke (S fuel) N h = Ok h1
    /\ future_state N h1 = Some (Ready v)
    /\ invoke (S fuel) N h1 = Throw PromiseAlreadySatisfied
    /\ exec_op 0 (OpSetStatus N s) h1 = Ok h2
    /\ future_state N h2 = Some Unfulfilled
    /\ invoke (S fuel) N h2 = Ok h3
    /\ (getFuture <$> lookup_task N h3) = Some (Some (length (chans h)))
    /\ future_state N h3 = Some (Ready v)
    /\ chans h3 !! p = Some (Ready v).
Proof.
  intros HN Hf Hp Hfut Hc Hexp Hs.
  pose proof (lookup_lt_Some _ _ _ Hc) as Hplt.
  destruct (invoke_produce fuel N tN p v h HN Hf Hp Hc Hexp)
    as (h1 & Hrun1 & HN1 & Hother1 & Hch1).
  assert (Hc1 : chans h1 !! p = Some (Ready v)).
  { rewrite Hch1. by apply list_lookup_insert_eq. }
  assert (Hlen1 : length (chans h1) = length (chans h)).
  { by rewrite Hch1, length_insert. }
  set (t1 := with_status TsDone tN) in *.
  set (t2 := with_status s (reset t1 (chans h1)).1).
  set (h2 := with_chans (chans h1 ++ [Unfulfilled]) (store N t2 h1)).
  assert (Hrun2 : exec_op 0 (OpSetStatus N s) h1 = Ok h2).
  { unfold exec_op. cbn [run_op]. rewrite (method_Some _ _ _ _ HN1).
    rewrite (setStatus_leaving_Done s t1 (chans h1)) by done.
    unfold h2, t2. cbn [fst snd reset]. unfold abandon.
    change (m_promise t1) with (m_promise tN). rewrite Hp.
    by rewrite (lookup_app_l_Some _ _ _ _ Hc1). }
  assert (HN2 : lookup_task N h2 = Some t2).
  { unfold h2. rewrite lookup_task_with_chans. by eapply lookup_task_store_eq. }
  assert (Hc2 : chans h2 !! length (chans h) = Some Unfulfilled).
  { unfold h2. simpl. rewrite lookup_app_r by lia.
    by rewrite Hlen1, Nat.sub_diag. }
  assert (Hexp2 : expired (m_continuation t2) h2 = true).
  { change (m_continuation t2) with (m_continuation tN). rewrite <- Hexp.
    apply expired_ext. intros k. unfold h2. rewrite lookup_task_with_chans.
    destruct (decide (k = N)) as [->|Hk].
    - rewrite (lookup_task_store_eq _ _ _ _ HN1), HN. split; eauto.
    - rewrite lookup_task_store_ne by done. by rewrite Hother1. }
  destruct (invoke_produce fuel N t2 (length (chans h)) v h2 HN2)
    as (h3 & Hrun3 & HN3 & Hother3 & Hch3); try done.
  { unfold t2. simpl. by rewrite Hlen1. }
  exists h1, h2, h3. split; [done|]. split.
  { unfold future_state. rewrite HN1. unfold getFuture. simpl. by rewrite Hfut. }
  split.
  { rewrite (invoke_unfold _ _ _ _ _ HN1 Hf).
    unfold function_stage, run_body, exec, produce_function. cbn [foldM].
    unfold exec_op at 1. cbn [run_op].
    set (hb := log _ _).
    assert (HNb : lookup_task N hb = Some t1) by (unfold hb; by autorewrite with heap).
    rewrite (deref_Some _ _ _ HNb). cbn [bind]. unfold getPromise, set_value.
    change (m_promise t1) with (m_promise tN). rewrite Hp.
    assert (Hcb : chans hb = chans h1) by (unfold hb; by autorewrite with heap).
    by rewrite Hcb, Hc1. }
  split; [done|]. split.
  { unfold future_state. rewrite HN2. unfold getFuture, t2. simpl.
    by rewrite Hlen1. }
  split; [done|]. split.
  { rewrite HN3. unfold getFuture, t2. simpl. by rewrite Hlen1. }
  split.
  { unfold future_state. rewrite HN3. unfold getFuture, t2. simpl.
    rewrite Hch3, Hlen1. apply list_lookup_insert_eq.
    unfold h2. simpl. rewrite length_app. simpl. lia. }
  rewrite Hch3. rewrite list_lookup_insert_ne by lia.
  unfold h2. simpl. by apply lookup_app_l_Some.
Qed.

(** ** Result channels *)


(** ** What a call of [operator()] never does *)

#[local] Instance nothing_released_refl : Reflexive nothing_released.
Proof. intros h Hk. split; [done|]. intros k. lia. Qed.

#[local] Instance nothing_released_trans : Transitive nothing_released.
Proof.
  intros h1 h2 h3 H12 H23 Hk. destruct (H12 Hk) as [Hk2 Hc2].
  destruct (H23 Hk2) as [Hk3 Hc3]. split; [done|].
  intros k. specialize (Hc2 k). specialize (Hc3 k). lia.
Qed.

Lemma nothing_released_step h h' :
  (forall k t' body, lookup_task k h' = Some t' -> m_function t' = Some body ->
     (exists t, lookup_task k h = Some t /\ m_function t = Some body)
     \/ forallb drop_free body = true) ->
  (forall k, alive k h' = true -> alive k h = true \/ 0 < strong_count k h') ->
  (forall k, strong_count k h <= strong_count k h') ->
  nothing_released h h'.
Proof.
  intros Hfun Halive Hcount [Hdf Hown]. split; [|done]. split.
  - intros k t' body Hk Hf. destruct (Hfun k t' body Hk Hf) as [(t & Hk0 & Hf0)|Hb].
    + by eapply Hdf.
    + done.
  - intros k Hk. destruct (Halive k Hk) as [Hk0|Hpos]; [|done].
    specialize (Hown k Hk0). specialize (Hcount k). lia.
Qed.

Lemma nothing_released_same h h' :
  (forall k, lookup_task k h' = lookup_task k h) ->
  (forall k, strong_count k h <= strong_count k h') ->
  nothing_released h h'.
Proof.
  intros Hl Hc. apply nothing_released_step; [| |done].
  - intros k t' body Hk Hf. left. exists t'. by rewrite <- Hl.
  - intros k Hk. left. unfold alive in *. by rewrite <- Hl.
Qed.

Lemma nothing_released_method n m h h' :
  (forall t cs body, m_function (m t cs).1 = Some body ->
     m_function t = Some body \/ forallb drop_free body = true) ->
  method n m h = Ok h' ->
  nothing_released h h'.
Proof.
  intros Hm H. unfold method in H. bind_inv H. apply deref_Ok_inv in Ha.
  specialize (Hm a (chans h)). destruct (m a (chans h)) as [t' cs].
  injection H as <-. simpl in Hm. apply nothing_released_step.
  - intros k t0 body Hk Hf. rewrite lookup_task_with_chans in Hk.
    destruct (decide (n = k)) as [<-|Hne].
    + rewrite (lookup_task_store_eq _ _ _ _ Ha) in Hk. injection Hk as <-.
      destruct (Hm body Hf) as [Hf0|Hb]; [left; eauto|by right].
    + rewrite lookup_task_store_ne in Hk by done. left. eauto.
  - intros k Hk. left. unfold alive in *. rewrite lookup_task_with_chans in Hk.
    destruct (decide (n = k)) as [<-|Hne].
    + by rewrite Ha.
    + by rewrite lookup_task_store_ne in Hk.
  - intros k. by rewrite strong_count_with_chans, strong_count_store.
Qed.

Lemma nothing_released_addDependencies n deps h h' :
  addDependencies n deps h = Ok h' -> nothing_released h h'.
Proof.
  intros H. unfold addDependencies in H. bind_inv H. apply deref_Ok_inv in Ha.
  injection H as <-. apply nothing_released_step.
  - intros k t0 body Hk Hf. left. destruct (decide (n = k)) as [<-|Hne].
    + erewrite lookup_task_store_eq in Hk
        by (rewrite lookup_task_foldr_acquire; exact Ha).
      injection Hk as <-. eauto.
    + rewrite lookup_task_store_ne, lookup_task_foldr_acquire in Hk by done. eauto.
  - intros k Hk. left. unfold alive in *. destruct (decide (n = k)) as [<-|Hne].
    + by rewrite Ha.
    + by rewrite lookup_task_store_ne, lookup_task_foldr_acquire in Hk.
  - intros k. rewrite strong_count_store, strong_count_foldr_acquire. lia.
Qed.

Lemma nothing_released_then this f name color h r :
  then_ this f name color h = Ok r -> nothing_released h r.2.
Proof.
  intros H. assert (exists tN, lookup_task this h = Some tN) as [tN Hthis].
  { unfold then_ in H. bind_inv H. apply deref_Ok_inv in Ha. eauto. }
  destruct (then_spec this f name color tN h Hthis)
    as (h' & Hrun & Hl & HM & Hother & _ & _ & _ & Hc1 & Hc2 & Hc3).
  rewrite Hrun in H. injection H as <-. cbn [snd].
  pose proof (lookup_task_lt _ _ _ Hthis) as Hlt.
  apply nothing_released_step.
  - intros k t' body Hk Hf. destruct (decide (k = length (tasks h))) as [->|HkM].
    + rewrite HM in Hk. injection Hk as <-. simpl in Hf. injection Hf as <-.
      by right.
    + left. destruct (decide (k = this)) as [->|Hkt].
      * rewrite Hl in Hk. injection Hk as <-. eauto.
      * rewrite Hother in Hk by done. eauto.
  - intros k Hk. destruct (decide (k = length (tasks h))) as [->|HkM].
    + right. lia.
    + left. destruct (decide (k = this)) as [->|Hkt].
      * by rewrite (alive_Some _ _ _ Hthis).
      * unfold alive in *. by rewrite Hother in Hk.
  - intros k. destruct (decide (k = this)) as [->|Hkt]; [lia|].
    destruct (decide (k = length (tasks h))) as [->|HkM].
    + unfold strong_count at 1. rewrite lookup_ge_None_2 by done. lia.
    + by rewrite Hc3.
Qed.

Lemma nothing_released_make_shared name color isCont h :
  nothing_released h (make_shared_Task name color isCont h).2.
Proof.
  rewrite make_shared_Task_spec. cbn [snd].
  set (h1 := with_chans _ _). set (e := mkManaged _ 1).
  assert (Hnew : lookup_task (length (tasks h)) (with_tasks (tasks h ++ [Some e]) h1)
                 = Some (object e)) by exact (lookup_task_push_new e h1).
  assert (Hold : forall j, j <> length (tasks h) ->
            lookup_task j (with_tasks (tasks h ++ [Some e]) h1) = lookup_task j h).
  { intros j Hj. exact (lookup_task_push_old j e h1 Hj). }
  assert (Hcnew : strong_count (length (tasks h)) (with_tasks (tasks h ++ [Some e]) h1)
                  = 1) by exact (strong_count_push_new e h1).
  assert (Hcold : forall j, j <> length (tasks h) ->
            strong_count j (with_tasks (tasks h ++ [Some e]) h1) = strong_count j h).
  { intros j Hj. exact (strong_count_push_old j e h1 Hj). }
  apply nothing_released_step.
  - intros k t' body Hk Hf. destruct (decide (k = length (tasks h))) as [->|HkM].
    + rewrite Hnew in Hk. injection Hk as <-. done.
    + rewrite Hold in Hk by done. left. eauto.
  - intros k Hk. destruct (decide (k = length (tasks h))) as [->|HkM].
    + right. rewrite Hcnew. lia.
    + left. unfold alive in *. by rewrite Hold in Hk.
  - intros k. destruct (decide (k = length (tasks h))) as [->|HkM].
    + unfold strong_count at 1. rewrite lookup_ge_None_2 by done. lia.
    + by rewrite Hcold.
Qed.

Lemma nothing_released_run_op inv rel op h h' :
  (forall n h h', inv n h = Ok h' -> nothing_released h h') ->
  drop_free op = true ->
  run_op inv rel op h = Ok h' ->
  nothing_released h h'.
Proof.
  intros Hinv Hop H. destruct op; cbn [run_op] in H; try done.
  - injection H as <-. apply nothing_released_make_shared.
  - bind_inv H. injection H as <-. apply nothing_released_same.
    + intros k. apply lookup_task_acquire.
    + intros k. rewrite strong_count_acquire. lia.
  - by eapply Hinv.
  - bind_inv H. injection H as <-. by eapply nothing_released_then.
  - refine (nothing_released_method _ _ _ _ _ H). intros t cs body. left.
    revert H0. unfold setStatus. by destruct (_ && _).
  - refine (nothing_released_method _ _ _ _ _ H). intros t cs body Hf. by left.
  - refine (nothing_released_method _ _ _ _ _ H). intros t cs body Hf. right.
    simpl in Hf. subst f. exact Hop.
  - refine (nothing_released_method _ _ _ _ _ H). intros t cs body Hf. by left.
  - by eapply nothing_released_addDependencies.
  - assert (exists t, lookup_task n h = Some t) as [t Hn].
    { destruct deps; simpl in H; bind_inv H; apply deref_Ok_inv in Ha; eauto. }
    rewrite (addDependencies_pack_eq deps n t h Hn) in H.
    by eapply nothing_released_addDependencies.
  - refine (nothing_released_method _ _ _ _ _ H). intros t cs body Hf. by left.
  - refine (nothing_released_method _ _ _ _ _ H). intros t cs body Hf. by left.
  - repeat bind_inv H. injection H as <-. by apply nothing_released_same.
  - repeat bind_inv H. by injection H as <-.
  - repeat bind_inv H. unfold trySetFuncResult in H.
    destruct f; repeat bind_inv H; injection H as <-; by apply nothing_released_same.
Qed.

Lemma nothing_released_foldM inv rel body : forall h h',
  (forall n h h', inv n h = Ok h' -> nothing_released h h') ->
  forallb drop_free body = true ->
  foldM (run_op inv rel) body h = Ok h' ->
  nothing_released h h'.
Proof.
  induction body as [|op body IH]; intros h h' Hinv Hbody H; simpl in *.
  - by injection H as <-.
  - apply andb_true_iff in Hbody as [Hop Hbody]. bind_inv H.
    transitivity a; [by eapply nothing_released_run_op|by eapply IH].
Qed.

Lemma nothing_released_invoke fuel : forall n h h',
  invoke fuel n h = Ok h' -> nothing_released h h'.
Proof.
  induction fuel as [|fuel IH]; intros n h h' H; [discriminate|].
  intros Hkeep. pose proof Hkeep as [Hdf Hown].
  simpl in H. apply bind_Ok_inv in H as (t & Ht & H). cbv beta in H.
  apply deref_Ok_inv in Ht.
  destruct (m_function t) as [body|] eqn:Hf; [|discriminate].
  apply bind_Ok_inv in H as (h2 & Hbody & H). cbv beta in H.
  apply bind_Ok_inv in H as (t' & Ht' & H). cbv beta in H.
  set (h3 := scope_end (m_collector t) h2) in *.
  assert (Hstage : nothing_released h h3).
  { transitivity (log (EvFunction n)
                    (scope_begin (m_collector t) (m_name t) (m_debugColor t) h)).
    - apply nothing_released_same; intros k; by autorewrite with heap.
    - transitivity h2.
      + eapply nothing_released_foldM; [exact IH| |exact Hbody]. by eapply Hdf.
      + apply nothing_released_same; intros k; unfold h3; by autorewrite with heap. }
  destruct (Hstage Hkeep) as [Hkeep3 Hc3].
  case_bool_decide; [discriminate|].
  destruct (bool_decide (m_status t' = TsDone) && negb (expired (m_continuation t') h3));
    [|by injection H as <-].
  destruct (lock (m_continuation t') h3) as [c|] eqn:Hlock; [|discriminate].
  apply bind_Ok_inv in H as (h4 & Hcall & H). cbv beta in H.
  assert (Hc_alive : alive c h3 = true).
  { unfold lock in Hlock. destruct (m_continuation t') as [c'|]; [|done].
    destruct (alive c' h3) eqn:E; [|done]. by injection Hlock as <-. }
  assert (Hacq : nothing_released h3 (acquire c h3)).
  { apply nothing_released_same.
    - intros k. apply lookup_task_acquire.
    - intros k. rewrite strong_count_acquire. lia. }
  destruct (Hacq Hkeep3) as [Hkeepa Hca].
  destruct (IH c _ _ Hcall Hkeepa) as [Hkeep4 Hc4].
  pose proof (proj2 Hkeep3 c Hc_alive) as Hpos.
  assert (Hcount : exists k, strong_count c h4 = S (S k)).
  { pose proof (Hc4 c) as H4. rewrite strong_count_acquire in H4.
    rewrite decide_True, Hc_alive in H4 by done.
    exists (strong_count c h4 - 2). lia. }
  destruct Hcount as [k Hk].
  destruct fuel as [|fuel']; [discriminate|].
  destruct (release_shared fuel' c k h4 Hk)
    as (h5 & Hr & Hl5 & _ & _ & _ & Hn5 & Ho5).
  rewrite Hr in H. injection H as <-. split.
  - destruct Hkeep4 as [Hdf4 Hown4]. split.
    + intros j tj bj Hj Hfj. rewrite Hl5 in Hj. by eapply Hdf4.
    + intros j Hj. unfold alive in Hj. rewrite Hl5 in Hj.
      destruct (decide (j = c)) as [->|Hne]; [rewrite Hn5; lia|].
      rewrite Ho5 by done. by apply Hown4.
  - intros j. specialize (Hc3 j). specialize (Hca j). specialize (Hc4 j).
    destruct (decide (j = c)) as [->|Hne].
    + rewrite Hn5. rewrite strong_count_acquire in Hca, Hc4.
      rewrite decide_True, Hc_alive in Hc4 by done. lia.
    + rewrite Ho5 by done. lia.
Qed.

(** X13: a call of [operator()] destroys nothing by itself.  When neither
    the client program nor any function stored in a task drops a handle,
    no use count ever goes down and every task that is alive stays alive,
    whatever tasks are called: the handle [operator()] takes on the
    continuation while it runs is given back by a drop that is never the
    last one.  Functions that drop no handle and owners for every live
    task are kept as well. *)
Theorem operator_call_destroys_nothing (fuel : nat) (prog : list Op) (h h' : Heap) :
  keeps_handles h ->
  forallb drop_free prog = true ->
  exec fuel prog h = Ok h' ->
  keeps_handles h'
  /\ (forall k, strong_count k h <= strong_count k h')
  /\ (forall k, alive k h = true -> alive k h' = true).
Proof.
  intros Hkeep Hprog H.
  assert (Hnr : nothing_released h h').
  { unfold exec, exec_op in H.
    eapply nothing_released_foldM; [|exact Hprog|exact H].
    intros n. apply nothing_released_invoke. }
  destruct (Hnr Hkeep) as [Hkeep' Hc]. split; [done|]. split; [done|].
  intros k Hk. apply strong_count_alive. pose proof (proj2 Hkeep k Hk). specialize (Hc k). lia.
Qed.

(** ** Destruction of a chain *)

Lemma owned_chain_frame h h' below : forall top,
  (forall k, k ∈ top :: below ->
     lookup_task k h' = lookup_task k h /\ strong_count k h' = strong_count k h) ->
  owned_chain h top below -> owned_chain h' top below.
Proof.
  induction below as [|d rest IH]; intros top Hsame (t & Ht & Hrest).
  - exists t. split; [|done]. rewrite <- Ht. apply Hsame. apply list_elem_of_here.
  - destruct Hrest as (Hdeps & Hc & Hchain). exists t. split.
    { rewrite <- Ht. apply Hsame. apply list_elem_of_here. }
    split; [done|]. split.
    { rewrite <- Hc. apply Hsame. apply list_elem_of_further, list_elem_of_here. }
    apply IH; [|done]. intros k Hk. apply Hsame. by apply list_elem_of_further.
Qed.

(** X14: a chain of tasks in which each is owned by the one before it
    alone is destroyed as a whole when the last handle on its first task
    is dropped: the destructor of each task gives back the handle on the
    next.  All tasks of the chain are destroyed, the instance counter goes
    down by their number, and every other task is left as it was. *)
Theorem release_destroys_owned_chain (fuel : nat) (top : task_id)
    (below : list task_id) (h : Heap) :
  owned_chain h top below ->
  strong_count top h = 1 ->
  NoDup (top :: below) ->
  exists h',
    release (S (length below) + fuel) top h = Ok h'
    /\ (forall k, k ∈ top :: below -> alive k h' = false)
    /\ (forall k, k ∉ top :: below ->
          lookup_task k h' = lookup_task k h /\ strong_count k h' = strong_count k h)
    /\ s_instanceCount h'
       = wrap32 (s_instanceCount h - Z.of_nat (S (length below)))
    /\ trace h' = trace h.
Proof.
  revert fuel top h.
  induction below as [|d rest IH]; intros fuel top h (t & Ht & Hrest) Hc Hnd.
  - cbn [length Nat.add]. rewrite (release_last _ _ _ _ Ht) by lia.
    rewrite Hrest. cbn [foldM bind].
    pose proof (lookup_task_lt _ _ _ Ht) as Hlt.
    eexists. split; [done|]. split.
    { intros k Hk. apply list_elem_of_singleton in Hk as ->. unfold alive.
      rewrite lookup_task_with_chans, lookup_task_with_instanceCount.
      rewrite lookup_task_destroyed. by rewrite decide_True. }
    split.
    { intros k Hk. apply not_elem_of_cons in Hk as [Hk _]. split.
      - rewrite lookup_task_with_chans, lookup_task_with_instanceCount.
        rewrite lookup_task_destroyed. by rewrite decide_False.
      - rewrite strong_count_with_chans.
        change (strong_count k (with_instanceCount ?c ?x)) with (strong_count k x).
        rewrite strong_count_insert by done. by rewrite decide_False. }
    split; [reflexivity|done].
  - destruct Hrest as (Hdeps & Hcd & Hchain).
    apply NoDup_cons in Hnd as [Htop Hnd].
    pose proof (lookup_task_lt _ _ _ Ht) as Hlt.
    change (S (length (d :: rest)) + fuel) with (S (S (length rest) + fuel)).
    rewrite (release_last _ _ _ _ Ht) by lia. rewrite Hdeps.
    set (h0 := with_instanceCount (wrap32 (s_instanceCount h - 1))
                 (with_tasks (<[top:=None]> (tasks h)) h)).
    assert (Hlook0 : forall k,
      lookup_task k h0 = if decide (top = k) then None else lookup_task k h).
    { intros k. unfold h0. rewrite lookup_task_with_instanceCount.
      apply lookup_task_destroyed. }
    assert (Hcount0 : forall k,
      strong_count k h0 = if decide (top = k) then 0 else strong_count k h).
    { intros k. unfold h0.
      change (strong_count k (with_instanceCount ?c ?x)) with (strong_count k x).
      by rewrite strong_count_insert. }
    assert (Hframe : forall k, k ∈ d :: rest ->
      lookup_task k h0 = lookup_task k h /\ strong_count k h0 = strong_count k h).
    { intros k Hk. rewrite Hlook0, Hcount0.
      rewrite !decide_False; [done|intros ->; done..]. }
    destruct (IH fuel d h0) as (h2 & Hr & Hdead & Hkeep & Hic & Htr).
    { by apply (owned_chain_frame h). }
    { rewrite (proj2 (Hframe d (list_elem_of_here _ _))). done. }
    { done. }
    cbn [foldM]. rewrite Hr. cbn [bind].
    eexists. split; [done|]. split.
    { intros k Hk. unfold alive. rewrite lookup_task_with_chans.
      apply elem_of_cons in Hk as [->|Hk].
      - destruct (Hkeep top Htop) as [-> _]. rewrite Hlook0.
        by rewrite decide_True.
      - specialize (Hdead k Hk). unfold alive in Hdead. exact Hdead. }
    split.
    { intros k Hk. apply not_elem_of_cons in Hk as [Hk1 Hk2].
      rewrite lookup_task_with_chans, strong_count_with_chans.
      destruct (Hkeep k Hk2) as [-> ->]. rewrite Hlook0, Hcount0.
      by rewrite !decide_False. }
    split; [|simpl; by rewrite Htr].
    simpl. rewrite Hic. unfold h0. simpl. apply wrap32_pred_sub.
Qed.

(** ** Calls that return *)

Lemma bind_no_fuel {A B} (r : Result A) (k : A -> Result B) :
  r <> OutOfFuel -> (forall a, k a <> OutOfFuel) -> bind r k <> OutOfFuel.
Proof. destruct r; simpl; auto. Qed.

Lemma deref_no_fuel n h : deref n h <> OutOfFuel.
Proof. unfold deref. by destruct (lookup_task n h). Qed.

Lemma set_value_no_fuel p v cs : set_value p v cs <> OutOfFuel.
Proof.
  unfold set_value. destruct p as [c|]; [|done]. by destruct (cs !! c) as [[]|].
Qed.

Lemma future_get_no_fuel f cs : future_get f cs <> OutOfFuel.
Proof.
  unfold future_get. destruct f as [c|]; [|done]. by destruct (cs !! c) as [[]|].
Qed.

Lemma method_no_fuel n m h : method n m h <> OutOfFuel.
Proof.
  unfold method. apply bind_no_fuel; [apply deref_no_fuel|].
  intros t. by destruct (m t (chans h)).
Qed.

Lemma addDependencies_pack_no_fuel deps : forall n h,
  addDependencies_pack n deps h <> OutOfFuel.
Proof.
  induction deps as [|d deps IH]; intros n h; simpl.
  - by apply bind_no_fuel; [apply deref_no_fuel|].
  - apply bind_no_fuel; [apply deref_no_fuel|]. intros t. apply IH.
Qed.

(* A call that neither runs a task nor destroys a handle is one step. *)
Lemma run_op_quiet inv rel op h :
  keeps_wiring op = true -> run_op inv rel op h <> OutOfFuel.
Proof.
  intros Hop. destruct op; cbn [run_op]; try done;
    try apply method_no_fuel.
  - by apply bind_no_fuel; [apply deref_no_fuel|].
  - unfold addDependencies. by apply bind_no_fuel; [apply deref_no_fuel|].
  - apply addDependencies_pack_no_fuel.
  - apply bind_no_fuel; [apply deref_no_fuel|]. intros t.
    by apply bind_no_fuel; [apply set_value_no_fuel|].
  - apply bind_no_fuel; [apply deref_no_fuel|]. intros t.
    by apply bind_no_fuel; [apply future_get_no_fuel|].
  - apply bind_no_fuel; [apply deref_no_fuel|]. intros tt.
    apply bind_no_fuel; [apply deref_no_fuel|]. intros tn.
    unfold trySetFuncResult.
    destruct f; repeat (apply bind_no_fuel;
      [first [apply future_get_no_fuel|apply set_value_no_fuel]|intros ?]); done.
Qed.

Lemma foldM_quiet inv rel body : forall h,
  forallb keeps_wiring body = true ->
  foldM (run_op inv rel) body h <> OutOfFuel.
Proof.
  induction body as [|op body IH]; intros h Hbody; simpl in *; [done|].
  apply andb_true_iff in Hbody as [Hop Hbody].
  apply bind_no_fuel; [by apply run_op_quiet|]. intros a. by apply IH.
Qed.

Lemma keeps_wiring_drop_free op : keeps_wiring op = true -> drop_free op = true.
Proof. by destruct op. Qed.

Lemma keeps_wiring_drop_free_all body :
  forallb keeps_wiring body = true -> forallb drop_free body = true.
Proof.
  induction body as [|op body IH]; simpl; [done|]. intros H.
  apply andb_true_iff in H as [Hop Hbody].
  by rewrite (keeps_wiring_drop_free _ Hop), IH.
Qed.

#[local] Instance rewires_nothing_refl : Reflexive rewires_nothing.
Proof.
  intros h. split; [done|]. intros n t' Hn. left. by rewrite (alive_Some _ _ _ Hn).
Qed.

#[local] Instance rewires_nothing_trans : Transitive rewires_nothing.
Proof.
  intros h1 h2 h3 [Hw12 Hb12] [Hw23 Hb23]. split.
  - intros n body c Hw. by apply Hw23, Hw12.
  - intros n t3 Hn3. destruct (Hb23 n t3 Hn3) as [Ha2|Hblank]; [|by right].
    unfold alive in Ha2. destruct (lookup_task n h2) as [t2|] eqn:Hn2; [|done].
    destruct (Hb12 n t2 Hn2) as [Ha1|[Hf2 Hc2]]; [by left|]. right.
    destruct (Hw23 n None None) as (t & Ht & Hf & Hc); [by exists t2|].
    rewrite Hn3 in Ht. by injection Ht as <-.
Qed.

Lemma rewires_nothing_same h h' :
  (forall k, lookup_task k h' = lookup_task k h) -> rewires_nothing h h'.
Proof.
  intros Hl. split.
  - intros n body c (t & Hn & Hw). exists t. by rewrite Hl.
  - intros n t' Hn. left. unfold alive. by rewrite <- Hl, Hn.
Qed.

Lemma alive_method k n m h h' : method n m h = Ok h' -> alive k h' = alive k h.
Proof.
  intros H. unfold method in H. bind_inv H. apply deref_Ok_inv in Ha.
  destruct (m a (chans h)) as [t' cs]. injection H as <-. unfold alive.
  rewrite lookup_task_with_chans. destruct (decide (n = k)) as [<-|Hne].
  - by rewrite (lookup_task_store_eq _ _ _ _ Ha), Ha.
  - by rewrite lookup_task_store_ne.
Qed.

Lemma alive_addDependencies k n deps h h' :
  addDependencies n deps h = Ok h' -> alive k h' = alive k h.
Proof.
  intros H. unfold addDependencies in H. bind_inv H. apply deref_Ok_inv in Ha.
  injection H as <-. unfold alive. destruct (decide (n = k)) as [<-|Hne].
  - erewrite lookup_task_store_eq
      by (rewrite lookup_task_foldr_acquire; exact Ha). by rewrite Ha.
  - by rewrite lookup_task_store_ne, lookup_task_foldr_acquire.
Qed.

Lemma rewires_nothing_run_op inv rel op h h' :
  keeps_wiring op = true ->
  run_op inv rel op h = Ok h' ->
  rewires_nothing h h'.
Proof.
  intros Hop H. split.
  { intros n body c. by eapply wired_run_op. }
  assert (Hback : (forall k, alive k h' = alive k h) ->
    forall n t', lookup_task n h' = Some t' ->
      alive n h = true \/ (m_function t' = None /\ m_continuation t' = None)).
  { intros Ha n t' Hn. left. rewrite <- Ha. by rewrite (alive_Some _ _ _ Hn). }
  destruct op; cbn [run_op] in H; try done.
  - rewrite make_shared_Task_spec in H. cbn [snd] in H. injection H as <-.
    set (h1 := with_chans _ _). set (e := mkManaged _ 1).
    intros n t' Hn. destruct (decide (n = length (tasks h))) as [->|Hne].
    + right.
      assert (Hnew : lookup_task (length (tasks h))
                       (with_tasks (tasks h ++ [Some e]) h1) = Some (object e))
        by exact (lookup_task_push_new e h1).
      rewrite Hnew in Hn. by injection Hn as <-.
    + left.
      assert (Hold : lookup_task n (with_tasks (tasks h ++ [Some e]) h1)
                     = lookup_task n h) by exact (lookup_task_push_old n e h1 Hne).
      rewrite Hold in Hn. by rewrite (alive_Some _ _ _ Hn).
  - bind_inv H. injection H as <-. apply Hback. intros k. unfold alive.
    by rewrite lookup_task_acquire.
  - apply Hback. intros k. by eapply alive_method.
  - apply Hback. intros k. by eapply alive_method.
  - apply Hback. intros k. by eapply alive_addDependencies.
  - assert (exists t, lookup_task n h = Some t) as [t Hn].
    { destruct deps; simpl in H; bind_inv H; apply deref_Ok_inv in Ha; eauto. }
    rewrite (addDependencies_pack_eq deps n t h Hn) in H.
    apply Hback. intros k. by eapply alive_addDependencies.
  - apply Hback. intros k. by eapply alive_method.
  - apply Hback. intros k. by eapply alive_method.
  - repeat bind_inv H. injection H as <-. by apply Hback.
  - repeat bind_inv H. injection H as <-. by apply Hback.
  - repeat bind_inv H. unfold trySetFuncResult in H.
    destruct f; repeat bind_inv H; injection H as <-; by apply Hback.
Qed.

Lemma rewires_nothing_foldM inv rel body : forall h h',
  forallb keeps_wiring body = true ->
  foldM (run_op inv rel) body h = Ok h' ->
  rewires_nothing h h'.
Proof.
  induction body as [|op body IH]; intros h h' Hbody H; simpl in *.
  - injection H as <-. reflexivity.
  - apply andb_true_iff in Hbody as [Hop Hbody]. bind_inv H.
    transitivity a; [by eapply rewires_nothing_run_op|by eapply IH].
Qed.

Lemma quiet_functions_rewires h h' :
  rewires_nothing h h' -> quiet_functions h -> quiet_functions h'.
Proof.
  intros [Hw Hb] Hq n t' body Hn Hf. destruct (Hb n t' Hn) as [Ha|[Hblank _]].
  - unfold alive in Ha. destruct (lookup_task n h) as [t|] eqn:Hn0; [|done].
    destruct (Hw n (m_function t) (m_continuation t)) as (t1 & Ht1 & Hf1 & _);
      [by exists t|].
    rewrite Hn in Ht1. injection Ht1 as <-. apply (Hq n t body Hn0). congruence.
  - congruence.
Qed.

Lemma ends_within_rewires k : forall h h' n,
  rewires_nothing h h' -> ends_within k h n -> ends_within k h' n.
Proof.
  induction k as [|k IH]; intros h h' n [Hw Hb] Hend; [done|].
  simpl in *. destruct (lookup_task n h') as [t'|] eqn:Hn'; [|done].
  destruct (Hb n t' Hn') as [Ha|[_ Hblank]]; [|by rewrite Hblank].
  unfold alive in Ha. destruct (lookup_task n h) as [t|] eqn:Hn; [|done].
  destruct (Hw n (m_function t) (m_continuation t)) as (t1 & Ht1 & _ & Hc1);
    [by exists t|].
  rewrite Hn' in Ht1. injection Ht1 as <-. rewrite Hc1.
  destruct (m_continuation t) as [c|]; [|done]. by apply (IH h).
Qed.

Lemma invoke_quiet_returns k : forall n h,
  quiet_functions h ->
  keeps_handles h ->
  ends_within k h n ->
  invoke k n h <> OutOfFuel.
Proof.
  induction k as [|k IH]; intros n h Hq Hkeep Hend; [done|].
  simpl in Hend. destruct (lookup_task n h) as [t|] eqn:Hn.
  2: { simpl. unfold deref. by rewrite Hn. }
  destruct (m_function t) as [body|] eqn:Hf.
  2: { by rewrite (invoke_no_function _ _ _ _ Hn Hf). }
  rewrite (invoke_unfold _ _ _ _ _ Hn Hf).
  pose proof (Hq n t body Hn Hf) as Hbody.
  unfold function_stage, run_body, exec, exec_op.
  set (hb := log (EvFunction n)
               (scope_begin (m_collector t) (m_name t) (m_debugColor t) h)).
  pose proof (foldM_quiet (invoke k) (release k) body hb Hbody) as Hno.
  destruct (foldM (run_op (invoke k) (release k)) body hb) as [h2| | | | |] eqn:Hrun;
    cbn [bind]; try done.
  set (h3 := scope_end (m_collector t) h2).
  assert (Hre : rewires_nothing h h3).
  { transitivity hb.
    { apply rewires_nothing_same. intros j. unfold hb. by autorewrite with heap. }
    transitivity h2; [by eapply rewires_nothing_foldM|].
    apply rewires_nothing_same. intros j. unfold h3. by autorewrite with heap. }
  assert (Hnr : nothing_released h h3).
  { transitivity hb.
    { apply nothing_released_same; intros j; unfold hb; by autorewrite with heap. }
    transitivity h2.
    - eapply nothing_released_foldM; [|by apply keeps_wiring_drop_free_all|exact Hrun].
      intros m. apply nothing_released_invoke.
    - apply nothing_released_same; intros j; unfold h3; by autorewrite with heap. }
  destruct (Hnr Hkeep) as [Hkeep3 _].
  unfold deref. destruct (lookup_task n h3) as [t'|] eqn:Hn3; cbn [bind]; [|done].
  case_bool_decide; [done|]. unfold fire_continuation.
  destruct (bool_decide (m_status t' = TsDone)
            && negb (expired (m_continuation t') h3)); [|done].
  destruct (lock (m_continuation t') h3) as [c|] eqn:Hlock; [|done].
  assert (Hc : m_continuation t' = Some c /\ alive c h3 = true).
  { unfold lock in Hlock. destruct (m_continuation t') as [c'|]; [|done].
    destruct (alive c' h3) eqn:E; [|done]. by injection Hlock as <-. }
  destruct Hc as [Hc Hc_alive].
  assert (Hct : m_continuation t = Some c).
  { destruct (proj1 Hre n (m_function t) (m_continuation t)) as (t1 & Ht1 & _ & Hc1);
      [by exists t|].
    rewrite Hn3 in Ht1. injection Ht1 as <-. congruence. }
  rewrite Hct in Hend.
  assert (Hacq_re : rewires_nothing h3 (acquire c h3)).
  { apply rewires_nothing_same. intros j. apply lookup_task_acquire. }
  assert (Hacq_nr : nothing_released h3 (acquire c h3)).
  { apply nothing_released_same.
    - intros j. apply lookup_task_acquire.
    - intros j. rewrite strong_count_acquire. lia. }
  destruct (Hacq_nr Hkeep3) as [Hkeepa _].
  assert (Hend' : ends_within k (acquire c h3) c).
  { apply (ends_within_rewires k h); [by transitivity h3|done]. }
  assert (Hq' : quiet_functions (acquire c h3)).
  { apply (quiet_functions_rewires h); [by transitivity h3|done]. }
  pose proof (IH c (acquire c h3) Hq' Hkeepa Hend') as Hcall.
  destruct (invoke k c (acquire c h3)) as [h4| | | | |] eqn:Hinv; cbn [bind]; try done.
  destruct (nothing_released_invoke _ _ _ _ Hinv Hkeepa) as [_ Hc4].
  specialize (Hc4 c). rewrite strong_count_acquire in Hc4.
  rewrite decide_True, Hc_alive in Hc4 by done.
  pose proof (proj2 Hkeep3 c Hc_alive) as Hpos.
  destruct k as [|k']; [done|].
  destruct (release_shared k' c (strong_count c h4 - 2) h4) as (h5 & Hr & _); [lia|].
  by rewrite Hr.
Qed.

(** X15: the recursion of [operator()] through continuations is bounded
    when no function stored in a task calls a task, destroys a handle or
    changes a function or a continuation, every live task has an owner,
    and the continuation references that start at the task end after [k]
    tasks.  The call then has its outcome (it returns, fails an assertion,
    leaves by an exception or waits on a future) within [k] calls inside
    one another, and the same outcome within every larger budget. *)
Theorem invoke_returns_on_finite_chain (k fuel : nat) (n : task_id) (h : Heap) :
  quiet_functions h ->
  (forall m, alive m h = true -> 0 < strong_count m h) ->
  ends_within k h n ->
  k <= fuel ->
  invoke fuel n h <> OutOfFuel /\ invoke fuel n h = invoke k n h.
Proof.
  intros Hq Hown Hend Hle.
  assert (Hkeep : keeps_handles h).
  { split; [|done]. intros m t body Hm Hf.
    apply keeps_wiring_drop_free_all. by eapply Hq. }
  pose proof (invoke_quiet_returns k n h Hq Hkeep Hend) as Hk.
  assert (Heq : invoke fuel n h = invoke k n h).
  { induction Hle as [|fuel Hle IH]; [done|].
    rewrite <- IH. apply invoke_stable. by rewrite IH. }
  split; [by rewrite Heq|done].
Qed.

(** ** What [operator()] leaves to the function *)

Lemma status_method n s n0 m h h' :
  (n0 <> n \/ forall t cs, m_status (m t cs).1 = m_status t) ->
  method n0 m h = Ok h' ->
  (getStatus <$> lookup_task n h) = Some s ->
  (getStatus <$> lookup_task n h') = Some s.
Proof.
  intros Hm H Hn. unfold method in H. bind_inv H. apply deref_Ok_inv in Ha.
  assert (Hst : n0 <> n \/ m_status (m a (chans h)).1 = m_status a).
  { destruct Hm as [Hm|Hm]; [by left|right; apply Hm]. }
  destruct (m a (chans h)) as [t' cs]. injection H as <-.
  rewrite lookup_task_with_chans. destruct (decide (n0 = n)) as [->|Hne].
  - rewrite (lookup_task_store_eq _ _ _ _ Ha). rewrite Ha in Hn. simpl in *.
    destruct Hst as [Hst|Hst]; [done|]. unfold getStatus in *. congruence.
  - by rewrite lookup_task_store_ne.
Qed.

Lemma status_addDependencies n s n0 deps h h' :
  addDependencies n0 deps h = Ok h' ->
  (getStatus <$> lookup_task n h) = Some s ->
  (getStatus <$> lookup_task n h') = Some s.
Proof.
  intros H Hn. unfold addDependencies in H. bind_inv H. apply deref_Ok_inv in Ha.
  injection H as <-. destruct (decide (n0 = n)) as [->|Hne].
  - erewrite lookup_task_store_eq
      by (rewrite lookup_task_foldr_acquire; exact Ha).
    rewrite Ha in Hn. exact Hn.
  - by rewrite lookup_task_store_ne, lookup_task_foldr_acquire.
Qed.

Lemma status_run_op inv rel n s op h h' :
  leaves_status n op = true ->
  run_op inv rel op h = Ok h' ->
  (getStatus <$> lookup_task n h) = Some s ->
  (getStatus <$> lookup_task n h') = Some s.
Proof.
  intros Hop H Hn. apply andb_true_iff in Hop as [Hop Hst].
  destruct op; cbn [run_op] in H; try done.
  - rewrite make_shared_Task_spec in H. cbn [snd] in H. injection H as <-.
    set (h1 := with_chans _ _). set (e := mkManaged _ 1).
    assert (Hlt : n < length (tasks h)).
    { destruct (lookup_task n h) as [t|] eqn:E; [|done]. by eapply lookup_task_lt. }
    assert (Hold : lookup_task n (with_tasks (tasks h ++ [Some e]) h1)
                   = lookup_task n h)
      by (apply (lookup_task_push_old n e h1); unfold h1; simpl; lia).
    by rewrite Hold.
  - bind_inv H. injection H as <-. by rewrite lookup_task_acquire.
  - refine (status_method _ _ _ _ _ _ _ H Hn). left.
    apply negb_true_iff in Hst. by apply bool_decide_eq_false in Hst.
  - refine (status_method _ _ _ _ _ _ _ H Hn). by right.
  - by eapply status_addDependencies.
  - assert (exists t, lookup_task n0 h = Some t) as [t Hn0].
    { destruct deps; simpl in H; bind_inv H; apply deref_Ok_inv in Ha; eauto. }
    rewrite (addDependencies_pack_eq deps n0 t h Hn0) in H.
    by eapply status_addDependencies.
  - refine (status_method _ _ _ _ _ _ _ H Hn). by right.
  - refine (status_method _ _ _ _ _ _ _ H Hn). by right.
  - repeat bind_inv H. by injection H as <-.
  - repeat bind_inv H. by injection H as <-.
  - repeat bind_inv H. unfold trySetFuncResult in H.
    destruct f; repeat bind_inv H; by injection H as <-.
Qed.

Lemma status_foldM inv rel n s body : forall h h',
  forallb (leaves_status n) body = true ->
  foldM (run_op inv rel) body h = Ok h' ->
  (getStatus <$> lookup_task n h) = Some s ->
  (getStatus <$> lookup_task n h') = Some s.
Proof.
  induction body as [|op body IH]; intros h h' Hbody H Hn; simpl in *.
  - by injection H as <-.
  - apply andb_true_iff in Hbody as [Hop Hbody]. bind_inv H.
    eapply IH; [done..|]. by eapply status_run_op.
Qed.

(** X16: [operator()] does not set the status of the task; that is left
    to the function.  When the function of a task calls no task, rewires
    nothing and does not call [setStatus] on the task, the status after the
    function has returned is the status before the call.  A task that is
    invalid when it is called (as every new task is) then fails the status
    assertion once its function has returned, and never returns normally
    from [operator()]. *)
Theorem operator_call_never_sets_status (fuel : nat) (n : task_id) (t : Task)
    (body : list Op) (h : Heap) :
  lookup_task n h = Some t ->
  m_function t = Some body ->
  forallb (leaves_status n) body = true ->
  (forall h3, function_stage fuel n t body h = Ok h3 ->
     (getStatus <$> lookup_task n h3) = Some (getStatus t))
  /\ (getStatus t = TsInvalid ->
      (forall h3, function_stage fuel n t body h = Ok h3 ->
         invoke (S fuel) n h = Abort AssertStatusNotInvalid)
      /\ (forall h', invoke (S fuel) n h <> Ok h')).
Proof.
  intros Hn Hf Hbody.
  assert (Hstage : forall h3, function_stage fuel n t body h = Ok h3 ->
            (getStatus <$> lookup_task n h3) = Some (getStatus t)).
  { intros h3 H. unfold function_stage, run_body, exec, exec_op in H.
    apply bind_Ok_inv in H as (h2 & Hrun & H). cbv beta in H. injection H as <-.
    rewrite lookup_task_scope_end.
    eapply status_foldM; [exact Hbody|exact Hrun|].
    autorewrite with heap. by rewrite Hn. }
  split; [done|]. intros Hinvalid.
  assert (Hfail : forall h3, function_stage fuel n t body h = Ok h3 ->
            invoke (S fuel) n h = Abort AssertStatusNotInvalid).
  { intros h3 H. rewrite (invoke_unfold _ _ _ _ _ Hn Hf), H. cbn [bind].
    specialize (Hstage h3 H). destruct (lookup_task n h3) as [t'|] eqn:Hn3; [|done].
    rewrite (deref_Some _ _ _ Hn3). cbn [bind]. simpl in Hstage.
    injection Hstage as Hs. unfold getStatus in *.
    by rewrite bool_decide_eq_true_2 by congruence. }
  split; [done|]. intros h' H.
  destruct (function_stage fuel n t body h) as [h3| | | | |] eqn:E.
  - by rewrite (Hfail h3 eq_refl) in H.
  - rewrite (invoke_unfold _ _ _ _ _ Hn Hf), E in H. done.
  - rewrite (invoke_unfold _ _ _ _ _ Hn Hf), E in H. done.
  - rewrite (invoke_unfold _ _ _ _ _ Hn Hf), E in H. done.
  - rewrite (invoke_unfold _ _ _ _ _ Hn Hf), E in H. done.
  - rewrite (invoke_unfold _ _ _ _ _ Hn Hf), E in H. done.
Qed.

(** ** What never changes *)

#[local] Instance same_identity_refl : Reflexive same_identity.
Proof. intros h. split; [done|]. intros n t' Hn. left. eauto. Qed.

#[local] Instance same_identity_trans : Transitive same_identity.
Proof.
  intros h1 h2 h3 [Hl12 H12] [Hl23 H23]. split; [lia|].
  intros n t3 Hn3. destruct (H23 n t3 Hn3) as [(t2 & Hn2 & Hname & Hflag)|Hnew].
  - destruct (H12 n t2 Hn2) as [(t1 & Hn1 & Hname1 & Hflag1)|Hnew]; [|by right].
    left. exists t1. split; [done|]. split; congruence.
  - right. lia.
Qed.

Lemma same_identity_survive h h' :
  length (tasks h) <= length (tasks h') ->
  (forall k t, lookup_task k h' = Some t -> lookup_task k h = Some t) ->
  same_identity h h'.
Proof. intros Hlen Hl. split; [done|]. intros n t' Hn. left. eauto. Qed.

Lemma same_identity_acquire n h : same_identity h (acquire n h).
Proof.
  apply same_identity_survive.
  - unfold acquire. simpl. by rewrite length_alter.
  - intros k t. by rewrite lookup_task_acquire.
Qed.

Lemma same_identity_log e h : same_identity h (log e h).
Proof. by apply same_identity_survive. Qed.

Lemma same_identity_release fuel : forall n h h',
  release fuel n h = Ok h' -> same_identity h h'.
Proof.
  induction fuel as [|fuel IH]; intros n h h' H; [discriminate|].
  simpl in H. destruct (tasks h !! n) as [[e|]|] eqn:En; try discriminate.
  assert (Hlast :
    (perform h1 := Task_dtor (object e) (with_tasks (<[n:=None]> (tasks h)) h) in
     perform h2 := foldM (release fuel) (m_dependencies (object e)) h1 in
     Ok (with_chans (abandon (m_promise (object e)) (chans h2)) h2)) = Ok h' ->
    same_identity h h').
  { clear H. intros H. rewrite Task_dtor_Ok in H. cbn [bind] in H. bind_inv H.
    injection H as <-.
    transitivity a; [|by apply same_identity_survive].
    etransitivity; [|eapply (foldM_preserves same_identity); eauto].
    apply same_identity_survive.
    - simpl. by rewrite length_insert.
    - intros k t Hk. rewrite lookup_task_with_instanceCount in Hk.
      rewrite lookup_task_destroyed in Hk. by case_decide. }
  destruct (use_count e) as [|[|k]]; [by apply Hlast..|].
  injection H as <-. apply same_identity_survive.
  - simpl. by rewrite length_insert.
  - intros j t Hj. by rewrite (lookup_task_recount n j e _ h En) in Hj.
Qed.

Lemma same_identity_method n m h h' :
  (forall t cs, m_name (m t cs).1 = m_name t
                /\ m_isContinuation (m t cs).1 = m_isContinuation t) ->
  method n m h = Ok h' ->
  same_identity h h'.
Proof.
  intros Hm H. unfold method in H. bind_inv H. apply deref_Ok_inv in Ha.
  specialize (Hm a (chans h)). destruct (m a (chans h)) as [t' cs].
  injection H as <-. simpl in Hm. split.
  - unfold store. simpl. by rewrite length_alter.
  - intros k tk Hk. left. rewrite lookup_task_with_chans in Hk.
    destruct (decide (n = k)) as [<-|Hne].
    + rewrite (lookup_task_store_eq _ _ _ _ Ha) in Hk. injection Hk as <-.
      exists a. by destruct Hm.
    + rewrite lookup_task_store_ne in Hk by done. eauto.
Qed.

Lemma length_foldr_acquire deps h :
  length (tasks (foldr acquire h deps)) = length (tasks h).
Proof.
  induction deps as [|d deps IH]; simpl; [done|]. by rewrite length_alter.
Qed.

Lemma same_identity_addDependencies n deps h h' :
  addDependencies n deps h = Ok h' -> same_identity h h'.
Proof.
  intros H. unfold addDependencies in H. bind_inv H. apply deref_Ok_inv in Ha.
  injection H as <-. split.
  - unfold store. simpl. by rewrite length_alter, length_foldr_acquire.
  - intros k tk Hk. left. destruct (decide (n = k)) as [<-|Hne].
    + erewrite lookup_task_store_eq in Hk
        by (rewrite lookup_task_foldr_acquire; exact Ha).
      injection Hk as <-. eauto.
    + rewrite lookup_task_store_ne, lookup_task_foldr_acquire in Hk by done. eauto.
Qed.

Lemma same_identity_make_shared name color isCont h :
  same_identity h (make_shared_Task name color isCont h).2.
Proof.
  rewrite make_shared_Task_spec. cbn [snd].
  set (h1 := with_chans _ _). set (e := mkManaged _ 1). split.
  - simpl. rewrite length_app. lia.
  - intros k tk Hk. destruct (decide (k = length (tasks h))) as [->|Hne].
    + by right.
    + left.
      assert (Hold : lookup_task k (with_tasks (tasks h ++ [Some e]) h1)
                     = lookup_task k h) by exact (lookup_task_push_old k e h1 Hne).
      rewrite Hold in Hk. eauto.
Qed.

Lemma same_identity_then this f name color h r :
  then_ this f name color h = Ok r -> same_identity h r.2.
Proof.
  intros H. assert (exists tN, lookup_task this h = Some tN) as [tN Hthis].
  { unfold then_ in H. bind_inv H. apply deref_Ok_inv in Ha. eauto. }
  destruct (then_spec this f name color tN h Hthis)
    as (h' & Hrun & Hl & HM & Hother & _).
  rewrite Hrun in H. injection H as <-. cbn [snd]. split.
  - pose proof (lookup_task_lt _ _ _ HM). lia.
  - intros k tk Hk. destruct (decide (k = length (tasks h))) as [->|HkM]; [by right|].
    left. destruct (decide (k = this)) as [->|Hkt].
    + rewrite Hl in Hk. injection Hk as <-. eauto.
    + rewrite Hother in Hk by done. eauto.
Qed.

Lemma same_identity_run_op inv rel :
  (forall n h h', inv n h = Ok h' -> same_identity h h') ->
  (forall n h h', rel n h = Ok h' -> same_identity h h') ->
  forall op h h', run_op inv rel op h = Ok h' -> same_identity h h'.
Proof.
  intros Hinv Hrel op h h' H. destruct op; cbn [run_op] in H.
  - injection H as <-. apply same_identity_make_shared.
  - bind_inv H. injection H as <-. apply same_identity_acquire.
  - by eapply Hrel.
  - by eapply Hinv.
  - bind_inv H. injection H as <-. by eapply same_identity_then.
  - refine (same_identity_method _ _ _ _ _ H). intros t cs. unfold setStatus.
    by destruct (_ && _).
  - by refine (same_identity_method _ _ _ _ _ H).
  - by refine (same_identity_method _ _ _ _ _ H).
  - by refine (same_identity_method _ _ _ _ _ H).
  - by eapply same_identity_addDependencies.
  - assert (exists t, lookup_task n h = Some t) as [t Hn].
    { destruct deps; simpl in H; bind_inv H; apply deref_Ok_inv in Ha; eauto. }
    rewrite (addDependencies_pack_eq deps n t h Hn) in H.
    by eapply same_identity_addDependencies.
  - by refine (same_identity_method _ _ _ _ _ H).
  - by refine (same_identity_method _ _ _ _ _ H).
  - repeat bind_inv H. injection H as <-. by apply same_identity_survive.
  - repeat bind_inv H. by injection H as <-.
  - repeat bind_inv H. unfold trySetFuncResult in H.
    destruct f; repeat bind_inv H; injection H as <-; by apply same_identity_survive.
Qed.

(** X17: the name and the continuation flag of a task are fixed by its
    constructor: no member function writes them, so whatever a client
    program does, a task that is still alive has the name and the flag it
    had.  A task that has been destroyed stays destroyed, so that a
    continuation reference that is expired stays expired. *)
Theorem name_and_flag_never_change (fuel : nat) (prog : list Op) (h h' : Heap) :
  exec fuel prog h = Ok h' ->
  (forall n t t', lookup_task n h = Some t -> lookup_task n h' = Some t' ->
     isContinuation t' = isContinuation t /\ m_name t' = m_name t)
  /\ (forall n, n < length (tasks h) -> alive n h = false -> alive n h' = false)
  /\ (forall c, c < length (tasks h) -> expired (Some c) h = true ->
        expired (Some c) h' = true).
Proof.
  intros H.
  assert (Hid : same_identity h h').
  { revert H. apply (exec_preserves same_identity).
    - apply same_identity_acquire.
    - apply same_identity_log.
    - apply same_identity_release.
    - apply same_identity_run_op. }
  destruct Hid as [Hlen Hid].
  assert (Hdead : forall n, n < length (tasks h) -> alive n h = false ->
            alive n h' = false).
  { intros n Hlt Hn. unfold alive in *.
    destruct (lookup_task n h') as [t'|] eqn:Hn'; [|done].
    destruct (Hid n t' Hn') as [(t & Hn0 & _)|Hnew]; [|lia]. by rewrite Hn0 in Hn. }
  split.
  { intros n t t' Hn Hn'. destruct (Hid n t' Hn') as [(t0 & Hn0 & Hname & Hflag)|Hnew].
    - rewrite Hn in Hn0. injection Hn0 as <-. done.
    - pose proof (lookup_task_lt _ _ _ Hn). lia. }
  split; [done|].
  intros c Hlt Hexp. simpl in *. apply negb_true_iff in Hexp.
  by rewrite (Hdead c Hlt Hexp).
Qed.

End Model.

(** * The scenarios of the specification, with integer results *)

Lemma getTimeIntervalCollector_returns_stored_witness :
  exists h',
    exec_op 0 (OpSetTimeIntervalCollector 0 (Some 3)) (heap_A 21%Z) = Ok h'
    /\ (getTimeIntervalCollector (Some 9) <$> lookup_task 0 h') = Some (Some 3).
Proof.
  apply (proj2 (proj2 getTimeIntervalCollector_returns_stored)
           0 (Some 3) (Some 9) (task_A 21%Z) (heap_A 21%Z)).
  reflexivity.
Defined.

Lemma addDependencies_appends_witness :
  (exists h',
      addDependencies 0 [0; 0] (heap_A 21%Z) = Ok h'
      /\ (getDependencies <$> lookup_task 0 h') = Some ([] ++ [0; 0]))
  /\ (exists h',
      addDependencies_pack 0 [0; 0] (heap_A 21%Z) = Ok h'
      /\ (getDependencies <$> lookup_task 0 h') = Some ([] ++ [0; 0]))
  /\ addDependencies_pack 0 [] (heap_A 21%Z) = Ok (heap_A 21%Z).
Proof.
  apply (addDependencies_appends 0 (task_A 21%Z) (heap_A 21%Z) [0; 0]). reflexivity.
Defined.

Lemma instance_count_tracks_live_objects_witness :
  s_instanceCount
    (built_by [OpMakeShared "A" None false; OpThen 0 (FnOfArg double) "B" None;
               OpDropHandle 1; OpDropHandle 0])
  = s_instanceCount (@empty_heap Z).
Proof.
  eapply (proj2 (proj2 (proj2 instance_count_tracks_live_objects)) 8
            [OpMakeShared "A" None false; OpThen 0 (FnOfArg double) "B" None;
             OpDropHandle 1; OpDropHandle 0]).
  - vm_compute. split; [discriminate|reflexivity].
  - vm_compute. reflexivity.
  - intros [|[|n]]; vm_compute; reflexivity.
Defined.

Lemma then_wires_continuation_witness :
  exists M h',
    then_ 0 (FnOfArg double) "B" None (heap_A 21%Z) = Ok (M, h')
    /\ lookup_task M (heap_A 21%Z) = None
    /\ trace h' = trace (heap_A 21%Z)
    /\ (forall c st, chans (heap_A 21%Z) !! c = Some st -> chans h' !! c = Some st)
    /\ (forall k t, lookup_task k (heap_A 21%Z) = Some t ->
          (getStatus <$> lookup_task k h') = Some (getStatus t))
    /\ (isContinuation <$> lookup_task M h') = Some true
    /\ (getDependencies <$> lookup_task M h') = Some [0]
    /\ (getStatus <$> lookup_task M h') = Some TsInvalid
    /\ (getContinuation <$> lookup_task 0 h') = Some (Some M)
    /\ strong_count 0 h' = S (strong_count 0 (heap_A 21%Z))
    /\ strong_count M h' = 1.
Proof.
  apply (proj1 (then_wires_continuation 0 (task_A 21%Z) (heap_A 21%Z) eq_refl)).
Defined.

Lemma invoke_skips_destroyed_continuation_witness :
  invoke 1 0 (heap_dangling 21%Z (FnOfArg double))
  = Ok (returned (function_stage 0 0 (task_A_dangling 21%Z) (produce_function 0 21%Z)
                    (heap_dangling 21%Z (FnOfArg double)))).
Proof.
  apply (proj1 invoke_skips_destroyed_continuation 0 0 (task_A_dangling 21%Z)
           (with_status TsDone (task_A_dangling 21%Z)) (produce_function 0 21%Z)
           (heap_dangling 21%Z (FnOfArg double)));
    reflexivity.
Defined.

(** C1, counterexample: A is chained into B and the handle of B is dropped,
    so that the continuation reference of A is set and its target is
    destroyed.  Running A returns normally with A done; no assertion fails
    and the function of B is not called. *)
Lemma invoke_dangling_continuation_returns :
  (getContinuation <$> lookup_task 0 (heap_dangling 21%Z (FnOfArg double)))
  = Some (Some 1)
  /\ alive 1 (heap_dangling 21%Z (FnOfArg double)) = false
  /\ exists h',
       invoke 3 0 (heap_dangling 21%Z (FnOfArg double)) = Ok h'
       /\ (getStatus <$> lookup_task 0 h') = Some TsDone
       /\ function_calls 1 (trace h') = 0.
Proof.
  split; [reflexivity|]. split; [reflexivity|].
  eexists. split; [vm_compute; reflexivity|]. split; reflexivity.
Qed.



Lemma then_continuation_runs_with_result_witness :
  (exists h2,
      invoke 3 0 (heap_chain 21%Z (FnOfArg double) (FnOfArg add_one)) = Ok h2
      /\ (getStatus <$> lookup_task 0 h2) = Some TsDone
      /\ future_state 0 h2 = Some (Ready 21%Z)
      /\ (getStatus <$> lookup_task 1 h2) = Some TsDone
      /\ future_state 1 h2 = Some (Ready 42%Z)
      /\ trace h2
         = trace (heap_chain_stage 21%Z (FnOfArg double) (FnOfArg add_one))
           ++ chain_events (heap_chain_stage 21%Z (FnOfArg double) (FnOfArg add_one))
                21%Z [(1, FnOfArg double); (2, FnOfArg add_one)]
      /\ chain_done (heap_chain_stage 21%Z (FnOfArg double) (FnOfArg add_one)) h2
           21%Z [(1, FnOfArg double); (2, FnOfArg add_one)])
  /\ (exists M h1 h2,
      then_ 0 (FnOfArg double) "B" None (heap_A 21%Z) = Ok (M, h1)
      /\ invoke 2 0 h1 = Ok h2
      /\ (getStatus <$> lookup_task 0 h2) = Some TsDone
      /\ future_state 0 h2 = Some (Ready 21%Z)
      /\ (getStatus <$> lookup_task M h2) = Some TsDone
      /\ future_state M h2 = Some (Ready 42%Z)
      /\ trace h2 = [EvFunction 0; EvFunction M; EvCallable M (Some 21%Z)]).
Proof.
  split.
  - apply (proj1 then_continuation_runs_with_result 0 0 1 (task_A_chain 21%Z)
             (with_status TsDone (task_A_chain 21%Z)) (produce_function 0 21%Z) 0 21%Z
             (FnOfArg double) [(2, FnOfArg add_one)]
             (heap_chain 21%Z (FnOfArg double) (FnOfArg add_one))
             (heap_chain_stage 21%Z (FnOfArg double) (FnOfArg add_one))).
    + reflexivity.
    + reflexivity.
    + vm_compute. reflexivity.
    + apply (evolves_function_stage 2 0 (task_A_chain 21%Z) (produce_function 0 21%Z)
               (heap_chain 21%Z (FnOfArg double) (FnOfArg add_one)));
        [vm_compute; reflexivity|].
      apply (well_formed_exec 8 (make_chain 21%Z (FnOfArg double) (FnOfArg add_one))
               empty_heap); [reflexivity|vm_compute; reflexivity].
    + apply (bool_decide_unpack _). vm_compute. exact I.
    + reflexivity.
    + reflexivity.
    + reflexivity.
    + reflexivity.
    + simpl. do 3 eexists. repeat split; try reflexivity; [vm_compute; lia|].
      do 3 eexists. repeat split; try reflexivity; [vm_compute; lia|].
      eexists. split; reflexivity.
  - apply (proj2 then_continuation_runs_with_result 0 0 (task_A 21%Z) 0 21%Z
             (FnOfArg double) "B"%string None (heap_A 21%Z)); reflexivity.
Defined.

Lemma invoke_checks_status_after_function_witness :
  invoke 1 0 (@heap_E Z) = Abort AssertStatusNotInvalid
  /\ invoke 1 0 (heap_A 21%Z)
     = fire_continuation 0 (with_status TsDone (task_A 21%Z))
         (returned (function_stage 0 0 (task_A 21%Z) (produce_function 0 21%Z)
                      (heap_A 21%Z))).
Proof.
  split.
  - apply (proj1 (invoke_checks_status_after_function 0 0 task_E
                    (with_status TsInvalid task_E) [OpSetStatus 0 TsInvalid] heap_E
                    (returned (function_stage 0 0 task_E [OpSetStatus 0 TsInvalid] heap_E))
                    eq_refl eq_refl eq_refl eq_refl)).
    reflexivity.
  - apply (proj2 (invoke_checks_status_after_function 0 0 (task_A 21%Z)
                    (with_status TsDone (task_A 21%Z)) (produce_function 0 21%Z)
                    (heap_A 21%Z)
                    (returned (function_stage 0 0 (task_A 21%Z) (produce_function 0 21%Z)
                                 (heap_A 21%Z)))
                    eq_refl eq_refl eq_refl eq_refl)).
    discriminate.
Defined.

(** C5, counterexample: A has never been given a status and is invalid
    when it is run; its function sets it done and the call returns
    normally.  E is pending when it is run; its function sets it invalid
    and the call fails the status assertion. *)
Lemma invoke_invalid_task_returns :
  (getStatus <$> lookup_task 0 (heap_A 21%Z)) = Some TsInvalid
  /\ (exists h', invoke 1 0 (heap_A 21%Z) = Ok h'
                 /\ (getStatus <$> lookup_task 0 h') = Some TsDone)
  /\ (getStatus <$> lookup_task 0 (@heap_E Z)) = Some TsPending
  /\ invoke 1 0 (@heap_E Z) = Abort AssertStatusNotInvalid.
Proof.
  split; [reflexivity|]. split.
  - eexists. split; [vm_compute; reflexivity|reflexivity].
  - split; [reflexivity|vm_compute; reflexivity].
Qed.

Lemma invoke_requires_function_witness :
  invoke 1 0 (@heap_C Z) = Abort AssertFunction
  /\ invoke 1 0 (@heap_F Z) = Ok (returned (function_stage 0 0 task_F [] heap_F))
  /\ function_calls 0 (trace (returned (function_stage 0 0 task_F [] (@heap_F Z))))
     = S (function_calls 0 (trace (@heap_F Z))).
Proof.
  split; [|split].
  - apply (proj1 (invoke_requires_function 0 0 task_C heap_C eq_refl)).
    reflexivity.
  - apply (proj2 (proj2 (proj2 (invoke_requires_function 0 0 task_F heap_F eq_refl)
                           [] eq_refl))
             _ task_F).
    + reflexivity.
    + reflexivity.
    + discriminate.
    + left. discriminate.
  - apply (proj1 (proj2 (proj2 (invoke_requires_function 0 0 task_F heap_F eq_refl)
                           [] eq_refl))).
    + reflexivity.
    + reflexivity.
Defined.

(** C2, at the failing input: the last handle of a task that is still
    pending is dropped; the destructor runs, its assertion passes and the
    task is destroyed. *)
Example pending_task_is_destroyed :
  (getStatus <$> lookup_task 0 (@heap_C Z)) = Some TsPending
  /\ exists h', release 1 0 (@heap_C Z) = Ok h' /\ alive 0 h' = false.
Proof. split; [reflexivity|]. eexists. split; reflexivity. Qed.

(* The scenario of D: it completes with 5, is reset and given a function
   that produces 9, and runs again.  The state of the first future still
   holds 5, the future obtained after the reset reads 9, and once D is
   destroyed the instance counter is back at its baseline. *)
Example reset_scenario :
  let rerun := make_D 5%Z ++ [OpSetStatus 0 TsPending;
                              OpSetFunction 0 (Some (produce_function 0 9%Z));
                              OpInvoke 0] in
  chans (built_by rerun) !! 0 = Some (Ready 5%Z)
  /\ future_state 0 (built_by rerun) = Some (Ready 9%Z)
  /\ s_instanceCount (built_by (rerun ++ [OpDropHandle 0]))
     = s_instanceCount (@empty_heap Z).
Proof. vm_compute. repeat split. Qed.

(** * Further scenarios *)

Lemma release_keeps_ref_sound_witness :
  exists h',
    release 3 1 (heap_AB 21%Z (FnOfArg double)) = Ok h'
    /\ ref_sound h'
    /\ live_count h' <= live_count (heap_AB 21%Z (FnOfArg double))
    /\ survivors (heap_AB 21%Z (FnOfArg double)) h'
    /\ (forall k t d, lookup_task k h' = Some t -> d ∈ m_dependencies t ->
          alive d h' = true).
Proof.
  apply (release_keeps_ref_sound 3 1 (heap_AB 21%Z (FnOfArg double))).
  - intros [|[|k]]; vm_compute; lia.
  - vm_compute. lia.
  - vm_compute. lia.
Defined.

Lemma addDependencies_overloads_agree_witness :
  addDependencies_pack 0 [0; 0] (heap_A 21%Z) = addDependencies 0 [0; 0] (heap_A 21%Z)
  /\ exists h',
       addDependencies 0 [0; 0] (heap_A 21%Z) = Ok h'
       /\ (forall k, strong_count k h'
             = strong_count k (heap_A 21%Z)
               + (if alive k (heap_A 21%Z) then occurrences k [0; 0] else 0))
       /\ (forall k, k <> 0 -> lookup_task k h' = lookup_task k (heap_A 21%Z))
       /\ chans h' = chans (heap_A 21%Z)
       /\ trace h' = trace (heap_A 21%Z)
       /\ s_instanceCount h' = s_instanceCount (heap_A 21%Z).
Proof.
  apply (addDependencies_overloads_agree 0 (task_A 21%Z) [0; 0] (heap_A 21%Z)).
  reflexivity.
Defined.

Lemma building_keeps_ref_sound_witness :
  ref_sound (heap_AB 21%Z (FnOfArg double))
  /\ (forall k t d, lookup_task k (heap_AB 21%Z (FnOfArg double)) = Some t ->
        d ∈ m_dependencies t -> alive d (heap_AB 21%Z (FnOfArg double)) = true).
Proof.
  apply (building_keeps_ref_sound 1 (OpThen 0 (FnOfArg double) "B" None)
           (heap_A 21%Z) (heap_AB 21%Z (FnOfArg double))).
  - intros [|k]; vm_compute; lia.
  - reflexivity.
  - reflexivity.
  - exact I.
  - vm_compute. reflexivity.
Defined.

Lemma then_keeps_predecessor_alive_witness :
  exists M h1 h2,
    then_ 0 (FnOfArg double) "B" None (heap_A 21%Z) = Ok (M, h1)
    /\ exec 1 (replicate (strong_count 0 (heap_A 21%Z)) (OpDropHandle 0)) h1 = Ok h2
    /\ lookup_task 0 h2 = Some (with_continuation (Some M) (task_A 21%Z))
    /\ strong_count 0 h2 = 1
    /\ (getDependencies <$> lookup_task M h2) = Some [0]
    /\ strong_count M h2 = 1
    /\ (forall k, alive k h2 = alive k h1)
    /\ s_instanceCount h2 = s_instanceCount h1.
Proof.
  apply (then_keeps_predecessor_alive 0 (task_A 21%Z) (FnOfArg double) "B"%string None
           0 (heap_A 21%Z)).
  reflexivity.
Defined.

Lemma then_result_dropped_witness :
  exists M h1 h2,
    then_ 0 (FnOfArg double) "B" None (heap_A 21%Z) = Ok (M, h1)
    /\ release 2 M h1 = Ok h2
    /\ alive M h2 = false
    /\ lookup_task 0 h2 = Some (with_continuation (Some M) (task_A 21%Z))
    /\ expired (Some M) h2 = true
    /\ (forall k, k <> 0 -> lookup_task k h2 = lookup_task k (heap_A 21%Z))
    /\ (forall k, strong_count k h2 = strong_count k (heap_A 21%Z))
    /\ s_instanceCount h2 = wrap32 (s_instanceCount (heap_A 21%Z))
    /\ chans h2 = chans (heap_A 21%Z) ++ [Broken]
    /\ trace h2 = trace (heap_A 21%Z).
Proof.
  apply (then_result_dropped 0 (task_A 21%Z) (FnOfArg double) "B"%string None
           0 (heap_A 21%Z)).
  - reflexivity.
  - vm_compute. lia.
Defined.

Lemma producer_runs_once_per_channel_witness :
  exists h1 h2 h3,
    invoke 1 0 (heap_A 21%Z) = Ok h1
    /\ future_state 0 h1 = Some (Ready 21%Z)
    /\ invoke 1 0 h1 = Throw PromiseAlreadySatisfied
    /\ exec_op 0 (OpSetStatus 0 TsPending) h1 = Ok h2
    /\ future_state 0 h2 = Some Unfulfilled
    /\ invoke 1 0 h2 = Ok h3
    /\ (getFuture <$> lookup_task 0 h3) = Some (Some (length (chans (heap_A 21%Z))))
    /\ future_state 0 h3 = Some (Ready 21%Z)
    /\ chans h3 !! 0 = Some (Ready 21%Z).
Proof.
  apply (producer_runs_once_per_channel 0 0 (task_A 21%Z) 0 21%Z TsPending
           (heap_A 21%Z)); try reflexivity.
  discriminate.
Defined.


Lemma operator_call_destroys_nothing_witness :
  keeps_handles
    (returned (exec 4 [OpInvoke 0] (heap_chain 21%Z (FnOfArg double) (FnOfArg add_one))))
  /\ (forall k,
        strong_count k (heap_chain 21%Z (FnOfArg double) (FnOfArg add_one))
        <= strong_count k
             (returned (exec 4 [OpInvoke 0]
                          (heap_chain 21%Z (FnOfArg double) (FnOfArg add_one)))))
  /\ (forall k,
        alive k (heap_chain 21%Z (FnOfArg double) (FnOfArg add_one)) = true ->
        alive k (returned (exec 4 [OpInvoke 0]
                             (heap_chain 21%Z (FnOfArg double) (FnOfArg add_one))))
        = true).
Proof.
  apply (operator_call_destroys_nothing 4 [OpInvoke 0]
           (heap_chain 21%Z (FnOfArg double) (FnOfArg add_one))).
  - split.
    + intros [|[|[|n]]] t body Hn Hf; vm_compute in Hn; try discriminate;
        injection Hn as <-; vm_compute in Hf; injection Hf as <-; reflexivity.
    + intros [|[|[|n]]]; vm_compute; intros Hn; try lia; discriminate.
  - reflexivity.
  - vm_compute. reflexivity.
Defined.

Lemma release_destroys_owned_chain_witness :
  exists h',
    release (S (length [1; 0]) + 0) 2
      (heap_chain_held 21%Z (FnOfArg double) (FnOfArg add_one)) = Ok h'
    /\ (forall k, k ∈ [2; 1; 0] -> alive k h' = false)
    /\ (forall k, k ∉ [2; 1; 0] ->
          lookup_task k h'
          = lookup_task k (heap_chain_held 21%Z (FnOfArg double) (FnOfArg add_one))
          /\ strong_count k h'
             = strong_count k (heap_chain_held 21%Z (FnOfArg double) (FnOfArg add_one)))
    /\ s_instanceCount h'
       = wrap32 (s_instanceCount (heap_chain_held 21%Z (FnOfArg double) (FnOfArg add_one))
                 - Z.of_nat (S (length [1; 0])))
    /\ trace h' = trace (heap_chain_held 21%Z (FnOfArg double) (FnOfArg add_one)).
Proof.
  apply (release_destroys_owned_chain 0 2 [1; 0]
           (heap_chain_held 21%Z (FnOfArg double) (FnOfArg add_one))).
  - simpl. eexists. split; [reflexivity|]. split; [reflexivity|].
    split; [reflexivity|]. eexists. split; [reflexivity|].
    split; [reflexivity|]. split; [reflexivity|]. eexists. split; reflexivity.
  - reflexivity.
  - apply (bool_decide_unpack _). vm_compute. exact I.
Defined.

Lemma invoke_reentrant_never_returns_witness :
  invoke 7 0
    (built_by [OpMakeShared "R" None false; OpSetFunction 0 (Some [OpInvoke 0])])
  = OutOfFuel (A := @Heap Z).
Proof.
  apply (proj2 (proj2 invoke_reentrant_never_returns) 7 0
           (with_function (Some [OpInvoke 0]) (new_task "R" None false 0)) []);
    reflexivity.
Defined.

Lemma dependency_cycles_are_never_destroyed_witness :
  exists h',
    release 2 0 (@heap_G Z) = Ok h'
    /\ ref_sound h'
    /\ self_supporting [0] h'
    /\ (forall s, s ∈ [0] -> alive s h' = true /\ lookup_task s h' = lookup_task s heap_G).
Proof.
  apply (dependency_cycles_are_never_destroyed 2 0 [0] heap_G).
  - intros [|k]; vm_compute; lia.
  - intros s Hs. apply list_elem_of_singleton in Hs as ->.
    exists 0. eexists. split; [apply list_elem_of_here|].
    split; [reflexivity|apply list_elem_of_here].
  - vm_compute. lia.
  - vm_compute. lia.
Defined.

Lemma invoke_returns_on_finite_chain_witness :
  invoke 5 0 (heap_chain 21%Z (FnOfArg double) (FnOfArg add_one)) <> OutOfFuel
  /\ invoke 5 0 (heap_chain 21%Z (FnOfArg double) (FnOfArg add_one))
     = invoke 3 0 (heap_chain 21%Z (FnOfArg double) (FnOfArg add_one)).
Proof.
  apply (invoke_returns_on_finite_chain 3 5 0
           (heap_chain 21%Z (FnOfArg double) (FnOfArg add_one))).
  - intros [|[|[|n]]] t body Hn Hf; vm_compute in Hn; try discriminate;
      injection Hn as <-; vm_compute in Hf; injection Hf as <-; reflexivity.
  - intros [|[|[|n]]]; vm_compute; intros Hn; try lia; discriminate.
  - vm_compute. exact I.
  - lia.
Defined.

Lemma operator_call_never_sets_status_witness :
  (forall h3,
      function_stage 0 0 task_H [OpSetDebugColor 0 (0, 0, 0)%Z] (@heap_H Z) = Ok h3 ->
      (getStatus <$> lookup_task 0 h3) = Some (getStatus (@task_H Z)))
  /\ (getStatus (@task_H Z) = TsInvalid ->
      (forall h3,
          function_stage 0 0 task_H [OpSetDebugColor 0 (0, 0, 0)%Z] (@heap_H Z) = Ok h3 ->
          invoke 1 0 (@heap_H Z) = Abort AssertStatusNotInvalid)
      /\ (forall h', invoke 1 0 (@heap_H Z) <> Ok h')).
Proof.
  apply (operator_call_never_sets_status 0 0 task_H [OpSetDebugColor 0 (0, 0, 0)%Z]
           heap_H); reflexivity.
Defined.

Lemma name_and_flag_never_change_witness :
  (forall n t t',
      lookup_task n (heap_chain 21%Z (FnOfArg double) (FnOfArg add_one)) = Some t ->
      lookup_task n
        (returned (exec 4 [OpInvoke 0; OpDropHandle 2]
                     (heap_chain 21%Z (FnOfArg double) (FnOfArg add_one)))) = Some t' ->
      isContinuation t' = isContinuation t /\ m_name t' = m_name t)
  /\ (forall n,
        n < length (tasks (heap_chain 21%Z (FnOfArg double) (FnOfArg add_one))) ->
        alive n (heap_chain 21%Z (FnOfArg double) (FnOfArg add_one)) = false ->
        alive n
          (returned (exec 4 [OpInvoke 0; OpDropHandle 2]
                       (heap_chain 21%Z (FnOfArg double) (FnOfArg add_one)))) = false)
  /\ (forall c,
        c < length (tasks (heap_chain 21%Z (FnOfArg double) (FnOfArg add_one))) ->
        expired (Some c) (heap_chain 21%Z (FnOfArg double) (FnOfArg add_one)) = true ->
        expired (Some c)
          (returned (exec 4 [OpInvoke 0; OpDropHandle 2]
                       (heap_chain 21%Z (FnOfArg double) (FnOfArg add_one)))) = true).
Proof.
  apply (name_and_flag_never_change 4 [OpInvoke 0; OpDropHandle 2]
           (heap_chain 21%Z (FnOfArg double) (FnOfArg add_one))).
  vm_compute. reflexivity.
Defined.
